(** * MobiAdvisor: the query orchestration engine, embedded and verified

    A shallow embedding of the TypeScript sources of the chat agent
    (query-processor.ts, llm-client.ts, vector-client.ts, database.ts and the
    shared types) together with the properties the specification states
    about them, and of the code around it (utils/error-handler.ts, the chat
    and catalog endpoints, the compare tray of the page) with further
    properties read off the code.

    Conventions of the embedding.
    - A JavaScript string is a [string]: a sequence of code units, one
      [ascii] each.  A character outside ASCII is the code units of its
      UTF-8 encoding; texts of the sources are kept character for
      character, also where they hold wrongly decoded characters (the
      price pattern, the warnings).  Letter case ([toLowerCase],
      [toUpperCase]) and white space ([trim], [\s]) are those of ASCII.
    - A JavaScript number is a rational [Q]; the sources only compare, add,
      subtract, multiply by a constant and divide two lengths, neither NaN
      nor an infinity arises from JSON input.  Lengths, indices and edit
      distances are [nat].
    - An optional property [x?: T] is an [option T]; truthiness tests
      ([if (x)], [x || y], [!x]) are written out with [truthy_num] and
      [truthy_str].
    - Calls that leave the process (chat completions, embeddings, the vector
      index, the SQL engine, the status callback) are oracles acting on an
      abstract world; the code around them runs in a state-and-exception
      monad that also records the calls made. *)

From Stdlib Require Import QArith Qminmax Qround Lqa.
From stdpp Require Import base list strings gmap sorting.
From Stdlib Require Import Ascii DecimalString.

Local Open Scope string_scope.
Local Open Scope list_scope.
Local Open Scope nat_scope.

(* ================================================================== *)
(** * JavaScript primitives used by the sources *)
(* ================================================================== *)

Module Js.

(** Code units of a string, and back. *)
Fixpoint chars (s : string) : list ascii :=
  match s with
  | EmptyString => []
  | String c s' => c :: chars s'
  end.

Fixpoint of_chars (l : list ascii) : string :=
  match l with
  | [] => EmptyString
  | c :: l' => String c (of_chars l')
  end.

(** [s.length] *)
Definition length (s : string) : nat := List.length (chars s).

(** [s.charAt(i)]: the empty string ([None]) out of range. *)
Definition charAt (s : string) (i : nat) : option ascii := chars s !! i.

(** [c1 !== c2] on the results of [charAt]. *)
Definition char_neq (c1 c2 : option ascii) : bool :=
  negb (bool_decide (c1 = c2)).

(** ASCII letter case, as [toLowerCase] / [toUpperCase] and SQLite's
    [LOWER] act on it. *)
Definition lower_char (c : ascii) : ascii :=
  let n := nat_of_ascii c in
  if (65 <=? n) && (n <=? 90) then ascii_of_nat (n + 32) else c.

Definition upper_char (c : ascii) : ascii :=
  let n := nat_of_ascii c in
  if (97 <=? n) && (n <=? 122) then ascii_of_nat (n - 32) else c.

Definition toLowerCase (s : string) : string := of_chars (map lower_char (chars s)).
Definition toUpperCase (s : string) : string := of_chars (map upper_char (chars s)).

(** [\s] of a regular expression and the characters [trim] removes,
    within the one-byte range. *)
Definition is_space (c : ascii) : bool := Ascii.is_space c.

(** [\d] *)
Definition is_digit (c : ascii) : bool :=
  let n := nat_of_ascii c in (48 <=? n) && (n <=? 57).

Definition digit_value (c : ascii) : nat := nat_of_ascii c - 48.

(** [parseInt] on a string of decimal digits. *)
Definition parseInt (ds : list ascii) : nat :=
  foldl (fun acc c => 10 * acc + digit_value c) 0 ds.

(** [s.startsWith(p)] on code units. *)
Fixpoint prefix_of (p s : list ascii) : bool :=
  match p, s with
  | [], _ => true
  | _ :: _, [] => false
  | a :: p', b :: s' => bool_decide (a = b) && prefix_of p' s'
  end.

Definition startsWith (s p : string) : bool := prefix_of (chars p) (chars s).

Definition endsWith (s p : string) : bool :=
  prefix_of (rev (chars p)) (rev (chars s)).

(** [s.includes(p)] *)
Fixpoint includes_chars (s p : list ascii) : bool :=
  prefix_of p s ||
  match s with
  | [] => false
  | _ :: s' => includes_chars s' p
  end.

Definition includes (s p : string) : bool := includes_chars (chars s) (chars p).

(** [s.slice(n)] for [n >= 0] and [s.slice(0, -n)]. *)
Definition slice_from (n : nat) (s : string) : string := of_chars (drop n (chars s)).
Definition slice_to_minus (n : nat) (s : string) : string :=
  of_chars (take (List.length (chars s) - n) (chars s)).

Fixpoint trim_start (l : list ascii) : list ascii :=
  match l with
  | c :: l' => if is_space c then trim_start l' else l
  | [] => []
  end.

(** [s.trim()] *)
Definition trim (s : string) : string :=
  of_chars (rev (trim_start (rev (trim_start (chars s))))).

(** [s.split(/\s+/)]: the pieces between maximal runs of white space; a
    leading or trailing run leaves an empty piece at that end. *)
Fixpoint split_ws_aux (in_sep : bool) (cur : list ascii) (l : list ascii)
    : list string :=
  match l with
  | [] => [of_chars (rev cur)]
  | c :: l' =>
      if is_space c
      then (if in_sep then split_ws_aux true cur l'
            else of_chars (rev cur) :: split_ws_aux true [] l')
      else split_ws_aux false (c :: cur) l'
  end.

Definition split_ws (s : string) : list string := split_ws_aux false [] (chars s).

(** [a[i] = v] on an array: in range the element is replaced, past the
    end the array grows (the elements in between are holes, read as 0
    here; the sources never create one). *)
Definition array_set (a : list nat) (i : nat) (v : nat) : list nat :=
  if decide (i < List.length a) then <[i:=v]> a
  else a ++ replicate (i - List.length a) 0 ++ [v].

(** [a[i]] *)
Definition array_get (a : list nat) (i : nat) : nat := default 0 (a !! i).

(** [String(n)] and template interpolation of an integer. *)
Definition int_toString (z : Z) : string := NilZero.string_of_int (Z.to_int z).

(** [a.join(sep)] *)
Fixpoint join (sep : string) (l : list string) : string :=
  match l with
  | [] => ""
  | [x] => x
  | x :: l' => x +:+ sep +:+ join sep l'
  end.

(** Truthiness of an optional number and of an optional string. *)
Definition truthy_num (x : option Q) : bool :=
  match x with
  | Some q => negb (Qeq_bool q 0)
  | None => false
  end.

Definition truthy_str (x : option string) : bool :=
  match x with
  | Some s => negb (bool_decide (s = ""))
  | None => false
  end.

End Js.

(* ================================================================== *)
(** * The fallback matcher of the vector client *)
(* ================================================================== *)

Module Similarity.

(** One turn of the inner loop of [levenshteinDistance]: the state is the
    array [costs] and the local [lastValue]. *)
Definition inner_step (s1 s2 : string) (i : nat)
    (st : list nat * nat) (j : nat) : list nat * nat :=
  let '(costs, lastValue) := st in
  if i =? 0 then (Js.array_set costs j j, lastValue)
  else if 0 <? j then
    let newValue := Js.array_get costs (j - 1) in
    let newValue :=
      if Js.char_neq (Js.charAt s1 (i - 1)) (Js.charAt s2 (j - 1))
      then Nat.min (Nat.min newValue lastValue) (Js.array_get costs j) + 1
      else newValue in
    (Js.array_set costs (j - 1) lastValue, newValue)
  else (costs, lastValue).

(** One turn of the outer loop. *)
Definition outer_step (s1 s2 : string) (costs : list nat) (i : nat) : list nat :=
  let '(costs, lastValue) :=
    foldl (inner_step s1 s2 i) (costs, i) (seq 0 (S (Js.length s2))) in
  if 0 <? i then Js.array_set costs (Js.length s2) lastValue else costs.

Definition levenshteinDistance (s1 s2 : string) : nat :=
  let costs := foldl (outer_step s1 s2) [] (seq 0 (S (Js.length s1))) in
  Js.array_get costs (Js.length s2).

Definition stringSimilarity (s1 s2 : string) : Q :=
  let longer := if Js.length s2 <? Js.length s1 then s1 else s2 in
  let shorter := if Js.length s2 <? Js.length s1 then s2 else s1 in
  if Js.length longer =? 0 then 1%Q
  else
    let distance := levenshteinDistance longer shorter in
    ((inject_Z (Z.of_nat (Js.length longer)) - inject_Z (Z.of_nat distance))
       / inject_Z (Z.of_nat (Js.length longer)))%Q.

(** The edit distance of the specification: the least number of
    single-character insertions, deletions and substitutions, by the
    textbook recursion on the two strings. *)
Fixpoint lev (a b : list ascii) : nat :=
  match a with
  | [] => List.length b
  | x :: a' =>
      (fix lev_a (b : list ascii) : nat :=
         match b with
         | [] => S (List.length a')
         | y :: b' =>
             if bool_decide (x = y) then lev a' b'
             else S (Nat.min (Nat.min (lev a' b') (lev_a b')) (lev a' (y :: b')))
         end) b
  end.

(** The similarity of the specification:
    [(max_len - levenshtein(a,b)) / max_len]. *)
Definition spec_similarity (a b : string) : Q :=
  let max_len := Nat.max (Js.length a) (Js.length b) in
  ((inject_Z (Z.of_nat max_len) - inject_Z (Z.of_nat (lev (Js.chars a) (Js.chars b))))
     / inject_Z (Z.of_nat max_len))%Q.

(** Two strings differ in every position. *)
Fixpoint differ_everywhere (a b : list ascii) : bool :=
  match a, b with
  | x :: a', y :: b' => negb (bool_decide (x = y)) && differ_everywhere a' b'
  | _, _ => true
  end.

(** Two strings share no character. *)
Definition disjoint_chars (a b : list ascii) : Prop :=
  forall x, x ∈ a -> x ∈ b -> False.

End Similarity.

(* ================================================================== *)
(** * The shared data types (types/index.ts) *)
(* ================================================================== *)

Module Phone.
Record t : Type := mk {
  phone_id : Z;
  company_name : string;
  model_name : string;
  processor : string;
  launched_year : Q;
  user_rating : Q;
  user_review : string;
  camera_rating : Q;
  battery_rating : Q;
  design_rating : Q;
  display_rating : Q;
  performance_rating : Q;
  memory_gb : Q;
  weight_g : Q;
  ram_gb : Q;
  front_camera_mp : Q;
  back_camera_mp : Q;
  battery_mah : Q;
  price_inr : Q;
  screen_size : Q
}.
End Phone.

Module Filters.
Record t : Type := mk {
  company : option string;
  minPrice : option Q;
  maxPrice : option Q;
  minCamera : option Q;
  maxCamera : option Q;
  minBattery : option Q;
  maxBattery : option Q;
  minRam : option Q;
  maxRam : option Q;
  minStorage : option Q;
  maxStorage : option Q
}.

(** The object literal [{}]. *)
Definition empty : t :=
  mk None None None None None None None None None None None.
End Filters.

Module Entities.
Record t : Type := mk {
  company : option (list string);
  model : option (list string);
  price_range : option (option Q * option Q);
  features : option (list string)
}.
Definition empty : t := mk None None None None.
End Entities.

Module Constraints.
Record t : Type := mk {
  min_price : option Q;
  max_price : option Q;
  min_ram : option Q;
  max_ram : option Q;
  min_battery : option Q;
  max_battery : option Q;
  min_camera : option Q;
  max_camera : option Q;
  min_storage : option Q;
  max_storage : option Q
}.
Definition empty : t := mk None None None None None None None None None None.
End Constraints.

Inductive Task : Type := TaskQuery | TaskGeneralQa | TaskReject.
Inductive ComparisonType : Type := CmpSingle | CmpMulti | CmpRange.

Global Instance Task_eq_dec : EqDecision Task.
Proof. solve_decision. Defined.
Global Instance ComparisonType_eq_dec : EqDecision ComparisonType.
Proof. solve_decision. Defined.

Module ParsedIntent.
Record t : Type := mk {
  task : Task;
  entities : Entities.t;
  constraints : Constraints.t;
  priority_features : option (list string);
  comparison_type : option ComparisonType
}.
End ParsedIntent.

Inductive Role : Type := RoleUser | RoleAssistant.

Module ChatHistoryMessage.
Record t : Type := mk {
  role : Role;
  content : string;
  phones : option (list Phone.t)
}.
End ChatHistoryMessage.

Module ChatResponse.
Record t : Type := mk {
  message : string;
  phones : option (list Phone.t);
  error : option string;
  warning : option string
}.
End ChatResponse.

(** The metadata stored with a vector: the typo-correction entries carry
    [type], [value] and [company], the product entries carry [id]. *)
Module Metadata.
Record t : Type := mk {
  type : string;
  value : string;
  company : option string;
  id : option Z
}.
End Metadata.

Module VectorSearchResult.
Record t : Type := mk {
  id : string;
  score : Q;
  metadata : option Metadata.t
}.
End VectorSearchResult.

(** A match as the index returns it: score and metadata may be missing. *)
Module ScoredMatch.
Record t : Type := mk {
  id : string;
  score : option Q;
  metadata : option Metadata.t
}.
End ScoredMatch.

(* ================================================================== *)
(** * Effects: exceptions, the world outside, and the calls made *)
(* ================================================================== *)

(** What a [throw] carries: an [Error] with its message, or another value. *)
Inductive exn : Type :=
  | JsError (message : string)
  | JsThrown.

Inductive outcome (A : Type) : Type :=
  | Returned (a : A)
  | Threw (e : exn).
Arguments Returned {A} a.
Arguments Threw {A} e.

(** The prompt sent to the chat model: the template and what is substituted
    into it. *)
Inductive Prompt : Type :=
  | INTENT_PROMPT (query : string)
  | NL2SQL_PROMPT (intent : ParsedIntent.t) (filters : Filters.t)
  | SUMMARY_PROMPT (query : string) (phones : list Phone.t)
  | GENERAL_QA_PROMPT (query : string).

Record ChatRequest : Type := mkChatRequest {
  req_prompt : Prompt;
  req_history : list (Role * string);
  req_system : bool
}.

(** A bound SQL parameter. *)
Inductive SqlValue : Type :=
  | SqlText (s : string)
  | SqlNum (q : Q).

(** A statement is kept as the list of the fragments it was concatenated
    from. *)
Definition Sql : Type := list string.

(** The filter of an index query. *)
Record IndexFilter : Type := mkIndexFilter {
  if_type : option string;
  if_company : option string;
  if_price_lte : option Q;
  if_price_gte : option Q;
  if_ram_gte : option Q;
  if_battery_gte : option Q
}.

(** The calls that leave the process. *)
Inductive Call : Type :=
  | CallStatus (status : string)
  | CallChat (req : ChatRequest)
  | CallEmbed (text : string)
  | CallListIndexes
  | CallCreateIndex
  | CallDescribeIndex
  | CallIndexQuery (vector : list Q) (topK : nat) (filter : option IndexFilter)
  | CallGetDatabase
  | CallExecute (sql : Sql) (params : list SqlValue)
  | CallCompanies
  | CallPhoneById (id : Z)
  | CallSearchByModel (term : string).

(** The calls of the retrieval paths: everything that reaches the vector
    index, the embedding model or the catalog. *)
Definition is_retrieval (c : Call) : bool :=
  match c with
  | CallStatus _ | CallChat _ => false
  | _ => true
  end.

Section Effects.

(** The state of everything outside the process. *)
Context {W : Type}.

(** The behaviour of an external call. *)
Definition Ext (A : Type) : Type := W -> outcome A * W.

(** The services the engine talks to.  Every one may throw. *)
Record Services : Type := mkServices {
  (** [openai.chat.completions.create]: the content of the first choice,
      if any *)
  chat_create : ChatRequest -> Ext (option string);
  (** [openai.embeddings.create]: the first embedding, if any *)
  embeddings_create : string -> Ext (option (list Q));
  (** Pinecone: names of the indexes, creation, readiness, query *)
  pinecone_listIndexes : Ext (list string);
  pinecone_createIndex : Ext unit;
  pinecone_describeIndex : Ext bool;
  pinecone_query : list Q -> nat -> option IndexFilter -> Ext (list ScoredMatch.t);
  (** the database client: [getDatabase], and the statements run on it *)
  db_getDatabase : Ext unit;
  db_execute : Sql -> list SqlValue -> Ext (list Phone.t);
  db_companies : Ext (list string);
  db_phoneById : Z -> Ext (option Phone.t);
  db_searchByModel : string -> Ext (list Phone.t);
  (** configuration read at construction time *)
  hasApiKey : bool;
  indexName : string;
  (** [JSON.parse] followed by the cast to [ParsedIntent]; [None] when
      it throws *)
  JSON_parse_intent : string -> option ParsedIntent.t;
  (** number formatting of the host: [toLocaleString('en-IN')] *)
  toLocaleString : Q -> string
}.

(** The state threaded through the engine: the world, the calls made so
    far, and the [initialized] field of the vector client singleton. *)
Record St : Type := mkSt {
  world : W;
  calls : list Call;
  initialized : bool
}.

Definition M (A : Type) : Type := St -> outcome A * St.

Definition ret {A} (a : A) : M A := fun s => (Returned a, s).

Definition bind {A B} (m : M A) (k : A -> M B) : M B :=
  fun s =>
    match m s with
    | (Returned a, s') => k a s'
    | (Threw e, s') => (Threw e, s')
    end.

Definition throw {A} (e : exn) : M A := fun s => (Threw e, s).

(** [try { m } catch (e) { h e }] *)
Definition try_catch {A} (m : M A) (h : exn -> M A) : M A :=
  fun s =>
    match m s with
    | (Returned a, s') => (Returned a, s')
    | (Threw e, s') => h e s'
    end.

(** An external call: it acts on the world and is recorded. *)
Definition invoke {A} (c : Call) (f : Ext A) : M A :=
  fun s =>
    let '(r, w) := f (world s) in
    (r, mkSt w (calls s ++ [c]) (initialized s)).

Definition get_initialized : M bool := fun s => (Returned (initialized s), s).

Definition set_initialized (b : bool) : M unit :=
  fun s => (Returned tt, mkSt (world s) (calls s) b).

End Effects.

Arguments Services : clear implicits.
Arguments St : clear implicits.
Arguments M : clear implicits.
Arguments Ext : clear implicits.

Notation "x <- m ;; k" := (bind m (fun x => k))
  (at level 100, m at next level, right associativity).
Notation "m ;;; k" := (bind m (fun _ => k))
  (at level 100, right associativity).

(** A [for ... of] loop whose body pushes into an accumulator. *)
Fixpoint for_each {W A B} (l : list A) (acc : B) (body : B -> A -> M W B) : M W B :=
  match l with
  | [] => ret acc
  | a :: l' => acc' <- body acc a ;; for_each l' acc' body
  end.

(* ================================================================== *)
(** * Sorting as [Array.prototype.sort] and [ORDER BY] do it *)
(* ================================================================== *)

Module Sort.
Section Stable.
Context {A : Type} (before : A -> A -> bool).

(** [before x y]: the comparator does not put [y] in front of [x]. *)
Fixpoint insert (x : A) (l : list A) : list A :=
  match l with
  | [] => [x]
  | y :: l' => if before x y then x :: l else y :: insert x l'
  end.

(** The stable sort: elements the comparator does not separate keep
    their order. *)
Definition sort (l : list A) : list A := foldr insert [] l.
End Stable.

(** [array.sort((a, b) => cmp a b)] with a numeric comparator: [a] stays
    in front of [b] when [cmp a b <= 0]. *)
Definition js_sort {A} (cmp : A -> A -> Q) (l : list A) : list A :=
  sort (fun a b => Qle_bool (cmp a b) 0) l.
End Sort.

(* ================================================================== *)
(** * The catalog (database.ts) *)
(* ================================================================== *)

Module Database.

(** [getFilteredPhones]: the statement text and its parameters, built
    clause by clause. *)
Definition add_text (c : option string) (frag : string)
    (st : Sql * list SqlValue) : Sql * list SqlValue :=
  match c with
  | Some v =>
      if Js.truthy_str c then (st.1 ++ [frag], st.2 ++ [SqlText v]) else st
  | None => st
  end.

Definition add_num (x : option Q) (frag : string)
    (st : Sql * list SqlValue) : Sql * list SqlValue :=
  match x with
  | Some v => (st.1 ++ [frag], st.2 ++ [SqlNum v])
  | None => st
  end.

Definition select_head : string := "SELECT * FROM phones WHERE 1=1".
Definition select_tail : string := " ORDER BY user_rating DESC, price_inr ASC LIMIT 50".

Definition filtered_statement (filters : Filters.t) : Sql * list SqlValue :=
  let st := ([select_head], []) in
  let st := add_text (Filters.company filters) " AND LOWER(company_name) = LOWER(?)" st in
  let st := add_num (Filters.minPrice filters) " AND price_inr >= ?" st in
  let st := add_num (Filters.maxPrice filters) " AND price_inr <= ?" st in
  let st := add_num (Filters.minCamera filters) " AND back_camera_mp >= ?" st in
  let st := add_num (Filters.maxCamera filters) " AND back_camera_mp <= ?" st in
  let st := add_num (Filters.minBattery filters) " AND battery_mah >= ?" st in
  let st := add_num (Filters.maxBattery filters) " AND battery_mah <= ?" st in
  let st := add_num (Filters.minRam filters) " AND ram_gb >= ?" st in
  let st := add_num (Filters.maxRam filters) " AND ram_gb <= ?" st in
  let st := add_num (Filters.minStorage filters) " AND memory_gb >= ?" st in
  let st := add_num (Filters.maxStorage filters) " AND memory_gb <= ?" st in
  (st.1 ++ [select_tail], st.2).

(** ** What the SQL engine does with these statements

    The meaning of one [AND] clause with its bound parameter on a row;
    [None] for a clause outside the family above. *)
Definition numeric_clauses : list (string * ((Phone.t -> Q) * bool)) :=
  [ (" AND price_inr >= ?", (Phone.price_inr, true));
    (" AND price_inr <= ?", (Phone.price_inr, false));
    (" AND back_camera_mp >= ?", (Phone.back_camera_mp, true));
    (" AND back_camera_mp <= ?", (Phone.back_camera_mp, false));
    (" AND battery_mah >= ?", (Phone.battery_mah, true));
    (" AND battery_mah <= ?", (Phone.battery_mah, false));
    (" AND ram_gb >= ?", (Phone.ram_gb, true));
    (" AND ram_gb <= ?", (Phone.ram_gb, false));
    (" AND memory_gb >= ?", (Phone.memory_gb, true));
    (" AND memory_gb <= ?", (Phone.memory_gb, false)) ].

Fixpoint assoc {B} (k : string) (l : list (string * B)) : option B :=
  match l with
  | [] => None
  | (k', b) :: l' => if bool_decide (k = k') then Some b else assoc k l'
  end.

Definition clause_holds (frag : string) (v : SqlValue) (row : Phone.t) : option bool :=
  if bool_decide (frag = " AND LOWER(company_name) = LOWER(?)") then
    match v with
    | SqlText s =>
        Some (bool_decide (Js.toLowerCase (Phone.company_name row) = Js.toLowerCase s))
    | SqlNum _ => None
    end
  else
    match assoc frag numeric_clauses, v with
    | Some (column, true), SqlNum q => Some (Qle_bool q (column row))
    | Some (column, false), SqlNum q => Some (Qle_bool (column row) q)
    | _, _ => None
    end.

(** The conjunction of the clauses, each with its positional parameter. *)
Fixpoint where_holds (clauses : list string) (params : list SqlValue)
    (row : Phone.t) : option bool :=
  match clauses, params with
  | [], [] => Some true
  | c :: clauses', v :: params' =>
      match clause_holds c v row, where_holds clauses' params' row with
      | Some b1, Some b2 => Some (b1 && b2)
      | _, _ => None
      end
  | _, _ => None
  end.

(** [ORDER BY user_rating DESC, price_inr ASC] *)
Definition order_before (a b : Phone.t) : bool :=
  if Qeq_bool (Phone.user_rating a) (Phone.user_rating b)
  then Qle_bool (Phone.price_inr a) (Phone.price_inr b)
  else Qle_bool (Phone.user_rating b) (Phone.user_rating a).

(** The rows a statement of the family selects from [table]; [None] when
    the engine would reject it. *)
Definition execute (table : list Phone.t) (sql : Sql) (params : list SqlValue)
    : option (list Phone.t) :=
  match sql with
  | head :: rest =>
      match rev rest with
      | tail :: rclauses =>
          if bool_decide (head = select_head) && bool_decide (tail = select_tail)
          then
            let clauses := rev rclauses in
            if forallb (fun row => bool_decide (is_Some (where_holds clauses params row))) table
            then
              let rows := filter (fun row => where_holds clauses params row = Some true) table in
              Some (take 50 (Sort.sort order_before rows))
            else None
          else None
      | [] => None
      end
  | [] => None
  end.

(** [queryPhones]: a failing statement is logged and yields no row. *)
Definition queryPhones (table : list Phone.t) (sql : Sql) (params : list SqlValue)
    : list Phone.t :=
  match execute table sql params with
  | Some rows => rows
  | None => []
  end.

Definition getFilteredPhones (table : list Phone.t) (filters : Filters.t)
    : list Phone.t :=
  let '(sql, params) := filtered_statement filters in
  queryPhones table sql params.

End Database.

(* ================================================================== *)
(** * The generation client (llm-client.ts) *)
(* ================================================================== *)

Module LLMClient.
Section WithServices.
Context {W : Type} (svc : Services W).

(** [history.slice(-4).map(h => ({ role, content }))] *)
Definition contextHistory (history : list ChatHistoryMessage.t) : list (Role * string) :=
  map (fun h => (ChatHistoryMessage.role h, ChatHistoryMessage.content h))
      (drop (List.length history - 4) history).

Definition generateContent (prompt : Prompt) (history : list (Role * string))
    (useSystemPrompt : bool) : M W string :=
  let req := mkChatRequest prompt history useSystemPrompt in
  content <- invoke (CallChat req) (chat_create svc req) ;;
  ret (default "" content).

Definition normalizeIntent (intent : ParsedIntent.t) : ParsedIntent.t :=
  let e := ParsedIntent.entities intent in
  let e :=
    Entities.mk (fmap (map Js.toLowerCase) (Entities.company e))
                (fmap (map Js.toLowerCase) (Entities.model e))
                (Entities.price_range e) (Entities.features e) in
  ParsedIntent.mk (ParsedIntent.task intent) e (ParsedIntent.constraints intent)
                  (ParsedIntent.priority_features intent)
                  (ParsedIntent.comparison_type intent).

(** The intent returned when the reply cannot be parsed. *)
Definition defaultIntent : ParsedIntent.t :=
  ParsedIntent.mk TaskQuery Entities.empty Constraints.empty None (Some CmpSingle).

(** Removal of a markdown code fence around a reply; [fence] is the
    opening fence with its language tag. *)
Definition stripFences (fence : string) (response : string) : string :=
  let clean := Js.trim response in
  let clean := if Js.startsWith clean fence
               then Js.slice_from (Js.length fence) clean else clean in
  let clean := if Js.startsWith clean "```" then Js.slice_from 3 clean else clean in
  let clean := if Js.endsWith clean "```" then Js.slice_to_minus 3 clean else clean in
  Js.trim clean.

Definition parseIntent (query : string) (history : list ChatHistoryMessage.t)
    : M W ParsedIntent.t :=
  response <- generateContent (INTENT_PROMPT query) (contextHistory history) false ;;
  let cleanResponse := stripFences "```json" response in
  match JSON_parse_intent svc cleanResponse with
  | Some parsed => ret (normalizeIntent parsed)
  | None => ret defaultIntent
  end.

Definition generateSQL (intent : ParsedIntent.t) (filters : Filters.t) : M W string :=
  response <- generateContent (NL2SQL_PROMPT intent filters) [] false ;;
  let sql := stripFences "```sql" response in
  if negb (Js.startsWith (Js.toUpperCase sql) "SELECT")
  then throw (JsError "Invalid SQL: Only SELECT statements allowed")
  else
    let sql := if negb (Js.includes (Js.toUpperCase sql) "LIMIT")
               then sql +:+ " LIMIT 5" else sql in
    ret sql.

(** The key under which [getUniquePhones] remembers a phone. *)
Definition uniqueKey (phone : Phone.t) : string :=
  Phone.company_name phone +:+ "-" +:+ Phone.model_name phone.

Fixpoint getUniquePhones_loop (phones : list Phone.t) (seen : gset string)
    (unique : list Phone.t) (limit : nat) : list Phone.t :=
  match phones with
  | [] => unique
  | phone :: rest =>
      let key := uniqueKey phone in
      if decide (key ∈ seen) then getUniquePhones_loop rest seen unique limit
      else
        let seen := {[ key ]} ∪ seen in
        let unique := unique ++ [phone] in
        if limit <=? List.length unique then unique
        else getUniquePhones_loop rest seen unique limit
  end.

Definition getUniquePhones (phones : list Phone.t) (limit : nat) : list Phone.t :=
  getUniquePhones_loop phones ∅ [] limit.

Definition noPhonesMessage : string :=
  "I couldn't find any phones matching your criteria. Could you try:" +:+
  String "010" "- Adjusting your price range" +:+
  String "010" "- Trying a different brand" +:+
  String "010" "- Being more specific about features you need".

Definition summarize (query : string) (phones : list Phone.t)
    (history : list ChatHistoryMessage.t) : M W string :=
  let uniquePhones := getUniquePhones phones 4 in
  if List.length uniquePhones =? 0 then ret noPhonesMessage
  else
    response <- generateContent (SUMMARY_PROMPT query uniquePhones)
                                (contextHistory history) true ;;
    ret (Js.trim response).

Definition answerGeneral (query : string) (history : list ChatHistoryMessage.t)
    : M W string :=
  response <- generateContent (GENERAL_QA_PROMPT query) (contextHistory history) true ;;
  ret (Js.trim response).

Definition embed (text : string) : M W (list Q) :=
  try_catch
    (embedding <- invoke (CallEmbed text) (embeddings_create svc text) ;;
     ret (default [] embedding))
    (fun _ => ret []).

End WithServices.
End LLMClient.

(* ================================================================== *)
(** * The catalog accessors as the engine calls them *)
(* ================================================================== *)

Module Catalog.
Section WithServices.
Context {W : Type} (svc : Services W).

(** [queryPhones]: only obtaining the client can throw; a failing
    statement yields no row. *)
Definition queryPhones (sql : Sql) (params : list SqlValue) : M W (list Phone.t) :=
  invoke CallGetDatabase (db_getDatabase svc) ;;;
  try_catch (invoke (CallExecute sql params) (db_execute svc sql params))
            (fun _ => ret []).

Definition getFilteredPhones (filters : Filters.t) : M W (list Phone.t) :=
  let '(sql, params) := Database.filtered_statement filters in
  queryPhones sql params.

Definition getPhoneById (id : Z) : M W (option Phone.t) :=
  invoke CallGetDatabase (db_getDatabase svc) ;;;
  invoke (CallPhoneById id) (db_phoneById svc id).

Definition getCompanies : M W (list string) :=
  invoke CallGetDatabase (db_getDatabase svc) ;;;
  invoke CallCompanies (db_companies svc).

Definition searchPhonesByModel (searchTerm : string) : M W (list Phone.t) :=
  invoke CallGetDatabase (db_getDatabase svc) ;;;
  invoke (CallSearchByModel searchTerm) (db_searchByModel svc searchTerm).
End WithServices.
End Catalog.

(* ================================================================== *)
(** * The vector client (vector-client.ts) *)
(* ================================================================== *)

Inductive TypeFilter : Type := TfCompany | TfModel.

Module VectorClient.
Section WithServices.
Context {W : Type} (svc : Services W).

Definition type_name (t : TypeFilter) : string :=
  match t with TfCompany => "company" | TfModel => "model" end.

(** [waitForIndex]: at most [maxAttempts] polls. *)
Fixpoint waitForIndex_loop (attempts : nat) : M W unit :=
  match attempts with
  | 0 => throw (JsError "Timeout waiting for Pinecone index")
  | S n =>
      ready <- invoke CallDescribeIndex (pinecone_describeIndex svc) ;;
      if ready : bool then ret tt else waitForIndex_loop n
  end.

Definition waitForIndex : M W unit := waitForIndex_loop 30.

Definition initIndex : M W unit :=
  initialized <- get_initialized ;;
  if initialized : bool then ret tt
  else if negb (hasApiKey svc) then set_initialized false
  else
    try_catch
      (indexes <- invoke CallListIndexes (pinecone_listIndexes svc) ;;
       let indexExists := existsb (fun name => bool_decide (name = indexName svc)) indexes in
       (if negb indexExists
        then invoke CallCreateIndex (pinecone_createIndex svc) ;;; waitForIndex
        else ret tt) ;;;
       set_initialized true)
      (fun _ => set_initialized false).

Definition stringSimilarity := Similarity.stringSimilarity.

(** [results.sort((a, b) => b.score - a.score).slice(0, 5)] *)
Definition rank (results : list VectorSearchResult.t) : list VectorSearchResult.t :=
  take 5 (Sort.js_sort
            (fun a b => (VectorSearchResult.score b - VectorSearchResult.score a)%Q)
            results).

Definition company_candidates (queryLower : string) (companies : list string)
    : list VectorSearchResult.t :=
  omap (fun company =>
          let score := stringSimilarity queryLower (Js.toLowerCase company) in
          if Qlt_le_dec (1 # 2) score
          then Some (VectorSearchResult.mk ("company-" +:+ company) score
                       (Some (Metadata.mk "company" company None None)))
          else None)
       companies.

Definition model_candidates (queryLower : string) (phones : list Phone.t)
    : list VectorSearchResult.t :=
  map (fun phone =>
         let score := stringSimilarity queryLower (Js.toLowerCase (Phone.model_name phone)) in
         VectorSearchResult.mk ("model-" +:+ Js.int_toString (Phone.phone_id phone))
           (Qmax score (6 # 10))
           (Some (Metadata.mk "model" (Phone.model_name phone)
                    (Some (Phone.company_name phone)) None)))
      (take 5 phones).

Definition fallbackSimilar (query : string) (typeFilter : option TypeFilter)
    : M W (list VectorSearchResult.t) :=
  let queryLower := Js.toLowerCase query in
  results <-
    (match typeFilter with
     | None | Some TfCompany =>
         companies <- Catalog.getCompanies svc ;;
         ret (company_candidates queryLower companies)
     | _ => ret []
     end) ;;
  results <-
    (match typeFilter with
     | None | Some TfModel =>
         phones <- Catalog.searchPhonesByModel svc query ;;
         ret (results ++ model_candidates queryLower phones)
     | _ => ret results
     end) ;;
  ret (rank results).

(** The matches of the index that pass the threshold. *)
Definition accepted (threshold : Q) (matches : list ScoredMatch.t)
    : list VectorSearchResult.t :=
  omap (fun m =>
          match ScoredMatch.score m with
          | Some sc =>
              if negb (Qeq_bool sc 0) && Qle_bool threshold sc
              then Some (VectorSearchResult.mk (ScoredMatch.id m) sc (ScoredMatch.metadata m))
              else None
          | None => None
          end)
       matches.

Definition findSimilar (query : string) (typeFilter : option TypeFilter)
    (companyFilter : option string) (threshold : Q)
    : M W (list VectorSearchResult.t) :=
  initialized <- get_initialized ;;
  (if negb initialized then initIndex else ret tt) ;;;
  initialized <- get_initialized ;;
  if negb initialized then fallbackSimilar query typeFilter
  else
    found <-
      try_catch
        (embedding <- LLMClient.embed svc (Js.toLowerCase query) ;;
         let filter :=
           mkIndexFilter (fmap type_name typeFilter)
             (if Js.truthy_str companyFilter then fmap Js.toLowerCase companyFilter else None)
             None None None None in
         let nonempty := bool_decide (is_Some (if_type filter))
                         || bool_decide (is_Some (if_company filter)) in
         let filter := if nonempty then Some filter else None in
         results <- invoke (CallIndexQuery embedding 5 filter)
                           (pinecone_query svc embedding 5 filter) ;;
         ret (Some (accepted threshold results)))
        (fun _ => ret None) ;;
    match found with
    | Some results => ret results
    | None => fallbackSimilar query typeFilter
    end.

(** The filters [searchProducts] and [fallbackProductSearch] accept. *)
Record SemanticFilters : Type := mkSemanticFilters {
  sf_maxPrice : option Q;
  sf_minPrice : option Q;
  sf_minRam : option Q;
  sf_minBattery : option Q;
  sf_company : option string
}.

Definition keep_num (x : option Q) : option Q := if Js.truthy_num x then x else None.
Definition keep_str (x : option string) : option string :=
  if Js.truthy_str x then x else None.

Definition fallbackProductSearch (query : string) (filters : SemanticFilters)
    (limit : nat) : M W (list Phone.t) :=
  let dbFilters :=
    Filters.mk (keep_str (sf_company filters)) (keep_num (sf_minPrice filters))
      (keep_num (sf_maxPrice filters)) None None (keep_num (sf_minBattery filters)) None
      (keep_num (sf_minRam filters)) None None None in
  phones <- Catalog.getFilteredPhones svc dbFilters ;;
  ret (take limit phones).

Definition searchProducts (query : string) (filters : SemanticFilters) (topK : nat)
    : M W (list Phone.t) :=
  initialized <- get_initialized ;;
  if negb (hasApiKey svc) || negb initialized
  then fallbackProductSearch query filters topK
  else
    found <-
      try_catch
        (embedding <- LLMClient.embed svc query ;;
         if List.length embedding =? 0 then ret None
         else
           let pineconeFilter :=
             mkIndexFilter (Some "product")
               (fmap Js.toLowerCase (keep_str (sf_company filters)))
               (keep_num (sf_maxPrice filters)) (keep_num (sf_minPrice filters))
               (keep_num (sf_minRam filters)) (keep_num (sf_minBattery filters)) in
           results <- invoke (CallIndexQuery embedding topK (Some pineconeFilter))
                             (pinecone_query svc embedding topK (Some pineconeFilter)) ;;
           phones <-
             for_each results []
               (fun phones m =>
                  match ScoredMatch.metadata m with
                  | Some md =>
                      match Metadata.id md with
                      | Some phoneId =>
                          if negb (phoneId =? 0)%Z then
                            phone <- Catalog.getPhoneById svc phoneId ;;
                            match phone with
                            | Some p => ret (phones ++ [p])
                            | None => ret phones
                            end
                          else ret phones
                      | None => ret phones
                      end
                  | None => ret phones
                  end) ;;
           ret (Some phones))
        (fun _ => ret None) ;;
    match found with
    | Some phones => ret phones
    | None => fallbackProductSearch query filters topK
    end.

End WithServices.
End VectorClient.

(* ================================================================== *)
(** * The price pattern of the keyword fallback *)
(* ================================================================== *)

Module PricePattern.

Definition comma : ascii := ","%char.

(** The character class [[k,K]]: it lists the comma too. *)
Definition in_class_k (c : ascii) : bool :=
  bool_decide (c = "k"%char) || bool_decide (c = comma) || bool_decide (c = "K"%char).

(** First alternative, [(\d{1,3})[k,K]], at the start of [s]: the
    greedy quantifier tries three digits, then two, then one. *)
Fixpoint alt1_try (n : nat) (s : list ascii) : option (list ascii) :=
  match n with
  | 0 => None
  | S n' =>
      let ds := take n s in
      if (List.length ds =? n) && forallb Js.is_digit ds
         && match drop n s with c :: _ => in_class_k c | [] => false end
      then Some ds
      else alt1_try n' s
  end.

Definition alt1 (s : list ascii) : option (list ascii) := alt1_try 3 s.

(** What the pattern has where a rupee sign was meant: the characters
    U+201A and U+00C7, and then U+03C0, which alone the [?] makes
    optional.  Each is the code units of its UTF-8 encoding. *)
Definition quote_cedilla : list ascii := ["226"; "128"; "154"; "195"; "135"]%char.
Definition pi : list ascii := ["207"; "128"]%char.

Fixpoint take_digits (n : nat) (s : list ascii) : list ascii :=
  match n, s with
  | S n', c :: s' => if Js.is_digit c then c :: take_digits n' s' else []
  | _, _ => []
  end.

(** [(\d{4,6})] at the start of [s], greedy. *)
Definition digits46 (s : list ascii) : option (list ascii) :=
  let ds := take_digits 6 s in
  if 4 <=? List.length ds then Some ds else None.

(** [\s*(\d{4,6})]: giving back white space cannot help, what follows
    the shorter run is white space and not a digit. *)
Definition ws_digits (s : list ascii) : option (list ascii) :=
  digits46 (Js.trim_start s).

(** Second alternative, [\‚Çπ?\s*(\d{4,6})]: the two characters, then
    the optional third, taken when present and given back if the rest does
    not match. *)
Definition alt2 (s : list ascii) : option (list ascii) :=
  if Js.prefix_of quote_cedilla s then
    let s := drop 5 s in
    if Js.prefix_of pi s then
      match ws_digits (drop 2 s) with
      | Some ds => Some ds
      | None => ws_digits s
      end
    else ws_digits s
  else None.

(** The two capture groups of a match. *)
Inductive groups : Type :=
  | Group1 (digits : list ascii)
  | Group2 (digits : list ascii).

Definition match_here (s : list ascii) : option groups :=
  match alt1 s with
  | Some ds => Some (Group1 ds)
  | None =>
      match alt2 s with
      | Some ds => Some (Group2 ds)
      | None => None
      end
  end.

(** [query.match(/(\d{1,3})[k,K]|\‚Çπ?\s*(\d{4,6})/)]: the leftmost
    position at which the pattern matches. *)
Fixpoint search (s : list ascii) : option groups :=
  match match_here s with
  | Some g => Some g
  | None =>
      match s with
      | [] => None
      | _ :: s' => search s'
      end
  end.

(** [priceValue] *)
Definition priceValue (g : groups) : Q :=
  match g with
  | Group1 ds => inject_Z (Z.of_nat (Js.parseInt ds) * 1000)
  | Group2 ds => inject_Z (Z.of_nat (Js.parseInt ds))
  end.

(** ** The pattern in the words of the specification:
    [\d{1,3}[kK]] or a number of four to six digits. *)
Fixpoint spec_alt1_try (n : nat) (s : list ascii) : option (list ascii) :=
  match n with
  | 0 => None
  | S n' =>
      let ds := take n s in
      if (List.length ds =? n) && forallb Js.is_digit ds
         && match drop n s with
            | c :: _ => bool_decide (c = "k"%char) || bool_decide (c = "K"%char)
            | [] => false
            end
      then Some ds
      else spec_alt1_try n' s
  end.

Definition spec_match_here (s : list ascii) : option Q :=
  match spec_alt1_try 3 s with
  | Some ds => Some (inject_Z (Z.of_nat (Js.parseInt ds) * 1000))
  | None =>
      match digits46 s with
      | Some ds => Some (inject_Z (Z.of_nat (Js.parseInt ds)))
      | None => None
      end
  end.

Fixpoint spec_priceFigure (s : list ascii) : option Q :=
  match spec_match_here s with
  | Some v => Some v
  | None =>
      match s with
      | [] => None
      | _ :: s' => spec_priceFigure s'
      end
  end.

End PricePattern.

(* ================================================================== *)
(** * The query processor (query-processor.ts) *)
(* ================================================================== *)

Module QueryProcessor.

Definition followUpPhrases : list string :=
  [ "tell me more"; "more about"; "first one"; "second one"; "this phone";
    "that phone"; "the first"; "the second"; "which one"; "more details";
    "explain"; "why"; "what about";
    "which is best"; "which is the best"; "best among"; "best one";
    "best phone"; "recommend"; "should i buy"; "should i get";
    "which should i"; "top pick"; "top choice"; "among these"; "among all";
    "of these"; "out of these" ].

Definition isFollowUpQuery (query : string) : bool :=
  let lowerQuery := Js.toLowerCase query in
  existsb (fun phrase => Js.includes lowerQuery phrase) followUpPhrases.

Definition bestPhrases : list string :=
  [ "which is best"; "which one is best"; "which phone is best";
    "which is the best"; "which one is the best"; "which phone is the best";
    "best among"; "best one"; "best phone"; "recommend one";
    "recommend me one"; "should i buy"; "should i get"; "which should i";
    "pick one"; "top choice"; "top pick" ].

Definition isBestPhoneQuery (query : string) : bool :=
  let lowerQuery := Js.toLowerCase query in
  existsb (fun phrase => Js.includes lowerQuery phrase) bestPhrases.

(** The loop runs from the last turn to the first. *)
Fixpoint getPhonesFromHistory_loop (turns : list ChatHistoryMessage.t) : list Phone.t :=
  match turns with
  | [] => []
  | turn :: earlier =>
      match ChatHistoryMessage.phones turn with
      | Some (p :: ps) => p :: ps
      | _ => getPhonesFromHistory_loop earlier
      end
  end.

Definition getPhonesFromHistory (history : list ChatHistoryMessage.t) : list Phone.t :=
  getPhonesFromHistory_loop (rev history).

Record ErrorDetails : Type := mkErrorDetails {
  userMessage : string;
  technicalMessage : string
}.

Definition classifyError (errorMessage : string) : ErrorDetails :=
  let lowerError := Js.toLowerCase errorMessage in
  let has := Js.includes lowerError in
  if has "rate_limit" || has "rate limit" || has "429" || has "too many requests" then
    mkErrorDetails
      "‚è≥ Our AI service is temporarily busy. While waiting, here are some phones that might match your query:"
      "Rate limit exceeded"
  else if has "quota" || has "insufficient_quota" || has "billing" || has "exceeded" then
    mkErrorDetails
      "‚ö†Ô∏è AI service quota reached. Here are phones from our database that match your search:"
      "API quota exceeded"
  else if has "network" || has "connection" || has "econnrefused" || has "timeout"
          || has "fetch failed" then
    mkErrorDetails
      "üåê Connection issue with AI service. Here are phones that might help:"
      "Network connection error"
  else if has "invalid_api_key" || has "authentication" || has "unauthorized"
          || has "401" then
    mkErrorDetails
      "üîë AI service configuration issue. Here are some phone recommendations from our database:"
      "API authentication error"
  else
    mkErrorDetails
      "Sorry, I couldn't generate a personalized response. Here are some phones that might match your search:"
      errorMessage.

Definition brands : list string :=
  [ "samsung"; "apple"; "iphone"; "xiaomi"; "oneplus"; "vivo"; "oppo"; "realme";
    "motorola" ].

(** [keywords.includes(w)] *)
Definition has_keyword (keywords : list string) (w : string) : bool :=
  existsb (fun k => bool_decide (k = w)) keywords.

(** The loop over [brands]: the first brand of the list that is a keyword,
    as it is or with a final [s]. *)
Fixpoint fallbackBrand (keywords : list string) (bs : list string) : option string :=
  match bs with
  | [] => None
  | brand :: bs' =>
      if has_keyword keywords brand || has_keyword keywords (brand +:+ "s")
      then Some (if bool_decide (brand = "iphone") then "apple" else brand)
      else fallbackBrand keywords bs'
  end.

(** The price bounds the fallback derives from a matched figure. *)
Definition fallbackPriceBounds (query : string) (priceValue : Q) : option Q * option Q :=
  let lower := Js.toLowerCase query in
  if Js.includes lower "under" || Js.includes lower "below" then
    (None, Some priceValue)
  else if Js.includes lower "above" || Js.includes lower "over" then
    (Some priceValue, None)
  else
    (Some (Qmax 0 (priceValue - 10000)), Some (priceValue + 10000)%Q).

(** The [filters] object [getFallbackResults] builds before it queries. *)
Definition fallbackFilters (query : string) : Filters.t :=
  let keywords := Js.split_ws (Js.toLowerCase query) in
  let '(minPrice, maxPrice) :=
    match PricePattern.search (Js.chars query) with
    | Some priceMatch => fallbackPriceBounds query (PricePattern.priceValue priceMatch)
    | None => (None, None)
    end in
  Filters.mk (fallbackBrand keywords brands) minPrice maxPrice
             None None None None None None None None.

(** [(a, b) => (b.user_rating || 0) - (a.user_rating || 0)] *)
Definition byRatingOrZero (a b : Phone.t) : Q :=
  let r p := if Js.truthy_num (Some (Phone.user_rating p)) then Phone.user_rating p else 0%Q in
  (r b - r a)%Q.

(** [(a, b) => b.user_rating - a.user_rating] *)
Definition byRating (a b : Phone.t) : Q := (Phone.user_rating b - Phone.user_rating a)%Q.

Definition mergeBound (tighter : Q -> Q -> bool) (constraint merged : option Q) : option Q :=
  match constraint with
  | Some c =>
      if Js.truthy_num constraint
         && (negb (Js.truthy_num merged)
             || match merged with Some m => tighter c m | None => false end)
      then Some c
      else merged
  | None => merged
  end.

(** [c > m] and [c < m] *)
Definition gt (c m : Q) : bool := negb (Qle_bool c m).
Definition lt (c m : Q) : bool := negb (Qle_bool m c).

Definition mergeFilters (filters : Filters.t) (intent : ParsedIntent.t) : Filters.t :=
  let constraints := ParsedIntent.constraints intent in
  let company :=
    match Entities.company (ParsedIntent.entities intent) with
    | Some (c :: _) =>
        if negb (Js.truthy_str (Filters.company filters)) then Some c
        else Filters.company filters
    | _ => Filters.company filters
    end in
  Filters.mk company
    (mergeBound gt (Constraints.min_price constraints) (Filters.minPrice filters))
    (mergeBound lt (Constraints.max_price constraints) (Filters.maxPrice filters))
    (mergeBound gt (Constraints.min_camera constraints) (Filters.minCamera filters))
    (mergeBound lt (Constraints.max_camera constraints) (Filters.maxCamera filters))
    (mergeBound gt (Constraints.min_battery constraints) (Filters.minBattery filters))
    (mergeBound lt (Constraints.max_battery constraints) (Filters.maxBattery filters))
    (mergeBound gt (Constraints.min_ram constraints) (Filters.minRam filters))
    (mergeBound lt (Constraints.max_ram constraints) (Filters.maxRam filters))
    (mergeBound gt (Constraints.min_storage constraints) (Filters.minStorage filters))
    (mergeBound lt (Constraints.max_storage constraints) (Filters.maxStorage filters)).

(** The decision [applyCorrections] takes for one token, given the
    result of [findSimilar]; reading [value] off a missing metadata
    object is a TypeError. *)
Definition correctToken (token : string) (similar : list VectorSearchResult.t)
    : outcome string :=
  match similar with
  | top :: _ =>
      if Qlt_le_dec (7 # 10) (VectorSearchResult.score top) then
        match VectorSearchResult.metadata top with
        | Some md => Returned (Metadata.value md)
        | None => Threw (JsError "Cannot read properties of undefined (reading 'value')")
        end
      else Returned token
  | [] => Returned token
  end.

Definition companyPatterns : list (string * list string) :=
  [ ("samsung", ["galaxy"; "s24"; "s23"; "s22"; "s21"; "a55"; "a54"; "a53"; "m54";
                 "m53"; "fold"; "flip"]);
    ("apple", ["iphone"]);
    ("google", ["pixel"]);
    ("oneplus", ["oneplus"; "nord"]);
    ("xiaomi", ["redmi"; "poco"; "mi "]);
    ("realme", ["realme"]);
    ("oppo", ["oppo"; "reno"; "find"]);
    ("vivo", ["vivo"; "iqoo"]);
    ("motorola", ["moto"; "edge"; "razr"]);
    ("nothing", ["nothing"; "phone ("]);
    ("honor", ["honor"; "magic"]);
    ("huawei", ["huawei"; "mate"; "p60"; "p50"]) ].

Definition inferCompanyFromModel (model : string) : option string :=
  let lowerModel := Js.toLowerCase model in
  fmap fst
    (List.find (fun entry => existsb (fun p => Js.includes lowerModel p) entry.2)
               companyPatterns).

Definition brandMappings : list (string * list string) :=
  [ ("apple", ["apple"; "iphone"]);
    ("samsung", ["samsung"; "galaxy"]);
    ("google", ["google"; "pixel"]);
    ("oneplus", ["oneplus"; "one plus"]);
    ("xiaomi", ["xiaomi"; "redmi"; "poco"]);
    ("realme", ["realme"]);
    ("oppo", ["oppo"; "reno"]);
    ("vivo", ["vivo"; "iqoo"]);
    ("motorola", ["motorola"; "moto"]);
    ("nothing", ["nothing"]);
    ("honor", ["honor"]);
    ("huawei", ["huawei"]) ].

Definition modelAliases : list (string * list string) :=
  [ ("s24", ["galaxy s24 128gb"; "galaxy s24 256gb"; "galaxy s24"]);
    ("s24 ultra", ["galaxy s24 ultra 128gb"; "galaxy s24 ultra 256gb"; "s24 ultra"]);
    ("s24+", ["galaxy s24+ 128gb"; "galaxy s24+ 256gb"; "s24+"]);
    ("s23", ["galaxy s23 128gb"; "galaxy s23 256gb"; "galaxy s23"]);
    ("s23 ultra", ["galaxy s23 ultra"; "s23 ultra"]);
    ("a55", ["galaxy a55"; "a55 5g"]);
    ("a54", ["galaxy a54"; "a54 5g"]);
    ("iphone 15", ["iphone 15"; "iphone 15 128gb"]);
    ("iphone 15 pro", ["iphone 15 pro"; "iphone 15 pro 128gb"; "iphone 15 pro 256gb"]);
    ("iphone 15 pro max",
     ["iphone 15 pro max"; "iphone 15 pro max 128gb"; "iphone 15 pro max 256gb"]);
    ("iphone 14", ["iphone 14"; "iphone 14 128gb"]);
    ("pixel 8", ["pixel 8"; "pixel 8 128gb"]);
    ("pixel 8 pro", ["pixel 8 pro"; "pixel 8 pro 128gb"]);
    ("pixel 8a", ["pixel 8a"; "pixel 8a 128gb"]);
    ("oneplus 12", ["oneplus 12"; "oneplus 12 256gb"]);
    ("oneplus 12r", ["oneplus 12r"; "oneplus 12r 128gb"]);
    ("oneplus nord", ["nord ce"; "nord 3"; "nord 4"]);
    ("redmi note 13", ["redmi note 13"; "redmi note 13 pro"; "redmi note 13 pro+"]);
    ("nothing phone", ["phone (1)"; "phone (2)"; "phone 2a"]) ].

(** Names every object literal inherits from [Object.prototype]. *)
Definition prototypeMembers : list string :=
  [ "constructor"; "__defineGetter__"; "__defineSetter__"; "hasOwnProperty";
    "__lookupGetter__"; "__lookupSetter__"; "isPrototypeOf"; "propertyIsEnumerable";
    "toString"; "valueOf"; "__proto__"; "toLocaleString" ].

(** [modelAliases[lowerModel]]: the list under an own key, a member of the
    prototype (a function, or the prototype itself) under an inherited
    name, [undefined] otherwise. *)
Inductive AliasLookup : Type :=
  | OwnAliases (aliases : list string)
  | InheritedMember
  | NoAliases.

Definition lookupAliases (lowerModel : string) : AliasLookup :=
  match Database.assoc lowerModel modelAliases with
  | Some aliases => OwnAliases aliases
  | None =>
      if bool_decide (lowerModel ∈ prototypeMembers) then InheritedMember else NoAliases
  end.

(** The statements of the comparison paths, as the template literals
    spell them: each begins with a line break and the indentation of the
    source, and ends with them. *)
Definition nl : string := String "010" "".

Definition sql_brand_top3 : Sql :=
  [ nl +:+ "          SELECT * FROM phones " +:+
    nl +:+ "          WHERE LOWER(company_name) LIKE LOWER(?)" +:+
    nl +:+ "          ORDER BY user_rating DESC, price_inr ASC" +:+
    nl +:+ "          LIMIT 3" +:+
    nl +:+ "        " ].

Definition sql_model_top1 : Sql :=
  [ nl +:+ "          SELECT * FROM phones " +:+
    nl +:+ "          WHERE LOWER(model_name) LIKE LOWER(?)" +:+
    nl +:+ "          ORDER BY user_rating DESC " +:+
    nl +:+ "          LIMIT 1" +:+
    nl +:+ "        " ].

Definition sql_company_model_top1 : Sql :=
  [ nl +:+ "          SELECT * FROM phones " +:+
    nl +:+ "          WHERE LOWER(company_name) LIKE LOWER(?) " +:+
    nl +:+ "            AND LOWER(model_name) LIKE LOWER(?)" +:+
    nl +:+ "          ORDER BY user_rating DESC " +:+
    nl +:+ "          LIMIT 1" +:+
    nl +:+ "        " ].

(** [`%${term}%`] *)
Definition like (term : string) : SqlValue := SqlText ("%" +:+ term +:+ "%").

(** [lowerModel.match(/^s\d+/)] *)
Definition matches_s_digits (lowerModel : string) : bool :=
  match Js.chars lowerModel with
  | c :: d :: _ => bool_decide (c = "s"%char) && Js.is_digit d
  | _ => false
  end.

Section WithServices.
Context {W : Type} (svc : Services W).

(** [onStatus?.(status)] *)
Definition notify (onStatus : option (string -> Ext W unit)) (status : string)
    : M W unit :=
  match onStatus with
  | Some f => invoke (CallStatus status) (f status)
  | None => ret tt
  end.

Definition generateFallbackMessage (warningMessage : string) (phones : list Phone.t)
    : string :=
  let line (ip : nat * Phone.t) :=
    Js.int_toString (Z.of_nat (ip.1 + 1)) +:+ ". **" +:+ Phone.company_name ip.2 +:+ " "
      +:+ Phone.model_name ip.2 +:+ "** - ‚Çπ"
      +:+ (let t := toLocaleString svc (Phone.price_inr ip.2) in
           if Js.truthy_str (Some t) then t else "N/A") in
  let phoneList := Js.join (String "010" "") (map line (imap pair (take 5 phones))) in
  warningMessage +:+ String "010" (String "010" "") +:+ phoneList
    +:+ String "010" (String "010" "")
    +:+ "*Click on any phone card below for full specifications.*".

Definition getFallbackResults (query : string) : M W (list Phone.t) :=
  let filters := fallbackFilters query in
  phones <- Catalog.getFilteredPhones svc filters ;;
  ret (take 8 (Sort.js_sort byRatingOrZero phones)).

(** The loop of [applyCorrections] over one entity list. *)
Definition correctAll (tokens : list string) (typeFilter : TypeFilter)
    : M W (list string) :=
  for_each tokens []
    (fun correctedTokens token =>
       similar <- VectorClient.findSimilar svc token (Some typeFilter) None (7 # 10) ;;
       match correctToken token similar with
       | Returned t => ret (correctedTokens ++ [t])
       | Threw e => throw e
       end).

Definition applyCorrections (intent : ParsedIntent.t) : M W ParsedIntent.t :=
  let entities := ParsedIntent.entities intent in
  entities1 <-
    (match Entities.company entities with
     | Some companies =>
         correctedCompanies <- correctAll companies TfCompany ;;
         ret (Entities.mk (Some correctedCompanies) (Entities.model entities)
                (Entities.price_range entities) (Entities.features entities))
     | None => ret entities
     end) ;;
  entities2 <-
    (match Entities.model entities with
     | Some models =>
         correctedModels <- correctAll models TfModel ;;
         ret (Entities.mk (Entities.company entities1) (Some correctedModels)
                (Entities.price_range entities1) (Entities.features entities1))
     | None => ret entities1
     end) ;;
  ret (ParsedIntent.mk (ParsedIntent.task intent) entities2
         (ParsedIntent.constraints intent) (ParsedIntent.priority_features intent)
         (ParsedIntent.comparison_type intent)).

(** A loop that runs a statement for each term until one yields rows. *)
Fixpoint firstNonEmpty (sql : Sql) (terms : list string) (results : list Phone.t)
    : M W (list Phone.t) :=
  match terms with
  | [] => ret results
  | term :: terms' =>
      results <- Catalog.queryPhones svc sql [like term] ;;
      if 0 <? List.length results then ret results
      else firstNonEmpty sql terms' results
  end.

Definition processMultiBrand (intent : ParsedIntent.t) : M W (list Phone.t) :=
  let companies := default [] (Entities.company (ParsedIntent.entities intent)) in
  for_each companies []
    (fun phones company =>
       let lowerCompany := Js.toLowerCase company in
       let searchTerms :=
         match List.find
                 (fun entry =>
                    existsb (fun alias => Js.includes lowerCompany alias) entry.2
                    || Js.includes lowerCompany entry.1)
                 brandMappings with
         | Some (brand, aliases) => brand :: aliases
         | None => [lowerCompany]
         end in
       results <- firstNonEmpty sql_brand_top3 searchTerms [] ;;
       ret (foldl (fun phones phone =>
                     if existsb (fun p => (Phone.phone_id p =? Phone.phone_id phone)%Z) phones
                     then phones else phones ++ [phone])
                  phones results)).

Definition processMultiModel (intent : ParsedIntent.t) : M W (list Phone.t) :=
  let models := default [] (Entities.model (ParsedIntent.entities intent)) in
  let companies := default [] (Entities.company (ParsedIntent.entities intent)) in
  for_each (imap pair models) []
    (fun phones im =>
       let '(i, model) := im in
       let company :=
         if Js.truthy_str (companies !! i) then companies !! i
         else if Js.truthy_str (companies !! 0) then companies !! 0
         else inferCompanyFromModel model in
       let lowerModel := Js.toLowerCase model in
       (* [modelAliases[lowerModel] || []], then [for (const alias of aliases)]:
          a member of the prototype is truthy and cannot be iterated; the
          text of the TypeError is the engine's. *)
       results <-
         (match lookupAliases lowerModel with
          | OwnAliases aliases => firstNonEmpty sql_model_top1 aliases []
          | NoAliases => firstNonEmpty sql_model_top1 [] []
          | InheritedMember => throw (JsError "aliases is not iterable")
          end) ;;
       results <-
         (if (List.length results =? 0) && Js.truthy_str company
          then Catalog.queryPhones svc sql_company_model_top1
                 [like (default "" company); like model]
          else ret results) ;;
       results <-
         (if List.length results =? 0
          then Catalog.queryPhones svc sql_model_top1 [like model]
          else ret results) ;;
       results <-
         (if (List.length results =? 0)
             && (bool_decide (company = Some "samsung") || matches_s_digits lowerModel)
          then Catalog.queryPhones svc sql_model_top1 [like ("galaxy " +:+ model)]
          else ret results) ;;
       results <-
         (if (List.length results =? 0) && bool_decide (company = Some "apple")
             && negb (Js.includes lowerModel "iphone")
          then Catalog.queryPhones svc sql_model_top1 [like ("iphone " +:+ model)]
          else ret results) ;;
       ret (phones ++ results)).

(** [a || b] on optional numbers and strings. *)
Definition num_or (a b : option Q) : option Q := if Js.truthy_num a then a else b.
Definition str_or (a b : option string) : option string :=
  if Js.truthy_str a then a else b.

Definition processSingleQuery (intent : ParsedIntent.t) (filters : Filters.t)
    (originalQuery : string) : M W (list Phone.t) :=
  let constraints := ParsedIntent.constraints intent in
  let entities := ParsedIntent.entities intent in
  semantic <-
    try_catch
      (let semanticFilters :=
         VectorClient.mkSemanticFilters
           (num_or (Filters.maxPrice filters) (Constraints.max_price constraints))
           (num_or (Filters.minPrice filters) (Constraints.min_price constraints))
           (num_or (Filters.minRam filters) (Constraints.min_ram constraints))
           (num_or (Filters.minBattery filters) (Constraints.min_battery constraints))
           (str_or (Filters.company filters) (default [] (Entities.company entities) !! 0)) in
       let joined (l : option (list string)) :=
         let j := Js.join " " (default [] l) in
         if Js.truthy_str (Some j) then j else "" in
       let searchQuery :=
         if Js.truthy_str (Some originalQuery) then originalQuery
         else joined (Entities.features entities) +:+ " "
              +:+ joined (Entities.company entities) +:+ " "
              +:+ joined (Entities.model entities) in
       phones <- VectorClient.searchProducts svc (Js.trim searchQuery) semanticFilters 5 ;;
       if 0 <? List.length phones then ret (Some phones) else ret None)
      (fun _ => ret None) ;;
  match semantic with
  | Some phones => ret phones
  | None =>
      generated <-
        try_catch
          (sql <- LLMClient.generateSQL svc intent filters ;;
           phones <- Catalog.queryPhones svc [sql] [] ;;
           if 0 <? List.length phones then ret (Some phones) else ret None)
          (fun _ => ret None) ;;
      match generated with
      | Some phones => ret phones
      | None => Catalog.getFilteredPhones svc filters
      end
  end.

Definition rejectMessage : string :=
  "I'm sorry, but I can only help with questions about mobile phones and related technology. Is there something about phones I can help you with?".

Definition respond (message : string) (phones : option (list Phone.t))
    : ChatResponse.t :=
  ChatResponse.mk message phones None None.

(** The body of the [try] block of [process]. *)
Definition process_try (userQuery : string) (filters : Filters.t)
    (history : list ChatHistoryMessage.t)
    (onStatus : option (string -> Ext W unit)) : M W ChatResponse.t :=
  let previousPhones := getPhonesFromHistory history in
  if isFollowUpQuery userQuery && (0 <? List.length previousPhones) then
    notify onStatus "Understanding your query..." ;;;
    let isBestQuery := isBestPhoneQuery userQuery in
    if isBestQuery && (1 <? List.length previousPhones) then
      let sortedPhones := Sort.js_sort byRating previousPhones in
      match sortedPhones with
      | bestPhone :: _ =>
          summary <- LLMClient.summarize svc userQuery [bestPhone] history ;;
          ret (respond summary (Some [bestPhone]))
      | [] =>
          throw (JsError "Cannot read properties of undefined (reading 'company_name')")
      end
    else
      summary <- LLMClient.summarize svc userQuery previousPhones history ;;
      ret (respond summary (Some (take 5 previousPhones)))
  else
    notify onStatus "Understanding your query..." ;;;
    intent <- LLMClient.parseIntent svc userQuery history ;;
    match ParsedIntent.task intent with
    | TaskReject =>
        if 0 <? List.length previousPhones then
          summary <- LLMClient.summarize svc userQuery previousPhones history ;;
          ret (respond summary (Some (take 5 previousPhones)))
        else ret (respond rejectMessage None)
    | TaskGeneralQa =>
        notify onStatus "Thinking..." ;;;
        answer <- LLMClient.answerGeneral svc userQuery history ;;
        ret (respond answer None)
    | TaskQuery =>
        notify onStatus "Searching phones..." ;;;
        correctedIntent <- applyCorrections intent ;;
        let mergedFilters := mergeFilters filters correctedIntent in
        let entities := ParsedIntent.entities correctedIntent in
        let multi := bool_decide (ParsedIntent.comparison_type correctedIntent = Some CmpMulti) in
        phones <-
          (if multi && (0 <? List.length (default [] (Entities.model entities)))
           then processMultiModel correctedIntent
           else if multi && (0 <? List.length (default [] (Entities.company entities)))
                   && (2 <=? List.length (default [] (Entities.company entities)))
           then processMultiBrand correctedIntent
           else if isFollowUpQuery userQuery && (0 <? List.length previousPhones)
           then ret previousPhones
           else processSingleQuery correctedIntent mergedFilters userQuery) ;;
        notify onStatus "Preparing response..." ;;;
        summary <- LLMClient.summarize svc userQuery phones history ;;
        ret (respond summary (Some (take 5 phones)))
    end.

(** The keyword fallback inside the [catch] block: [Some] the response
    when it found phones. *)
Definition process_fallback (userQuery : string) (errorDetails : ErrorDetails)
    (onStatus : option (string -> Ext W unit)) : M W (option ChatResponse.t) :=
  try_catch
    (notify onStatus "Searching database..." ;;;
     fallbackPhones <- getFallbackResults userQuery ;;
     if 0 <? List.length fallbackPhones then
       ret (Some (ChatResponse.mk
                    (generateFallbackMessage (userMessage errorDetails) fallbackPhones)
                    (Some (take 5 fallbackPhones)) None
                    (Some (userMessage errorDetails))))
     else ret None)
    (fun _ => ret None).

Definition process_catch (userQuery : string)
    (onStatus : option (string -> Ext W unit)) (error : exn) : M W ChatResponse.t :=
  let errorMessage :=
    match error with
    | JsError message => message
    | JsThrown => "Unknown error"
    end in
  let errorDetails := classifyError errorMessage in
  recovered <- process_fallback userQuery errorDetails onStatus ;;
  match recovered with
  | Some response => ret response
  | None =>
      ret (ChatResponse.mk (userMessage errorDetails) None
             (Some (technicalMessage errorDetails)) None)
  end.

Definition process (userQuery : string) (filters : Filters.t)
    (history : list ChatHistoryMessage.t)
    (onStatus : option (string -> Ext W unit)) : M W ChatResponse.t :=
  try_catch (process_try userQuery filters history onStatus)
            (process_catch userQuery onStatus).

End WithServices.
End QueryProcessor.

(* ================================================================== *)
(** * Loading the catalog from CSV (database.ts) *)
(* ================================================================== *)

Module Csv.

Definition quote : ascii := "034"%char.
Definition comma : ascii := ","%char.

(** The locals of [parseCSVLine]: [result], [current] and [inQuotes]. *)
Record state : Type := mkState {
  result : list string;
  current : string;
  inQuotes : bool
}.

(** One turn of the loop over the characters of the line. *)
Definition step (st : state) (char : ascii) : state :=
  if bool_decide (char = quote) then
    mkState (result st) (current st) (negb (inQuotes st))
  else if bool_decide (char = comma) && negb (inQuotes st) then
    mkState (result st ++ [current st]) "" (inQuotes st)
  else
    mkState (result st) (current st +:+ String char "") (inQuotes st).

Definition parseCSVLine (line : string) : list string :=
  let st := foldl step (mkState [] "" false) (Js.chars line) in
  result st ++ [current st].

End Csv.

(* ================================================================== *)
(** * Retrying a failing call (utils/error-handler.ts) *)
(* ================================================================== *)

Module APIErrorHandler.

Inductive ErrorType : Type :=
  | rate_limit | network | timeout | auth | invalid_response | unknown.

Record ClassifiedError : Type := mkClassified {
  type : ErrorType;
  message : string;
  retryable : bool;
  retryDelayMs : Q
}.

Definition classifyError (error : exn) : ClassifiedError :=
  let fallthrough := mkClassified unknown "An unknown error occurred." false 0 in
  match error with
  | JsError errorMessage =>
      let message := Js.toLowerCase errorMessage in
      let has := Js.includes message in
      if has "429" || has "rate limit" || has "quota" then
        mkClassified rate_limit "Rate limit exceeded. Retrying..." true 2000
      else if has "network" || has "fetch" || has "econnrefused" then
        mkClassified network "Network error. Retrying..." true 1000
      else if has "timeout" || has "timed out" then
        mkClassified timeout "Request timed out. Retrying..." true 1500
      else if has "401" || has "403" || has "unauthorized" || has "forbidden" then
        mkClassified auth "Authentication error. Check API keys." false 0
      else if has "invalid" || has "malformed" || has "parse" then
        mkClassified invalid_response "Invalid response received." true 500
      else fallthrough
  | JsThrown => fallthrough
  end.

(** What a run of [handleWithRetry] does, in order. *)
Inductive Event : Type :=
  | Called
  | Notified (attempt : nat) (classified : ClassifiedError)
  | Slept (ms : Q).

Section Retry.
Context {W A : Type}.

(** [fn] is the call to retry, [onRetry] the optional callback, [sleep]
    what the world looks like after waiting, and [describe] the text of
    [String(error)] for a thrown value that is no [Error]. *)
Context (fn : Ext W A) (maxRetries : Q)
        (onRetry : option (nat -> ClassifiedError -> Ext W unit))
        (sleep : Q -> W -> W) (describe : string).

(** The [for] loop, [remaining] turns from [attempt] on. *)
Fixpoint retry_loop (remaining attempt : nat) (lastError : option exn)
    (w : W) (log : list Event) : outcome A * W * list Event :=
  match remaining with
  | 0 => (Threw (default (JsError "Max retries exceeded") lastError), w, log)
  | S remaining' =>
      let '(r, w) := fn w in
      let log := log ++ [Called] in
      match r with
      | Returned a => (Returned a, w, log)
      | Threw error =>
          let lastError :=
            match error with
            | JsError _ => error
            | JsThrown => JsError describe
            end in
          let classified := classifyError error in
          if negb (retryable classified)
             || Qeq_bool (inject_Z (Z.of_nat attempt)) maxRetries
          then (Threw lastError, w, log)
          else
            let '(notified, w, log) :=
              match onRetry with
              | Some callback =>
                  let '(r, w) := callback attempt classified w in
                  (r, w, log ++ [Notified attempt classified])
              | None => (Returned tt, w, log)
              end in
            match notified with
            | Threw e => (Threw e, w, log)
            | Returned _ =>
                let delay := (retryDelayMs classified * inject_Z (2 ^ Z.of_nat (attempt - 1)))%Q in
                retry_loop remaining' (S attempt) (Some lastError)
                           (sleep delay w) (log ++ [Slept delay])
            end
      end
  end.

(** [attempt] runs from 1 while [attempt <= maxRetries]. *)
Definition handleWithRetry (w : W) : outcome A * W * list Event :=
  retry_loop (Z.to_nat (Qfloor maxRetries)) 1 None w [].

End Retry.
End APIErrorHandler.

(* ================================================================== *)
(** * The chat endpoint (app/api/chat/route.ts) *)
(* ================================================================== *)

Module ChatRoute.

(** The [query] property of the request body: a string, or anything
    else (missing included). *)
Inductive QueryField : Type :=
  | QueryNotString
  | QueryString (s : string).

(** The body after destructuring, [filters] and [history] before their
    defaults are applied. *)
Record Body : Type := mkBody {
  query : QueryField;
  filters : option Filters.t;
  history : option (list ChatHistoryMessage.t)
}.

Inductive Payload : Type :=
  | ErrorPayload (error : string)
  | ChatPayload (response : ChatResponse.t)
  | FailurePayload (message error : string).

(** [NextResponse.json(payload, { status })] *)
Record Response : Type := mkResponse {
  payload : Payload;
  status : nat
}.

Section WithServices.
Context {W : Type} (svc : Services W).

(** [getQueryProcessor()]: building the processor throws when the key of
    the generation service is not configured. *)
Definition getQueryProcessor (configured : bool) : M W unit :=
  if configured then ret tt
  else throw (JsError "OPENAI_API_KEY environment variable is not set").

(** [POST]: [request_json] is the outcome of reading the body and
    destructuring it. *)
Definition POST (request_json : outcome Body) (configured : bool) : M W Response :=
  try_catch
    (body <- (fun s => (request_json, s)) ;;
     let filters := default Filters.empty (filters body) in
     let history := default [] (history body) in
     match query body with
     | QueryString query =>
         if bool_decide (query = "") then ret (mkResponse (ErrorPayload "Query is required") 400)
         else
           let trimmedQuery := Js.trim query in
           if Js.length trimmedQuery =? 0 then
             ret (mkResponse (ErrorPayload "Query cannot be empty") 400)
           else if 500 <? Js.length trimmedQuery then
             ret (mkResponse
                    (ErrorPayload "Query too long. Please keep it under 500 characters.") 400)
           else
             getQueryProcessor configured ;;;
             response <- QueryProcessor.process svc trimmedQuery filters history None ;;
             ret (mkResponse (ChatPayload response) 200)
     | _ => ret (mkResponse (ErrorPayload "Query is required") 400)
     end)
    (fun error =>
       ret (mkResponse
              (FailurePayload "An error occurred while processing your request."
                 match error with
                 | JsError message => message
                 | JsThrown => "Unknown error"
                 end)
              500)).

End WithServices.
End ChatRoute.

(* ================================================================== *)
(** * The catalog listing endpoint (app/api/phones/route.ts) *)
(* ================================================================== *)

Module PhonesRoute.

(** ** [parseInt] without a radix

    Leading white space, an optional sign, an optional [0x] prefix, then
    the longest run of digits; [None] is [NaN]. *)
Definition dec_value (c : ascii) : option nat :=
  if Js.is_digit c then Some (Js.digit_value c) else None.

Definition hex_value (c : ascii) : option nat :=
  let n := nat_of_ascii c in
  if (48 <=? n) && (n <=? 57) then Some (n - 48)
  else if (97 <=? n) && (n <=? 102) then Some (n - 87)
  else if (65 <=? n) && (n <=? 70) then Some (n - 55)
  else None.

Fixpoint digits (value : ascii -> option nat) (radix : Z) (s : list ascii)
    (acc : option Z) : option Z :=
  match s with
  | c :: s' =>
      match value c with
      | Some d => digits value radix s' (Some (radix * default 0 acc + Z.of_nat d))
      | None => acc
      end
  | [] => acc
  end%Z.

Definition parseInt (s : string) : option Z :=
  let input := Js.trim_start (Js.chars s) in
  let '(sign, input) :=
    match input with
    | c :: rest =>
        if bool_decide (c = "-"%char) then ((-1)%Z, rest)
        else if bool_decide (c = "+"%char) then (1%Z, rest)
        else (1%Z, input)
    | [] => (1%Z, input)
    end in
  let '(value, radix, input) :=
    match input with
    | z :: x :: rest =>
        if bool_decide (z = "0"%char)
           && (bool_decide (x = "x"%char) || bool_decide (x = "X"%char))
        then (hex_value, 16%Z, rest)
        else (dec_value, 10%Z, input)
    | _ => (dec_value, 10%Z, input)
    end in
  fmap (Z.mul sign) (digits value radix input None).

(** ** [Array.prototype.slice(start, end)]

    An index that is [NaN] counts as 0, a negative one counts from the
    end. *)
Definition slice {A} (start finish : option Z) (l : list A) : list A :=
  let len := Z.of_nat (List.length l) in
  let relative (i : option Z) :=
    match i with
    | Some i => if (i <? 0)%Z then Z.max (len + i) 0 else Z.min i len
    | None => 0%Z
    end in
  let k := relative start in
  let final := relative finish in
  take (Z.to_nat (final - k)) (drop (Z.to_nat k) l).

(** The query parameters, as [searchParams.get] returns them. *)
Record Params : Type := mkParams {
  param_sortBy : option string;
  param_order : option string;
  param_limit : option string;
  param_page : option string;
  param_search : option string
}.

(** [value || fallback] on what [get] returns. *)
Definition or_else (value : option string) (fallback : string) : string :=
  if Js.truthy_str value then default fallback value else fallback.

(** The column a [sortBy] value selects. *)
Definition sortColumn (sortBy : string) : Phone.t -> Q :=
  if bool_decide (sortBy = "price") then Phone.price_inr
  else if bool_decide (sortBy = "rating") then Phone.user_rating
  else if bool_decide (sortBy = "battery") then Phone.battery_mah
  else if bool_decide (sortBy = "camera") then Phone.back_camera_mp
  else if bool_decide (sortBy = "ram") then Phone.ram_gb
  else if bool_decide (sortBy = "storage") then Phone.memory_gb
  else Phone.user_rating.

Definition comparator (sortBy order : string) (a b : Phone.t) : Q :=
  let aVal := sortColumn sortBy a in
  let bVal := sortColumn sortBy b in
  if bool_decide (order = "asc") then (aVal - bVal)%Q else (bVal - aVal)%Q.

(** The phones that match the search term, sorted. *)
Definition listed (sortBy order search : string) (phones : list Phone.t) : list Phone.t :=
  let phones :=
    if Js.truthy_str (Some search) then
      let searchLower := Js.toLowerCase search in
      List.filter (fun p => Js.includes (Js.toLowerCase (Phone.model_name p)) searchLower
                            || Js.includes (Js.toLowerCase (Phone.company_name p)) searchLower)
                  phones
    else phones in
  Sort.js_sort (comparator sortBy order) phones.

(** [phones.slice(offset, offset + limit)] with [offset = (page - 1) * limit]. *)
Definition paginated (limit page : option Z) (phones : list Phone.t) : list Phone.t :=
  let offset := (p ← page; l ← limit; Some ((p - 1) * l))%Z in
  slice offset (o ← offset; l ← limit; Some (o + l)%Z) phones.

(** [Math.ceil(total / limit)] as it is serialised: [None] (JSON [null])
    when it is no finite number. *)
Definition totalPages (limit : option Z) (total : nat) : option Z :=
  match limit with
  | Some l =>
      if (l =? 0)%Z then None
      else Some (Qceiling (inject_Z (Z.of_nat total) / inject_Z l))
  | None => None
  end.

(** The JSON body of a successful answer; numbers that are [NaN] are
    serialised as [null]. *)
Record Listing : Type := mkListing {
  phones : list Phone.t;
  total : nat;
  page : option Z;
  limit : option Z;
  pages : option Z
}.

Inductive Response : Type :=
  | Listed (body : Listing)
  | Failed (error : string) (status : nat).

(** [GET]: [allPhones] is the outcome of [getAllPhones()]. *)
Definition GET (params : Params) (allPhones : outcome (list Phone.t)) : Response :=
  match allPhones with
  | Returned phones =>
      let sortBy := or_else (param_sortBy params) "rating" in
      let order := or_else (param_order params) "desc" in
      let limit := parseInt (or_else (param_limit params) "20") in
      let page := parseInt (or_else (param_page params) "1") in
      let search := or_else (param_search params) "" in
      let phones := listed sortBy order search phones in
      Listed (mkListing (paginated limit page phones) (List.length phones) page limit
                        (totalPages limit (List.length phones)))
  | Threw _ => Failed "Failed to fetch phones" 500
  end.

End PhonesRoute.

(* ================================================================== *)
(** * The compare tray of the page (page.tsx) *)
(* ================================================================== *)

Module ComparePage.

Record ToastMessage : Type := mkToast {
  toast_id : Z;
  toast_message : string;
  phoneName : string
}.

Definition toastFor (now : Z) (message : string) (phone : Phone.t) : ToastMessage :=
  mkToast now message (Phone.company_name phone +:+ " " +:+ Phone.model_name phone).

(** The updater [handleAddToCompare] passes to [setComparePhones]: the next
    list, and the toast it sets on the way; [now] is [Date.now()]. *)
Definition handleAddToCompare (now : Z) (phone : Phone.t) (prev : list Phone.t)
    : list Phone.t * ToastMessage :=
  if existsb (fun p => (Phone.phone_id p =? Phone.phone_id phone)%Z) prev then
    (prev, toastFor now "already in Compare tab" phone)
  else if 4 <=? List.length prev then
    (drop 1 prev ++ [phone], toastFor now "added to Compare tab (replaced oldest)" phone)
  else
    (prev ++ [phone], toastFor now "added to Compare tab" phone).

Definition handleRemoveFromCompare (phoneId : Z) (prev : list Phone.t) : list Phone.t :=
  List.filter (fun p => negb (Phone.phone_id p =? phoneId)%Z) prev.

(** What the user does to the tray. *)
Inductive Action : Type :=
  | AddToCompare (now : Z) (phone : Phone.t)
  | RemoveFromCompare (phoneId : Z).

Definition act (comparePhones : list Phone.t) (a : Action) : list Phone.t :=
  match a with
  | AddToCompare now phone => (handleAddToCompare now phone comparePhones).1
  | RemoveFromCompare phoneId => handleRemoveFromCompare phoneId comparePhones
  end.

End ComparePage.

(* ================================================================== *)
(** * Sample data and fake services for concrete runs *)
(* ================================================================== *)

Module Fixtures.

Definition phone (id : Z) (company model : string) (rating price : Q) : Phone.t :=
  Phone.mk id company model "" 2024 rating "" 0 0 0 0 0 128 180 8 16 50 5000 price (13 # 2).

Definition iphone15 : Phone.t := phone 1 "apple" "iphone 15" (45 # 10) 70000.
Definition galaxyS24 : Phone.t := phone 2 "samsung" "galaxy s24" (46 # 10) 65000.
Definition galaxyM14 : Phone.t := phone 3 "Samsung" "galaxy m14" 4 12000.
Definition redmi13 : Phone.t := phone 4 "xiaomi" "redmi 13" (41 # 10) 9000.

Definition catalog : list Phone.t := [iphone15; galaxyS24; galaxyM14; redmi13].

(** Services over a world without state: the chat model answers by
    [chat], the index is reachable when [key] is set and answers every
    query with [matches], the SQL engine runs on [table]. *)
Definition services (chat : ChatRequest -> outcome (option string))
    (key : bool) (matches : list ScoredMatch.t) (table : list Phone.t)
    (parse : string -> option ParsedIntent.t) : Services unit :=
  mkServices
    (fun req w => (chat req, w))
    (fun _ w => (Returned (Some [1%Q]), w))
    (fun w => (Returned ["mobiadvisor"], w))
    (fun w => (Returned tt, w))
    (fun w => (Returned true, w))
    (fun _ _ _ w => (Returned matches, w))
    (fun w => (Returned tt, w))
    (fun sql params w =>
       (match Database.execute table sql params with
        | Some rows => Returned rows
        | None => Threw (JsError "SQLITE_ERROR")
        end, w))
    (fun w => (Returned (map Phone.company_name table), w))
    (fun id w => (Returned (List.find (fun p => (Phone.phone_id p =? id)%Z) table), w))
    (fun _ w => (Returned [], w))
    key "mobiadvisor" parse
    (fun q => Js.int_toString (Qfloor q)).

Definition chat_ok (reply : string) : ChatRequest -> outcome (option string) :=
  fun _ => Returned (Some reply).

Definition chat_down : ChatRequest -> outcome (option string) :=
  fun _ => Threw (JsError "429 rate limit").

Definition no_parse : string -> option ParsedIntent.t := fun _ => None.

Definition start : St unit := mkSt tt [] false.

Definition assistant_turn (phones : list Phone.t) : ChatHistoryMessage.t :=
  ChatHistoryMessage.mk RoleAssistant "Here are some phones." (Some phones).

Definition user_turn (text : string) : ChatHistoryMessage.t :=
  ChatHistoryMessage.mk RoleUser text None.

End Fixtures.

(* ================================================================== *)
(** * Vocabulary of the statements *)
(* ================================================================== *)

(** ** The keyword fallback in the words of the specification *)

(** The price range built from the figure, if any, and the direction words
    of the message; without a direction word the window of 10,000 around
    the figure, cut off at 0. *)
Definition price_bounds_of (query : string) (figure : option Q) (f : Filters.t) : Prop :=
  let lower := Js.toLowerCase query in
  match figure with
  | None => Filters.minPrice f = None /\ Filters.maxPrice f = None
  | Some v =>
      if Js.includes lower "under" || Js.includes lower "below" then
        Filters.minPrice f = None /\ Filters.maxPrice f = Some v
      else if Js.includes lower "above" || Js.includes lower "over" then
        Filters.minPrice f = Some v /\ Filters.maxPrice f = None
      else
        Filters.minPrice f = Some (Qmax 0 (v - 10000))
        /\ Filters.maxPrice f = Some (v + 10000)%Q
  end.

(** Four digits in a row, somewhere in the text. *)
Fixpoint four_digits (s : list ascii) : bool :=
  match s with
  | [] => false
  | _ :: s' =>
      ((List.length (take 4 s) =? 4) && forallb Js.is_digit (take 4 s)) || four_digits s'
  end.

(** A message that writes its price figure the way both the pattern of
    the code and the pattern of the specification read it: no comma, and
    no four digits in a row. *)
Definition plain_figures (query : string) : Prop :=
  (PricePattern.comma ∉ Js.chars query) /\ four_digits (Js.chars query) = false.

(** [m] asks the catalog for the phones within [filters], puts the rows
    in the order of [getFallbackResults] and returns the first eight. *)
Definition queries_catalog_with {W} (svc : Services W) (filters : Filters.t)
    (m : M W (list Phone.t)) : Prop :=
  forall s,
    m s = (phones <- Catalog.getFilteredPhones svc filters ;;
           ret (take 8 (Sort.js_sort QueryProcessor.byRatingOrZero phones))) s.

(** Filters that bound nothing but the price and the company. *)
Definition only_price_and_company (f : Filters.t) : Prop :=
  f = Filters.mk (Filters.company f) (Filters.minPrice f) (Filters.maxPrice f)
                 None None None None None None None None.

(** A brand is mentioned when it is one of the words of the message, as
    it is or in the plural. *)
Definition mentions (keywords : list string) (brand : string) : bool :=
  QueryProcessor.has_keyword keywords brand
  || QueryProcessor.has_keyword keywords (brand +:+ "s").

(** The company is that of the first brand of [bs] that is mentioned,
    "iphone" standing for "apple". *)
Definition brand_of (keywords bs : list string) (company : option string) : Prop :=
  match company with
  | Some b =>
      exists skipped brand rest,
        bs = skipped ++ brand :: rest
        /\ Forall (fun x => mentions keywords x = false) skipped
        /\ mentions keywords brand = true
        /\ b = (if bool_decide (brand = "iphone") then "apple" else brand)
  | None => Forall (fun x => mentions keywords x = false) bs
  end.

(** Ratings never increase along the list. *)
Definition rating_descending (phones : list Phone.t) : Prop :=
  StronglySorted (fun a b => (Phone.user_rating b <= Phone.user_rating a)%Q) phones.

(** The pair the specification deduplicates by. *)
Definition brandModel (p : Phone.t) : string * string :=
  (Phone.company_name p, Phone.model_name p).

(** The first occurrences in a list of phones: a phone is kept when no
    phone before it has its key (the brand, a dash, the model). *)
Fixpoint first_occurrences (phones : list Phone.t) : list Phone.t :=
  match phones with
  | [] => []
  | p :: rest =>
      p :: filter (fun q => LLMClient.uniqueKey q <> LLMClient.uniqueKey p)
                  (first_occurrences rest)
  end.

(** What [summarize] sends to the chat model for the phones it lists:
    nothing when there is none to list, else one request, whose prompt
    carries the query and the listed phones. *)
Definition summary_requests (query : string) (listed : list Phone.t)
    (history : list ChatHistoryMessage.t) : list Call :=
  match listed with
  | [] => []
  | _ :: _ =>
      [CallChat (mkChatRequest (SUMMARY_PROMPT query listed)
                               (LLMClient.contextHistory history) true)]
  end.

(** ** Runs of the engine *)

(** Every normal return of [m] satisfies [P]. *)
Definition returns_only {W A} (P : A -> Prop) (m : M W A) : Prop :=
  forall s a s', m s = (Returned a, s') -> P a.

(** [m] cannot throw. *)
Definition total {W A} (m : M W A) : Prop :=
  forall s, exists a s', m s = (Returned a, s').

(** The calls a run added are none of the retrieval calls. *)
Definition no_retrieval_between {W} (s s' : St W) : Prop :=
  exists new, calls s' = calls s ++ new /\ existsb is_retrieval new = false.

(** ** Responses and history *)

(** The phones of a response are at most five, whatever path built it. *)
Definition at_most_five (r : ChatResponse.t) : Prop :=
  forall l, ChatResponse.phones r = Some l -> List.length l <= 5.


(** ** Merged filters *)

(** What [mergeFilters] does with one numeric bound.  [pick] is [Qmax] for
    a lower bound and [Qmin] for an upper bound; a bound that is absent or
    zero counts as not given. *)
Definition merged_bound (pick : Q -> Q -> Q) (constraint caller merged : option Q) : Prop :=
  match constraint, caller with
  | Some c, Some m =>
      if Qeq_bool c 0 then merged = caller
      else if Qeq_bool m 0 then merged = constraint
      else exists v, merged = Some v /\ (v == pick c m)%Q
  | Some c, None => if Qeq_bool c 0 then merged = None else merged = constraint
  | None, _ => merged = caller
  end.

(** A bound of the caller that is present and not zero is never widened:
    [tight m v] says the merged value [v] is at least as tight as [m]. *)
Definition never_widened (tight : Q -> Q -> Prop) (caller merged : option Q) : Prop :=
  forall m, caller = Some m -> ~ (m == 0)%Q ->
    exists v, merged = Some v /\ tight m v.

(** The intent of a query that only names price bounds. *)
Definition priceIntent (min_price max_price : option Q) : ParsedIntent.t :=
  ParsedIntent.mk TaskQuery Entities.empty
    (Constraints.mk min_price max_price None None None None None None None None)
    None (Some CmpSingle).

(** The filters of a caller that only bounds the price. *)
Definition priceFilters (minPrice maxPrice : option Q) : Filters.t :=
  Filters.mk None minPrice maxPrice None None None None None None None None.

(** An intent that names the given brands and nothing else. *)
Definition brandIntent (companies : list string) : ParsedIntent.t :=
  ParsedIntent.mk TaskQuery (Entities.mk (Some companies) None None None)
    Constraints.empty None (Some CmpSingle).

(** ** Generated statements *)

(** The row cap a statement declares, in the words of the specification:
    the number that follows the first [LIMIT] keyword, in any letter
    case. *)
Fixpoint limitClause_scan (s : list ascii) : option nat :=
  match s with
  | [] => None
  | _ :: s' =>
      if Js.prefix_of (Js.chars "LIMIT") (map Js.upper_char s) then
        match PricePattern.take_digits (List.length s) (Js.trim_start (drop 5 s)) with
        | [] => limitClause_scan s'
        | ds => Some (Js.parseInt ds)
        end
      else limitClause_scan s'
  end.

Definition limitClause (sql : string) : option nat := limitClause_scan (Js.chars sql).

(** ** The filtered catalog query *)

(** A phone satisfies every bound the filters supply. *)
Definition within (f : Filters.t) (p : Phone.t) : Prop :=
  (forall v, Filters.minPrice f = Some v -> (v <= Phone.price_inr p)%Q)
  /\ (forall v, Filters.maxPrice f = Some v -> (Phone.price_inr p <= v)%Q)
  /\ (forall v, Filters.minRam f = Some v -> (v <= Phone.ram_gb p)%Q)
  /\ (forall v, Filters.maxRam f = Some v -> (Phone.ram_gb p <= v)%Q)
  /\ (forall v, Filters.minBattery f = Some v -> (v <= Phone.battery_mah p)%Q)
  /\ (forall v, Filters.maxBattery f = Some v -> (Phone.battery_mah p <= v)%Q)
  /\ (forall v, Filters.minCamera f = Some v -> (v <= Phone.back_camera_mp p)%Q)
  /\ (forall v, Filters.maxCamera f = Some v -> (Phone.back_camera_mp p <= v)%Q)
  /\ (forall v, Filters.minStorage f = Some v -> (v <= Phone.memory_gb p)%Q)
  /\ (forall v, Filters.maxStorage f = Some v -> (Phone.memory_gb p <= v)%Q)
  /\ (forall c, Filters.company f = Some c -> c <> "" ->
        Js.toLowerCase (Phone.company_name p) = Js.toLowerCase c).

(** Rating descending, then price ascending. *)
Definition rating_then_price (a b : Phone.t) : Prop :=
  (Phone.user_rating b < Phone.user_rating a)%Q
  \/ ((Phone.user_rating a == Phone.user_rating b)%Q
      /\ (Phone.price_inr a <= Phone.price_inr b)%Q).

(** An optional clause of the statement with its parameter. *)
Definition opt_num (x : option Q) (frag : string) : list (string * SqlValue) :=
  match x with
  | Some v => [(frag, SqlNum v)]
  | None => []
  end.

Definition opt_text (c : option string) (frag : string) : list (string * SqlValue) :=
  match c with
  | Some v => if Js.truthy_str c then [(frag, SqlText v)] else []
  | None => []
  end.

(** The clauses of the statement with their parameters. *)
Definition entries (f : Filters.t) : list (string * SqlValue) :=
  opt_text (Filters.company f) " AND LOWER(company_name) = LOWER(?)"
  ++ opt_num (Filters.minPrice f) " AND price_inr >= ?"
  ++ opt_num (Filters.maxPrice f) " AND price_inr <= ?"
  ++ opt_num (Filters.minCamera f) " AND back_camera_mp >= ?"
  ++ opt_num (Filters.maxCamera f) " AND back_camera_mp <= ?"
  ++ opt_num (Filters.minBattery f) " AND battery_mah >= ?"
  ++ opt_num (Filters.maxBattery f) " AND battery_mah <= ?"
  ++ opt_num (Filters.minRam f) " AND ram_gb >= ?"
  ++ opt_num (Filters.maxRam f) " AND ram_gb <= ?"
  ++ opt_num (Filters.minStorage f) " AND memory_gb >= ?"
  ++ opt_num (Filters.maxStorage f) " AND memory_gb <= ?".

(** ** Edit distance *)

(** An edit script of cost [n] turning [a] into [b]. *)
Inductive edit : list ascii -> list ascii -> nat -> Prop :=
  | edit_nil : edit [] [] 0
  | edit_keep x a b n : edit a b n -> edit (x :: a) (x :: b) n
  | edit_subst x y a b n : edit a b n -> edit (x :: a) (y :: b) (S n)
  | edit_delete x a b n : edit a b n -> edit (x :: a) b (S n)
  | edit_insert y a b n : edit a b n -> edit a (y :: b) (S n).

(** The entry of the table [levenshteinDistance] fills: the distance
    between the first [i] characters of [s1] and the first [j] of [s2]. *)
Definition prefix_distance (s1 s2 : string) (i j : nat) : nat :=
  Similarity.lev (take i (Js.chars s1)) (take j (Js.chars s2)).

(** ** Ranges of the merged filters *)

(** A bound that is given and not zero is met from below / from above. *)
Definition at_least (bound : option Q) (x : Q) : Prop :=
  forall v, bound = Some v -> ~ (v == 0)%Q -> (v <= x)%Q.

Definition at_most (bound : option Q) (x : Q) : Prop :=
  forall v, bound = Some v -> ~ (v == 0)%Q -> (x <= v)%Q.

(** A value lies in the range two optional bounds leave. *)
Definition in_range (lo hi : option Q) (x : Q) : Prop := at_least lo x /\ at_most hi x.

(** ** Candidates of the fallback matcher *)

(** Scores never increase along the list. *)
Definition score_descending (results : list VectorSearchResult.t) : Prop :=
  StronglySorted (fun a b => (VectorSearchResult.score b <= VectorSearchResult.score a)%Q)
                 results.

(** What every result of the fallback matcher looks like: a score above
    one half and at most one, and metadata to read the value from. *)
Definition fuzzy_candidate (r : VectorSearchResult.t) : Prop :=
  (1 # 2 < VectorSearchResult.score r)%Q /\ (VectorSearchResult.score r <= 1)%Q
  /\ is_Some (VectorSearchResult.metadata r).

(** The order [fallbackSimilar] sorts by: [a] stays in front of [b] when
    [b.score - a.score <= 0]. *)
Definition byScore (a b : VectorSearchResult.t) : bool :=
  Qle_bool (VectorSearchResult.score b - VectorSearchResult.score a) 0.

(** ** Names and white space *)

(** A name in lower case. *)
Definition lowercase (name : string) : Prop := Js.toLowerCase name = name.

(** White space only. *)
Definition blank (l : list ascii) : Prop := Forall (fun c => Js.is_space c = true) l.

(** ** Calls that answer, and calls added to the log *)

(** An external call that always answers. *)
Definition never_throws {W A} (f : Ext W A) : Prop :=
  forall w, exists a w', f w = (Returned a, w').

(** The calls a run added to the log. *)
Definition added {W} (s s' : St W) (new : list Call) : Prop := calls s' = calls s ++ new.

(** No model name of the intent is, in lower case, a name every object
    inherits from [Object.prototype]. *)
Definition plain_model_names (intent : ParsedIntent.t) : Prop :=
  Forall (fun model => Js.toLowerCase model ∉ QueryProcessor.prototypeMembers)
         (default [] (Entities.model (ParsedIntent.entities intent))).

(** ** What the engine sends out *)

(** The text of a statement: its fragments, concatenated. *)
Definition statement_text (sql : Sql) : string := foldr String.append "" sql.

(** A statement whose first word is SELECT, in any letter case: the
    white space in front of it aside, its text begins with SELECT. *)
Definition select_statement (sql : Sql) : Prop :=
  Js.startsWith
    (Js.toUpperCase (Js.of_chars (Js.trim_start (Js.chars (statement_text sql)))))
    "SELECT" = true.

(** The phones a summary prompt lists: between one and four, no brand and
    model twice. *)
Definition summary_listing (phones : list Phone.t) : Prop :=
  0 < List.length phones <= 4 /\ NoDup (map brandModel phones).

(** A chat request carries at most four turns of history, and a summary
    prompt a proper listing. *)
Definition bounded_request (req : ChatRequest) : Prop :=
  List.length (req_history req) <= 4
  /\ match req_prompt req with
     | SUMMARY_PROMPT _ phones => summary_listing phones
     | _ => True
     end.

(** The calls that reach the vector index or the embedding model. *)
Definition is_index_call (c : Call) : bool :=
  match c with
  | CallEmbed _ | CallListIndexes | CallCreateIndex | CallDescribeIndex
  | CallIndexQuery _ _ _ => true
  | _ => false
  end.

(** What the engine may send out: bounded chat requests, SELECT
    statements, and index traffic only when [index_ok]. *)
Definition engine_call (index_ok : Prop) (c : Call) : Prop :=
  match c with
  | CallChat req => bounded_request req
  | CallExecute sql _ => select_statement sql
  | _ => is_index_call c = true -> index_ok
  end.

(** A computation keeps an invariant of the [initialized] flag and only
    makes calls that satisfy [P]. *)
Definition maintains {W A} (Ib : bool -> Prop) (P : Call -> Prop) (m : M W A) : Prop :=
  forall s r s', Ib (initialized s) -> m s = (r, s') ->
    Ib (initialized s') /\ exists new, added s s' new /\ Forall P new.

(** ** Shapes of a response, and more sample data *)

(** The response of the keyword fallback: a warning, no error, between one
    and five phones by descending rating, and a message that opens with
    the warning. *)
Definition degraded_response (r : ChatResponse.t) : Prop :=
  exists w l,
    ChatResponse.warning r = Some w /\ ChatResponse.error r = None
    /\ ChatResponse.phones r = Some l /\ 0 < List.length l <= 5
    /\ rating_descending l
    /\ Js.startsWith (ChatResponse.message r) w = true.

(** Services whose SQL engine answers every statement with [rows], and
    whose other parts are idle. *)
Definition services_answering (rows : list Phone.t) : Services unit :=
  mkServices
    (fun _ w => (Returned None, w))
    (fun _ w => (Returned None, w))
    (fun w => (Returned [], w))
    (fun w => (Returned tt, w))
    (fun w => (Returned true, w))
    (fun _ _ _ w => (Returned [], w))
    (fun w => (Returned tt, w))
    (fun _ _ w => (Returned rows, w))
    (fun w => (Returned [], w))
    (fun _ w => (Returned None, w))
    (fun _ w => (Returned [], w))
    false "mobiadvisor" (fun _ => None)
    (fun q => Js.int_toString (Qfloor q)).

(** The intent of a message the classifier rejects. *)
Definition rejectIntent : ParsedIntent.t :=
  ParsedIntent.mk TaskReject Entities.empty Constraints.empty None None.

(** ** Phrases *)

(** The phrasings of a "best phone" question that are no follow-up
    phrase. *)
Definition bestOnlyPhrases : list string :=
  [ "which phone is best"; "which phone is the best"; "pick one" ].

(** ** Fields of a CSV line *)

(** The fields of a state, the one being read last. *)
Definition csv_fields (st : Csv.state) : list string := Csv.result st ++ [Csv.current st].

(** No field holds a quote. *)
Definition quote_free (st : Csv.state) : Prop :=
  Forall (fun f => Csv.quote ∉ Js.chars f) (csv_fields st).

(** ** Counting what a retry did *)

(** How often a run called [fn], and how often it waited. *)
Definition times_called (log : list APIErrorHandler.Event) : nat :=
  List.length (List.filter (fun e => match e with APIErrorHandler.Called => true | _ => false end)
                           log).

Definition times_slept (log : list APIErrorHandler.Event) : nat :=
  List.length (List.filter (fun e => match e with APIErrorHandler.Slept _ => true | _ => false end)
                           log).

(** ** Queries the chat endpoint accepts *)

(** A query the endpoint accepts: a string whose trimmed form has between
    1 and 500 characters. *)
Definition acceptable_query (q : ChatRoute.QueryField) : option string :=
  match q with
  | ChatRoute.QueryString s =>
      let t := Js.trim s in
      if (0 <? Js.length t) && (Js.length t <=? 500) then Some t else None
  | _ => None
  end.

(** ** The compare tray *)

(** At most four phones, no phone twice. *)
Definition tray_ok (comparePhones : list Phone.t) : Prop :=
  List.length comparePhones <= 4 /\ NoDup (map Phone.phone_id comparePhones).

(* ================================================================== *)
(** * Reasoning about runs *)
(* ================================================================== *)

Section Runs.
Context {W : Type}.

Lemma bind_returned {A B} (m : M W A) (k : A -> M W B) s b s' :
  bind m k s = (Returned b, s') ->
  exists a s1, m s = (Returned a, s1) /\ k a s1 = (Returned b, s').
Proof.
  unfold bind. destruct (m s) as [[a|e] s1]; intros H; [eauto | discriminate].
Qed.

Lemma bind_run {A B} (m : M W A) (k : A -> M W B) s a s1 :
  m s = (Returned a, s1) -> bind m k s = k a s1.
Proof. unfold bind. intros ->. reflexivity. Qed.

Lemma bind_threw {A B} (m : M W A) (k : A -> M W B) s e s1 :
  m s = (Threw e, s1) -> bind m k s = (Threw e, s1).
Proof. unfold bind. intros ->. reflexivity. Qed.

Lemma returns_only_ret {A} (P : A -> Prop) a : P a -> returns_only (W:=W) P (ret a).
Proof. intros HP s a' s' H. inversion H. subst. exact HP. Qed.

Lemma returns_only_throw {A} (P : A -> Prop) e : returns_only (W:=W) P (throw e).
Proof. intros s a s' H. discriminate H. Qed.

Lemma returns_only_bind {A B} (P : B -> Prop) (m : M W A) (k : A -> M W B) :
  (forall a, returns_only P (k a)) -> returns_only P (bind m k).
Proof.
  intros Hk s b s' H. apply bind_returned in H as (a & s1 & _ & H).
  exact (Hk a s1 b s' H).
Qed.

Lemma returns_only_bind_post {A B} (Q : A -> Prop) (P : B -> Prop)
    (m : M W A) (k : A -> M W B) :
  returns_only Q m -> (forall a, Q a -> returns_only P (k a)) ->
  returns_only P (bind m k).
Proof.
  intros Hm Hk s b s' H. apply bind_returned in H as (a & s1 & E & H).
  exact (Hk a (Hm _ _ _ E) s1 b s' H).
Qed.

Lemma returns_only_try_catch {A} (P : A -> Prop) (m : M W A) h :
  returns_only P m -> (forall e, returns_only P (h e)) ->
  returns_only P (try_catch m h).
Proof.
  intros Hm Hh s a s' H. unfold try_catch in H.
  destruct (m s) as [[a0|e] s1] eqn:E.
  - inversion H. subst. exact (Hm _ _ _ E).
  - exact (Hh e _ _ _ H).
Qed.

Lemma total_ret {A} (a : A) : total (W:=W) (ret a).
Proof. intros s. exists a, s. reflexivity. Qed.

Lemma total_bind {A B} (m : M W A) (k : A -> M W B) :
  total m -> (forall a, total (k a)) -> total (bind m k).
Proof.
  intros Hm Hk s. destruct (Hm s) as (a & s1 & E).
  destruct (Hk a s1) as (b & s2 & E2). exists b, s2.
  rewrite (bind_run _ _ _ _ _ E). exact E2.
Qed.

Lemma total_try_catch {A} (m : M W A) h :
  (forall e, total (h e)) -> total (try_catch m h).
Proof.
  intros Hh s. unfold try_catch. destruct (m s) as [[a|e] s1].
  - exists a, s1. reflexivity.
  - apply Hh.
Qed.

End Runs.

Ltac returns_only_step :=
  first
    [ apply returns_only_ret
    | apply returns_only_throw
    | apply returns_only_bind; intros ?
    | apply returns_only_try_catch; [ | intros ? ]
    | match goal with
      | |- returns_only _ (if ?b then _ else _) => destruct b
      | |- returns_only _ (match ?x with _ => _ end) => destruct x
      end ].

(* ================================================================== *)
(** * Properties of the query processor *)
(* ================================================================== *)

Section ProcessProperties.
Context {W : Type} (svc : Services W).

Import QueryProcessor.

(** A response built inside the [try] block never carries an error. *)
Lemma process_try_no_error q f h onStatus :
  returns_only (fun r => ChatResponse.error r = None) (process_try svc q f h onStatus).
Proof.
  unfold process_try, respond. repeat returns_only_step; reflexivity.
Qed.

Lemma process_fallback_total q d onStatus : total (process_fallback svc q d onStatus).
Proof. apply total_try_catch. intros e. apply total_ret. Qed.

Lemma process_catch_total q onStatus e : total (process_catch svc q onStatus e).
Proof.
  apply total_bind; [apply process_fallback_total|].
  intros [r|]; apply total_ret.
Qed.

Lemma process_total q f h onStatus : total (process svc q f h onStatus).
Proof. apply total_try_catch. intros e. apply process_catch_total. Qed.

Lemma at_most_five_take {A} (l : list A) : List.length (take 5 l) <= 5.
Proof. rewrite length_take. lia. Qed.

Lemma process_try_at_most_five q f h onStatus :
  returns_only at_most_five (process_try svc q f h onStatus).
Proof.
  unfold process_try, respond, at_most_five.
  repeat returns_only_step; cbn; intros l' E; inversion E; subst;
    solve [apply at_most_five_take | cbn; lia].
Qed.

Lemma process_fallback_at_most_five q d onStatus :
  returns_only (fun o => forall r, o = Some r -> at_most_five r)
               (process_fallback svc q d onStatus).
Proof.
  unfold process_fallback, at_most_five.
  repeat returns_only_step; intros r E; inversion E; subst; cbn;
    intros l' E'; inversion E'; subst; apply at_most_five_take.
Qed.

Lemma process_catch_at_most_five q onStatus e :
  returns_only at_most_five (process_catch svc q onStatus e).
Proof.
  unfold process_catch.
  eapply returns_only_bind_post; [apply process_fallback_at_most_five|].
  intros [r|] Hr; apply returns_only_ret.
  - apply Hr. reflexivity.
  - intros l E. discriminate E.
Qed.

Lemma process_at_most_five q f h onStatus :
  returns_only at_most_five (process svc q f h onStatus).
Proof.
  apply returns_only_try_catch.
  - apply process_try_at_most_five.
  - intros e. apply process_catch_at_most_five.
Qed.

End ProcessProperties.

(* ================================================================== *)
(** * Deduplication in the summary ([getUniquePhones]) *)
(* ================================================================== *)

Section UniquePhones.
Import LLMClient.

Lemma getUniquePhones_loop_spec phones : forall seen unique limit,
  (forall k, k ∈ seen <-> k ∈ map uniqueKey unique) ->
  NoDup (map uniqueKey unique) ->
  List.length unique < limit ->
  let result := getUniquePhones_loop phones seen unique limit in
  NoDup (map uniqueKey result) /\ List.length result <= limit.
Proof.
  induction phones as [|phone rest IH]; intros seen unique limit Hseen Hnd Hlen; cbn.
  - split; [exact Hnd | lia].
  - destruct (decide (uniqueKey phone ∈ seen)) as [Hin|Hnin].
    + apply IH; assumption.
    + assert (Hnd' : NoDup (map uniqueKey (unique ++ [phone]))).
      { rewrite map_app. cbn. apply NoDup_app. split; [exact Hnd|]. split.
        - intros k Hk Hk'. apply list_elem_of_singleton in Hk'. subst k.
          apply Hnin, Hseen, Hk.
        - apply NoDup_singleton. }
      destruct (limit <=? List.length (unique ++ [phone])) eqn:E.
      * split; [exact Hnd'|]. rewrite length_app in *. cbn in *. lia.
      * apply Nat.leb_gt in E. apply IH; [|exact Hnd'|exact E].
        intros k. rewrite map_app. cbn. rewrite elem_of_union, elem_of_singleton,
          elem_of_app, list_elem_of_singleton, Hseen. tauto.
Qed.

Lemma getUniquePhones_spec phones limit :
  0 < limit ->
  NoDup (map uniqueKey (getUniquePhones phones limit))
  /\ List.length (getUniquePhones phones limit) <= limit.
Proof.
  intros Hl. apply getUniquePhones_loop_spec.
  - intros k. cbn. rewrite elem_of_empty, elem_of_nil. tauto.
  - constructor.
  - cbn. exact Hl.
Qed.

(** The loop keeps the first occurrences that are not in [seen] yet, until
    [unique] holds [limit] phones. *)
Lemma getUniquePhones_loop_first phones : forall seen unique limit,
  List.length unique < limit ->
  getUniquePhones_loop phones seen unique limit
  = unique ++ take (limit - List.length unique)
                   (filter (fun q => uniqueKey q ∉ seen) (first_occurrences phones)).
Proof.
  induction phones as [|phone rest IH]; intros seen unique limit Hlen;
    cbn [getUniquePhones_loop first_occurrences].
  - rewrite filter_nil, take_nil, app_nil_r. reflexivity.
  - destruct (decide (uniqueKey phone ∈ seen)) as [Hin|Hnin].
    + rewrite filter_cons_False by (intros H; exact (H Hin)).
      rewrite list_filter_filter_l; [apply IH, Hlen|].
      intros q Hq Heq. apply Hq. rewrite Heq. exact Hin.
    + rewrite filter_cons_True by exact Hnin.
      destruct (limit <=? List.length (unique ++ [phone])) eqn:E.
      * apply Nat.leb_le in E. rewrite length_app in E. cbn in E.
        replace (limit - List.length unique) with 1 by lia. reflexivity.
      * apply Nat.leb_gt in E. rewrite IH by exact E.
        rewrite length_app in *. cbn [List.length] in *.
        replace (limit - List.length unique) with (S (limit - (List.length unique + 1))) by lia.
        cbn [take]. rewrite <- app_assoc. cbn [app]. do 3 f_equal.
        rewrite list_filter_filter. apply list_filter_iff. intros q.
        rewrite elem_of_union, elem_of_singleton. tauto.
Qed.

(** [getUniquePhones] returns the first occurrences, up to the limit. *)
Lemma getUniquePhones_first phones limit :
  0 < limit -> getUniquePhones phones limit = take limit (first_occurrences phones).
Proof.
  intros Hl. unfold getUniquePhones. rewrite getUniquePhones_loop_first by exact Hl.
  cbn [List.length app]. rewrite Nat.sub_0_r. f_equal.
  induction (first_occurrences phones) as [|q l IHl]; [reflexivity|].
  rewrite filter_cons_True by apply not_elem_of_empty. rewrite IHl. reflexivity.
Qed.

(** Distinct keys are distinct (brand, model) pairs. *)
Lemma NoDup_uniqueKey_brandModel (l : list Phone.t) :
  NoDup (map uniqueKey l) -> NoDup (map brandModel l).
Proof.
  intros H.
  replace (map uniqueKey l)
    with (map (fun bm : string * string => bm.1 +:+ "-" +:+ bm.2) (map brandModel l)) in H.
  - exact (NoDup_fmap_1 _ _ H).
  - rewrite map_map. reflexivity.
Qed.

End UniquePhones.

Section Idempotence.
Import LLMClient.

Lemma getUniquePhones_loop_fresh phones : forall seen unique limit,
  NoDup (map uniqueKey phones) ->
  (forall k, k ∈ seen -> k ∉ map uniqueKey phones) ->
  List.length unique < limit ->
  List.length unique + List.length phones <= limit ->
  getUniquePhones_loop phones seen unique limit = unique ++ phones.
Proof.
  induction phones as [|phone rest IH]; intros seen unique limit Hnd Hseen Hlt Hle; cbn.
  - rewrite app_nil_r. reflexivity.
  - cbn in Hnd, Hle. apply NoDup_cons in Hnd as [Hfresh Hnd].
    rewrite decide_False.
    + destruct (limit <=? List.length (unique ++ [phone])) eqn:E.
      * apply Nat.leb_le in E. rewrite length_app in E. cbn in E.
        destruct rest; [reflexivity | cbn in Hle; lia].
      * apply Nat.leb_gt in E. rewrite IH; [rewrite <- app_assoc; reflexivity|exact Hnd| |exact E|].
        -- intros k Hk. apply elem_of_union in Hk as [Hk|Hk].
           ++ apply elem_of_singleton in Hk. subst k. exact Hfresh.
           ++ intros Hin. apply (Hseen k Hk). right. exact Hin.
        -- rewrite length_app. cbn. lia.
    + intros Hin. apply (Hseen _ Hin). left.
Qed.

End Idempotence.

(** Deduplication is idempotent: applying [getUniquePhones] to its own
    result, with the same positive limit, changes nothing. *)
Theorem getUniquePhones_idempotent (phones : list Phone.t) (limit : nat) :
  0 < limit ->
  LLMClient.getUniquePhones (LLMClient.getUniquePhones phones limit) limit
  = LLMClient.getUniquePhones phones limit.
Proof.
  intros Hl. destruct (getUniquePhones_spec phones limit Hl) as [Hnd Hlen].
  unfold LLMClient.getUniquePhones at 1.
  rewrite getUniquePhones_loop_fresh; [reflexivity | exact Hnd | | exact Hl | cbn; exact Hlen].
  intros k Hk. apply elem_of_empty in Hk. contradiction.
Qed.

Lemma getUniquePhones_idempotent_witness :
  LLMClient.getUniquePhones
    (LLMClient.getUniquePhones [Fixtures.iphone15; Fixtures.iphone15; Fixtures.galaxyS24] 4) 4
  = LLMClient.getUniquePhones [Fixtures.iphone15; Fixtures.iphone15; Fixtures.galaxyS24] 4.
Proof. apply getUniquePhones_idempotent. lia. Defined.

(* ================================================================== *)
(** * C1 and C2: the response of [process] *)
(* ================================================================== *)

(** C1, as stated, fails: a follow-up question about a turn that showed the
    same phone twice gets both copies back; only the phones listed in the
    summary prompt are deduplicated. *)
Lemma process_returns_duplicates :
  exists r s',
    QueryProcessor.process
      (Fixtures.services (Fixtures.chat_ok "It is a fine phone.") false [] Fixtures.catalog
                         Fixtures.no_parse)
      "tell me more about this phone" Filters.empty
      [Fixtures.assistant_turn [Fixtures.iphone15; Fixtures.iphone15]] None Fixtures.start
    = (Returned r, s')
    /\ ChatResponse.phones r = Some [Fixtures.iphone15; Fixtures.iphone15]
    /\ ~ NoDup (map brandModel [Fixtures.iphone15; Fixtures.iphone15]).
Proof.
  eexists _, _. split; [vm_compute; reflexivity|]. split; [reflexivity|].
  intros H. apply NoDup_cons in H as [H _]. apply H. cbn. left.
Qed.

(** What [summarize] sends: one request that lists the first occurrences
    of the phones it was given, four at most, and nothing when it was given
    no phone. *)
Lemma summarize_lists_first_occurrences
    {W : Type} (svc : Services W) (query : string) (phones : list Phone.t)
    (history : list ChatHistoryMessage.t) (s : St W) r s' :
  LLMClient.summarize svc query phones history s = (r, s') ->
  added s s' (summary_requests query (take 4 (first_occurrences phones)) history).
Proof.
  unfold LLMClient.summarize, added.
  rewrite getUniquePhones_first by lia.
  destruct (take 4 (first_occurrences phones)) as [|p listed] eqn:E.
  - cbn. intros H. inversion H. subst. rewrite app_nil_r. reflexivity.
  - cbn [List.length Nat.eqb summary_requests].
    unfold LLMClient.generateContent, bind, invoke.
    destruct (chat_create svc _ (world s)) as [[content|e] w]; cbn;
      intros H; inversion H; subst; reflexivity.
Qed.

(** C1, amended: every call to [process] returns a response whose phones
    array, when present, has at most five phones.  Deduplication happens
    only where [summarize] lists phones in its prompt: the one request it
    sends lists the first occurrences of the phones it was given, by the
    key of brand and model, four at most; no two of the listed phones have
    the same brand and model. *)
Theorem process_phones_capped_summary_deduplicated
    {W : Type} (svc : Services W) (userQuery : string) (filters : Filters.t)
    (history : list ChatHistoryMessage.t) (onStatus : option (string -> Ext W unit))
    (s : St W) :
  (exists r s',
     QueryProcessor.process svc userQuery filters history onStatus s = (Returned r, s')
     /\ forall l, ChatResponse.phones r = Some l -> List.length l <= 5)
  /\ (forall query phones turns s0 r0 s1,
        LLMClient.summarize svc query phones turns s0 = (r0, s1) ->
        added s0 s1 (summary_requests query (take 4 (first_occurrences phones)) turns))
  /\ (forall phones,
        NoDup (map brandModel (take 4 (first_occurrences phones)))
        /\ List.length (take 4 (first_occurrences phones)) <= 4).
Proof.
  split; [|split].
  - destruct (process_total svc userQuery filters history onStatus s) as (r & s' & E).
    exists r, s'. split; [exact E|].
    exact (process_at_most_five svc _ _ _ _ _ _ _ E).
  - intros query phones turns s0 r0 s1. apply summarize_lists_first_occurrences.
  - intros phones. rewrite <- (getUniquePhones_first phones 4) by lia.
    destruct (getUniquePhones_spec phones 4) as [Hnd Hlen]; [lia|].
    split; [apply NoDup_uniqueKey_brandModel, Hnd | exact Hlen].
Qed.

(** A follow-up about a turn that showed the same phone twice: the
    response returns both copies, the summary prompt lists the phone
    once. *)
Example summary_lists_duplicate_once :
  exists r s',
    QueryProcessor.process
      (Fixtures.services (Fixtures.chat_ok "It is a fine phone.") false [] Fixtures.catalog
                         Fixtures.no_parse)
      "tell me more about this phone" Filters.empty
      [Fixtures.assistant_turn [Fixtures.iphone15; Fixtures.iphone15]] None Fixtures.start
    = (Returned r, s')
    /\ ChatResponse.phones r = Some [Fixtures.iphone15; Fixtures.iphone15]
    /\ calls s'
       = summary_requests "tell me more about this phone" [Fixtures.iphone15]
           [Fixtures.assistant_turn [Fixtures.iphone15; Fixtures.iphone15]].
Proof. eexists _, _. split; [vm_compute; reflexivity|]. split; reflexivity. Qed.

(** C2: [process] never throws, whatever the services do, and its
    response carries an [error] only when the [try] block threw and the
    keyword fallback then threw too or found no phone; such a response
    has no phones. *)
Theorem process_never_throws
    {W : Type} (svc : Services W) (userQuery : string) (filters : Filters.t)
    (history : list ChatHistoryMessage.t) (onStatus : option (string -> Ext W unit))
    (s : St W) :
  exists r s',
    QueryProcessor.process svc userQuery filters history onStatus s = (Returned r, s')
    /\ (is_Some (ChatResponse.error r) ->
        ChatResponse.phones r = None
        /\ exists e s1,
             QueryProcessor.process_try svc userQuery filters history onStatus s
             = (Threw e, s1)
             /\ let attempt :=
                  (QueryProcessor.notify onStatus "Searching database..." ;;;
                   QueryProcessor.getFallbackResults svc userQuery) s1 in
                (exists e', attempt.1 = Threw e') \/ attempt.1 = Returned []).
Proof.
  unfold QueryProcessor.process, try_catch.
  destruct (QueryProcessor.process_try svc userQuery filters history onStatus s)
    as [[r|e] s1] eqn:Etry.
  - exists r, s1. split; [reflexivity|].
    rewrite (process_try_no_error svc _ _ _ _ _ _ _ Etry). intros [x Hx]. discriminate Hx.
  - unfold QueryProcessor.process_catch, QueryProcessor.process_fallback, try_catch, bind.
    destruct (QueryProcessor.notify onStatus "Searching database..." s1)
      as [[[]|e1] s2] eqn:Enotify.
    + destruct (QueryProcessor.getFallbackResults svc userQuery s2)
        as [[fallbackPhones|e2] s3] eqn:Efallback.
      * destruct (0 <? List.length fallbackPhones) eqn:Elen.
        -- eexists _, _. split; [reflexivity|]. cbn. intros [x Hx]. discriminate Hx.
        -- eexists _, _. split; [reflexivity|]. cbn. intros _. split; [reflexivity|].
           exists e, s1. split; [reflexivity|]. right.
           unfold bind. rewrite Enotify, Efallback.
           destruct fallbackPhones; [reflexivity|discriminate Elen].
      * eexists _, _. split; [reflexivity|]. cbn. intros _. split; [reflexivity|].
        exists e, s1. split; [reflexivity|]. left. exists e2.
        unfold bind. rewrite Enotify, Efallback. reflexivity.
    + eexists _, _. split; [reflexivity|]. cbn. intros _. split; [reflexivity|].
      exists e, s1. split; [reflexivity|]. left. exists e1.
      unfold bind. rewrite Enotify. reflexivity.
Qed.

(** Both failures at once: the chat model is rate limited and the catalog
    holds no phone; the response carries the classified messages and no
    phones. *)
Example process_reports_error_when_fallback_is_empty :
  (QueryProcessor.process
     (Fixtures.services Fixtures.chat_down false [] [] Fixtures.no_parse)
     "best samsung phone under 20k" Filters.empty [] None Fixtures.start).1
  = Returned (ChatResponse.mk
                (QueryProcessor.userMessage (QueryProcessor.classifyError "429 rate limit"))
                None (Some "Rate limit exceeded") None).
Proof. vm_compute. reflexivity. Qed.

(* ================================================================== *)
(** * Facts about the stable sort *)
(* ================================================================== *)

Section SortFacts.
Context {A : Type} (before : A -> A -> bool).

Lemma insert_Permutation x l : Permutation (Sort.insert before x l) (x :: l).
Proof.
  induction l as [|y l IH]; cbn; [reflexivity|].
  destruct (before x y); [reflexivity|].
  rewrite IH. apply perm_swap.
Qed.

Lemma sort_Permutation l : Permutation (Sort.sort before l) l.
Proof.
  induction l as [|x l IH]; cbn; [reflexivity|].
  rewrite insert_Permutation. constructor. exact IH.
Qed.


Hypothesis before_total : forall a b, before a b = false -> before b a = true.
Hypothesis before_trans :
  forall a b c, before a b = true -> before b c = true -> before a c = true.

Lemma insert_StronglySorted x l :
  StronglySorted (fun a b => before a b = true) l ->
  StronglySorted (fun a b => before a b = true) (Sort.insert before x l).
Proof.
  induction 1 as [|y l Hs IH Hy]; cbn.
  - repeat constructor.
  - destruct (before x y) eqn:E.
    + constructor; [constructor; assumption|].
      constructor; [exact E|].
      eapply Forall_impl; [exact Hy|]. intros z Hz. exact (before_trans _ _ _ E Hz).
    + constructor; [exact IH|].
      eapply Permutation_Forall; [symmetry; apply insert_Permutation|].
      constructor; [apply before_total, E | exact Hy].
Qed.

Lemma sort_StronglySorted l :
  StronglySorted (fun a b => before a b = true) (Sort.sort before l).
Proof.
  induction l as [|x l IH]; cbn; [constructor|].
  apply insert_StronglySorted, IH.
Qed.

(** The first element of the sorted list comes before every element. *)
Lemma before_refl a : before a a = true.
Proof. destruct (before a a) eqn:E; [reflexivity|]. rewrite (before_total _ _ E) in E. discriminate E. Qed.

Lemma sort_head_first l b rest :
  Sort.sort before l = b :: rest ->
  b ∈ l /\ forall p, p ∈ l -> before b p = true.
Proof.
  intros E. pose proof (sort_StronglySorted l) as Hs.
  pose proof (sort_Permutation l) as Hp. rewrite E in Hs, Hp.
  split.
  - rewrite <- Hp. left.
  - intros p Hin. rewrite <- Hp in Hin.
    apply StronglySorted_inv in Hs as [_ Hall].
    apply elem_of_cons in Hin as [->|Hin]; [apply before_refl|].
    rewrite Forall_forall in Hall. apply Hall, Hin.
Qed.

End SortFacts.

Lemma Qle_bool_total a b : Qle_bool a b = false -> Qle_bool b a = true.
Proof.
  intros H. apply Qle_bool_iff. destruct (Qlt_le_dec b a) as [Hlt|Hle].
  - apply Qlt_le_weak, Hlt.
  - apply Qle_bool_iff in Hle. congruence.
Qed.




(* ================================================================== *)
(** * C3: the follow-up short-circuit *)
(* ================================================================== *)

Section FollowUp.
Context {W : Type} (svc : Services W).
Import QueryProcessor.



Lemma invoke_calls {A} (c : Call) (f : Ext W A) (s : St W) r s' :
  invoke c f s = (r, s') -> calls s' = calls s ++ [c].
Proof.
  unfold invoke. destruct (f (world s)) as [r0 w]. intros H. inversion H. reflexivity.
Qed.

Lemma notify_no_retrieval onStatus status (s : St W) r s' :
  notify onStatus status s = (r, s') -> no_retrieval_between s s'.
Proof.
  destruct onStatus as [f|]; cbn; intros H.
  - exists [CallStatus status]. split; [exact (invoke_calls _ _ _ _ _ H) | reflexivity].
  - inversion H. subst. exists []. split; [symmetry; apply app_nil_r | reflexivity].
Qed.


Lemma no_retrieval_between_trans (s1 s2 s3 : St W) :
  no_retrieval_between s1 s2 -> no_retrieval_between s2 s3 -> no_retrieval_between s1 s3.
Proof.
  intros (n1 & E1 & H1) (n2 & E2 & H2). exists (n1 ++ n2). split.
  - rewrite E2, E1, app_assoc. reflexivity.
  - rewrite existsb_app, H1, H2. reflexivity.
Qed.

End FollowUp.




(* ================================================================== *)
(** * C4: merging the caller's filters with the intent *)
(* ================================================================== *)

Section MergeFilters.
Import QueryProcessor.

Lemma mergeBound_min constraint caller :
  merged_bound Qmax constraint caller (mergeBound gt constraint caller)
  /\ never_widened Qle caller (mergeBound gt constraint caller).
Proof.
  unfold merged_bound, never_widened, mergeBound, gt, Js.truthy_num.
  destruct constraint as [c|], caller as [m|]; cbn.
  - destruct (Qeq_bool c 0) eqn:Ec; cbn.
    + split; [reflexivity|]. intros m' E _. inversion E. subst. exists m'. split; [reflexivity|lra].
    + destruct (Qeq_bool m 0) eqn:Em; cbn.
      * split; [reflexivity|]. intros m' E Hm. inversion E. subst.
        apply Qeq_bool_iff in Em. contradiction.
      * destruct (Qle_bool c m) eqn:Ele; cbn.
        -- apply Qle_bool_iff in Ele. split.
           ++ exists m. split; [reflexivity|]. rewrite Q.max_r; [reflexivity|exact Ele].
           ++ intros m' E _. inversion E. subst. exists m'. split; [reflexivity|lra].
        -- apply Qle_bool_total in Ele. apply Qle_bool_iff in Ele. split.
           ++ exists c. split; [reflexivity|]. rewrite Q.max_l; [reflexivity|exact Ele].
           ++ intros m' E _. inversion E. subst. exists c. split; [reflexivity|exact Ele].
  - destruct (Qeq_bool c 0); cbn; (split; [reflexivity|]); intros m' E; discriminate E.
  - split; [reflexivity|]. intros m' E _. inversion E. subst. exists m'. split; [reflexivity|lra].
  - split; [reflexivity|]. intros m' E. discriminate E.
Qed.

Lemma mergeBound_max constraint caller :
  merged_bound Qmin constraint caller (mergeBound lt constraint caller)
  /\ never_widened (fun m v => (v <= m)%Q) caller (mergeBound lt constraint caller).
Proof.
  unfold merged_bound, never_widened, mergeBound, lt, Js.truthy_num.
  destruct constraint as [c|], caller as [m|]; cbn.
  - destruct (Qeq_bool c 0) eqn:Ec; cbn.
    + split; [reflexivity|]. intros m' E _. inversion E. subst. exists m'. split; [reflexivity|lra].
    + destruct (Qeq_bool m 0) eqn:Em; cbn.
      * split; [reflexivity|]. intros m' E Hm. inversion E. subst.
        apply Qeq_bool_iff in Em. contradiction.
      * destruct (Qle_bool m c) eqn:Ele; cbn.
        -- apply Qle_bool_iff in Ele. split.
           ++ exists m. split; [reflexivity|]. rewrite Q.min_r; [reflexivity|exact Ele].
           ++ intros m' E _. inversion E. subst. exists m'. split; [reflexivity|lra].
        -- apply Qle_bool_total in Ele. apply Qle_bool_iff in Ele. split.
           ++ exists c. split; [reflexivity|]. rewrite Q.min_l; [reflexivity|exact Ele].
           ++ intros m' E _. inversion E. subst. exists c. split; [reflexivity|exact Ele].
  - destruct (Qeq_bool c 0); cbn; (split; [reflexivity|]); intros m' E; discriminate E.
  - split; [reflexivity|]. intros m' E _. inversion E. subst. exists m'. split; [reflexivity|lra].
  - split; [reflexivity|]. intros m' E. discriminate E.
Qed.

End MergeFilters.

(** C4, as stated, fails: a zero bound counts as absent.  An upper price
    bound of 0 supplied by the caller is replaced by the intent's 50000,
    which is neither the minimum of the two nor a tightening. *)
Lemma mergeFilters_widens_zero_bound :
  Filters.maxPrice
    (QueryProcessor.mergeFilters (priceFilters None (Some 0%Q))
                                 (priceIntent None (Some 50000%Q)))
  = Some 50000%Q
  /\ ~ (50000 == Qmin 0 50000)%Q
  /\ (0 < 50000)%Q.
Proof.
  split; [reflexivity|]. split; [|reflexivity].
  intros H. vm_compute in H. discriminate H.
Qed.

(** C4, amended: for every caller-supplied Filters and every intent,
    [mergeFilters] treats a bound that is absent or zero as not given;
    when both sides give a bound it keeps the tighter one (the maximum of
    two lower bounds, the minimum of two upper bounds), when one side gives
    it that one is kept, and a non-zero bound of the caller is never
    widened.  The brand is taken from the intent (its first company) only
    when the caller's company is absent or empty. *)
Theorem mergeFilters_tightens (filters : Filters.t) (intent : ParsedIntent.t) :
  let c := ParsedIntent.constraints intent in
  let merged := QueryProcessor.mergeFilters filters intent in
  let lower (constraint caller result : option Q) :=
    merged_bound Qmax constraint caller result /\ never_widened Qle caller result in
  let upper (constraint caller result : option Q) :=
    merged_bound Qmin constraint caller result
    /\ never_widened (fun m v => (v <= m)%Q) caller result in
  lower (Constraints.min_price c) (Filters.minPrice filters) (Filters.minPrice merged)
  /\ upper (Constraints.max_price c) (Filters.maxPrice filters) (Filters.maxPrice merged)
  /\ lower (Constraints.min_ram c) (Filters.minRam filters) (Filters.minRam merged)
  /\ upper (Constraints.max_ram c) (Filters.maxRam filters) (Filters.maxRam merged)
  /\ lower (Constraints.min_battery c) (Filters.minBattery filters) (Filters.minBattery merged)
  /\ upper (Constraints.max_battery c) (Filters.maxBattery filters) (Filters.maxBattery merged)
  /\ lower (Constraints.min_camera c) (Filters.minCamera filters) (Filters.minCamera merged)
  /\ upper (Constraints.max_camera c) (Filters.maxCamera filters) (Filters.maxCamera merged)
  /\ lower (Constraints.min_storage c) (Filters.minStorage filters) (Filters.minStorage merged)
  /\ upper (Constraints.max_storage c) (Filters.maxStorage filters) (Filters.maxStorage merged)
  /\ Filters.company merged
     = (if Js.truthy_str (Filters.company filters) then Filters.company filters
        else match Entities.company (ParsedIntent.entities intent) with
             | Some (brand :: _) => Some brand
             | _ => Filters.company filters
             end).
Proof.
  cbv zeta. unfold QueryProcessor.mergeFilters. cbn [Filters.minPrice Filters.maxPrice
    Filters.minRam Filters.maxRam Filters.minBattery Filters.maxBattery Filters.minCamera
    Filters.maxCamera Filters.minStorage Filters.maxStorage Filters.company].
  repeat (split; [first [apply mergeBound_min | apply mergeBound_max]|]).
  destruct (Entities.company (ParsedIntent.entities intent)) as [[|brand rest]|];
    destruct (Js.truthy_str (Filters.company filters)); reflexivity.
Qed.

(* ================================================================== *)
(** * Facts about the string primitives *)
(* ================================================================== *)

Section StringFacts.

Lemma chars_of_chars l : Js.chars (Js.of_chars l) = l.
Proof. induction l as [|c l IH]; cbn; [reflexivity | rewrite IH; reflexivity]. Qed.

Lemma of_chars_chars s : Js.of_chars (Js.chars s) = s.
Proof. induction s as [|c s IH]; cbn; [reflexivity | rewrite IH; reflexivity]. Qed.

Lemma chars_append a b : Js.chars (a +:+ b) = Js.chars a ++ Js.chars b.
Proof.
  induction a as [|c a IH]; [reflexivity|].
  change (c :: Js.chars (a +:+ b) = c :: (Js.chars a ++ Js.chars b)).
  f_equal. exact IH.
Qed.

Lemma chars_toUpperCase s : Js.chars (Js.toUpperCase s) = map Js.upper_char (Js.chars s).
Proof. unfold Js.toUpperCase. apply chars_of_chars. Qed.

Lemma prefix_of_app p a b : Js.prefix_of p a = true -> Js.prefix_of p (a ++ b) = true.
Proof.
  revert a. induction p as [|x p IH]; intros [|y a]; cbn; try congruence.
  intros H. apply andb_true_iff in H as [H1 H2]. rewrite H1. cbn. apply IH, H2.
Qed.

Lemma includes_chars_app_r a b p :
  Js.includes_chars b p = true -> Js.includes_chars (a ++ b) p = true.
Proof.
  intros H. induction a as [|x a IH]; cbn; [exact H|].
  rewrite IH. apply orb_true_r.
Qed.

Lemma startsWith_append s t p : Js.startsWith s p = true -> Js.startsWith (s +:+ t) p = true.
Proof. unfold Js.startsWith. rewrite chars_append. apply prefix_of_app. Qed.

Lemma of_chars_app l1 l2 : Js.of_chars (l1 ++ l2) = Js.of_chars l1 +:+ Js.of_chars l2.
Proof.
  induction l1 as [|c l1 IH]; [reflexivity|].
  change (String c (Js.of_chars (l1 ++ l2)) = String c (Js.of_chars l1 +:+ Js.of_chars l2)).
  f_equal. exact IH.
Qed.

Lemma toUpperCase_append a b :
  Js.toUpperCase (a +:+ b) = Js.toUpperCase a +:+ Js.toUpperCase b.
Proof. unfold Js.toUpperCase. rewrite chars_append, map_app, of_chars_app. reflexivity. Qed.

End StringFacts.

(* ================================================================== *)
(** * C9: a reply that is not JSON *)
(* ================================================================== *)

(** C9: if the reply of the generation service to the intent prompt does
    not parse as JSON once the code fences are stripped, [parseIntent]
    returns the default intent (task query, no entities, no constraints,
    comparison type single) and does not throw. *)
Theorem parseIntent_unparseable_reply
    {W : Type} (svc : Services W) (query : string) (history : list ChatHistoryMessage.t)
    (s s' : St W) (reply : string) :
  LLMClient.generateContent svc (INTENT_PROMPT query) (LLMClient.contextHistory history) false s
  = (Returned reply, s') ->
  JSON_parse_intent svc (LLMClient.stripFences "```json" reply) = None ->
  LLMClient.parseIntent svc query history s
  = (Returned (ParsedIntent.mk TaskQuery (Entities.mk None None None None)
                 (Constraints.mk None None None None None None None None None None)
                 None (Some CmpSingle)), s').
Proof.
  intros Hreply Hparse. unfold LLMClient.parseIntent.
  rewrite (bind_run _ _ _ _ _ Hreply), Hparse. reflexivity.
Qed.

Lemma parseIntent_unparseable_reply_witness :
  exists s',
    LLMClient.parseIntent
      (Fixtures.services (Fixtures.chat_ok "Sure! Here is what I understood.") false []
                         Fixtures.catalog Fixtures.no_parse)
      "phones under 20k" [] Fixtures.start
    = (Returned (ParsedIntent.mk TaskQuery (Entities.mk None None None None)
                   (Constraints.mk None None None None None None None None None None)
                   None (Some CmpSingle)), s').
Proof.
  eexists.
  apply (parseIntent_unparseable_reply
           (Fixtures.services (Fixtures.chat_ok "Sure! Here is what I understood.") false []
                              Fixtures.catalog Fixtures.no_parse)
           "phones under 20k" [] Fixtures.start _ "Sure! Here is what I understood.").
  - vm_compute. reflexivity.
  - reflexivity.
Defined.

(* ================================================================== *)
(** * C10: the statement [generateSQL] lets through *)
(* ================================================================== *)

(** C10, as stated, fails: a cap written by the model is not checked, so
    a statement asking for 1000 rows is returned unchanged. *)
Lemma generateSQL_keeps_large_limit :
  exists s',
    LLMClient.generateSQL
      (Fixtures.services (Fixtures.chat_ok "SELECT * FROM phones LIMIT 1000") false []
                         Fixtures.catalog Fixtures.no_parse)
      (priceIntent None None) Filters.empty Fixtures.start
    = (Returned "SELECT * FROM phones LIMIT 1000", s')
    /\ limitClause "SELECT * FROM phones LIMIT 1000" = Some 1000
    /\ 10 < 1000.
Proof.
  eexists. split; [vm_compute; reflexivity|].
  split; [vm_compute; reflexivity | lia].
Qed.

(** C10, amended: for every text returned by the generation service,
    [generateSQL] throws exactly when the cleaned text, upper-cased, does
    not begin with SELECT; otherwise it returns the cleaned text, with
    " LIMIT 5" appended exactly when the upper-cased text does not contain
    LIMIT.  The statement returned begins with SELECT and contains LIMIT
    in some letter case; nothing else about it is checked. *)
Theorem generateSQL_select_with_limit
    {W : Type} (svc : Services W) (intent : ParsedIntent.t) (filters : Filters.t)
    (s s' : St W) (reply : string) :
  LLMClient.generateContent svc (NL2SQL_PROMPT intent filters) [] false s
  = (Returned reply, s') ->
  let sql := LLMClient.stripFences "```sql" reply in
  if Js.startsWith (Js.toUpperCase sql) "SELECT" then
    exists out,
      LLMClient.generateSQL svc intent filters s = (Returned out, s')
      /\ out = (if Js.includes (Js.toUpperCase sql) "LIMIT" then sql else sql +:+ " LIMIT 5")
      /\ Js.startsWith (Js.toUpperCase out) "SELECT" = true
      /\ Js.includes (Js.toUpperCase out) "LIMIT" = true
  else
    LLMClient.generateSQL svc intent filters s
    = (Threw (JsError "Invalid SQL: Only SELECT statements allowed"), s').
Proof.
  intros Hreply sql. unfold LLMClient.generateSQL.
  rewrite (bind_run _ _ _ _ _ Hreply). fold sql.
  destruct (Js.startsWith (Js.toUpperCase sql) "SELECT") eqn:Esel; cbn [negb]; [|reflexivity].
  destruct (Js.includes (Js.toUpperCase sql) "LIMIT") eqn:Elim; cbn [negb].
  - exists sql. repeat split; assumption.
  - exists (sql +:+ " LIMIT 5"). repeat split.
    + rewrite toUpperCase_append. apply startsWith_append, Esel.
    + rewrite toUpperCase_append. unfold Js.includes. rewrite chars_append.
      apply includes_chars_app_r. vm_compute. reflexivity.
Qed.

Lemma generateSQL_select_with_limit_witness :
  exists s',
    LLMClient.generateSQL
      (Fixtures.services (Fixtures.chat_ok "select * from phones where price_inr < 20000")
                         false [] Fixtures.catalog Fixtures.no_parse)
      (priceIntent None (Some 20000%Q)) Filters.empty Fixtures.start
    = (Returned "select * from phones where price_inr < 20000 LIMIT 5", s').
Proof.
  eexists.
  eassert (Hreply :
             LLMClient.generateContent
               (Fixtures.services
                  (Fixtures.chat_ok "select * from phones where price_inr < 20000")
                  false [] Fixtures.catalog Fixtures.no_parse)
               (NL2SQL_PROMPT (priceIntent None (Some 20000%Q)) Filters.empty)
               [] false Fixtures.start
             = (Returned _, _))
    by (vm_compute; reflexivity).
  pose proof (generateSQL_select_with_limit _ _ _ _ _ _ Hreply) as H.
  cbv zeta in H.
  assert (Esel : Js.startsWith
                   (Js.toUpperCase
                      (LLMClient.stripFences "```sql"
                         "select * from phones where price_inr < 20000")) "SELECT" = true)
    by (vm_compute; reflexivity).
  rewrite Esel in H. destruct H as (out & H1 & H2 & _).
  rewrite H2 in H1. exact H1.
Defined.

(* ================================================================== *)
(** * C6: the filtered catalog query *)
(* ================================================================== *)

Section FilteredPhones.
Import Database.

Lemma add_num_entries x frag h l :
  add_num x frag (h :: map fst l, map snd l)
  = (h :: map fst (l ++ opt_num x frag), map snd (l ++ opt_num x frag)).
Proof.
  destruct x as [v|]; cbn.
  - rewrite !map_app. reflexivity.
  - rewrite app_nil_r. reflexivity.
Qed.

Lemma add_text_entries c frag h l :
  add_text c frag (h :: map fst l, map snd l)
  = (h :: map fst (l ++ opt_text c frag), map snd (l ++ opt_text c frag)).
Proof.
  unfold add_text, opt_text. destruct c as [v|]; [destruct (Js.truthy_str (Some v))|]; cbn.
  - rewrite !map_app. reflexivity.
  - rewrite app_nil_r. reflexivity.
  - rewrite app_nil_r. reflexivity.
Qed.

Lemma filtered_statement_entries f :
  filtered_statement f
  = (select_head :: map fst (entries f) ++ [select_tail], map snd (entries f)).
Proof.
  unfold filtered_statement, entries.
  change ([select_head], @nil SqlValue)
    with (select_head :: map fst (@nil (string * SqlValue)), map snd (@nil (string * SqlValue))).
  rewrite add_text_entries. rewrite !add_num_entries. cbn [fst snd app].
  rewrite <- !app_assoc. reflexivity.
Qed.

Lemma where_holds_entries l row :
  where_holds (map fst l) (map snd l) row = Some true ->
  forall frag v, (frag, v) ∈ l -> clause_holds frag v row = Some true.
Proof.
  induction l as [|[frag0 v0] l IH]; cbn; intros H frag v Hin.
  - apply elem_of_nil in Hin. contradiction.
  - destruct (clause_holds frag0 v0 row) as [b1|] eqn:E1; [|discriminate].
    destruct (where_holds (map fst l) (map snd l) row) as [b2|] eqn:E2; [|discriminate].
    inversion H as [Hb]. apply andb_true_iff in Hb as [-> ->].
    apply elem_of_cons in Hin as [Heq|Hin].
    + inversion Heq. subst. exact E1.
    + apply IH; [reflexivity | exact Hin].
Qed.

(** What [queryPhones] returns for the statement of [getFilteredPhones]:
    rows of the table that pass every clause, in order, at most 50. *)
Lemma getFilteredPhones_rows table f :
  getFilteredPhones table f = []
  \/ getFilteredPhones table f
     = take 50 (Sort.sort order_before
                  (filter (fun row => where_holds (map fst (entries f)) (map snd (entries f)) row
                                      = Some true) table)).
Proof.
  unfold getFilteredPhones. rewrite filtered_statement_entries.
  unfold queryPhones, execute. rewrite rev_app_distr. cbn [rev app].
  rewrite rev_involutive.
  rewrite !bool_decide_eq_true_2 by reflexivity. cbn [andb].
  destruct (forallb _ table); [right; reflexivity | left; reflexivity].
Qed.

Lemma order_before_spec a b : order_before a b = true <-> rating_then_price a b.
Proof.
  unfold order_before, rating_then_price.
  destruct (Qeq_bool (Phone.user_rating a) (Phone.user_rating b)) eqn:E.
  - apply Qeq_bool_iff in E. rewrite Qle_bool_iff. split.
    + intros H. right. split; assumption.
    + intros [H|[_ H]]; [lra | exact H].
  - apply Qeq_bool_neq in E. rewrite Qle_bool_iff. split.
    + intros H. left. lra.
    + intros [H|[H _]]; [lra | contradiction].
Qed.

Lemma order_before_total a b : order_before a b = false -> order_before b a = true.
Proof.
  intros H. apply order_before_spec.
  assert (Hn : ~ rating_then_price a b).
  { intros Hr. apply order_before_spec in Hr. congruence. }
  unfold rating_then_price in *.
  destruct (Qlt_le_dec (Phone.user_rating a) (Phone.user_rating b)) as [Hlt|Hle];
    [left; exact Hlt|].
  destruct (Qlt_le_dec (Phone.user_rating b) (Phone.user_rating a)) as [Hlt'|Hle'];
    [exfalso; apply Hn; left; exact Hlt'|].
  right. split; [lra|].
  destruct (Qlt_le_dec (Phone.price_inr a) (Phone.price_inr b)) as [Hp|Hp]; [|exact Hp].
  exfalso. apply Hn. right. split; lra.
Qed.

Lemma order_before_trans a b c :
  order_before a b = true -> order_before b c = true -> order_before a c = true.
Proof.
  rewrite !order_before_spec. unfold rating_then_price.
  intros [H1|[H1 H1']] [H2|[H2 H2']]; [left; lra | left; lra | left; lra | right; split; lra].
Qed.

Lemma StronglySorted_weaken {A} (R R' : A -> A -> Prop) l :
  (forall a b, R a b -> R' a b) -> StronglySorted R l -> StronglySorted R' l.
Proof.
  intros HR. induction 1 as [|x l Hs IH Hx]; constructor; [exact IH|].
  eapply Forall_impl; [exact Hx|]. intros y. apply HR.
Qed.

Lemma StronglySorted_take {A} (R : A -> A -> Prop) n l :
  StronglySorted R l -> StronglySorted R (take n l).
Proof.
  intros H. rewrite <- (take_drop n l) in H. exact (StronglySorted_app_1_l _ _ _ H).
Qed.

Lemma clause_holds_ge frag column v row :
  assoc frag numeric_clauses = Some (column, true) ->
  bool_decide (frag = " AND LOWER(company_name) = LOWER(?)") = false ->
  clause_holds frag (SqlNum v) row = Some true -> (v <= column row)%Q.
Proof.
  unfold clause_holds. intros -> ->. intros H. inversion H as [Hle].
  apply Qle_bool_iff in Hle. exact Hle.
Qed.

Lemma clause_holds_le frag column v row :
  assoc frag numeric_clauses = Some (column, false) ->
  bool_decide (frag = " AND LOWER(company_name) = LOWER(?)") = false ->
  clause_holds frag (SqlNum v) row = Some true -> (column row <= v)%Q.
Proof.
  unfold clause_holds. intros -> ->. intros H. inversion H as [Hle].
  apply Qle_bool_iff in Hle. exact Hle.
Qed.

Lemma entries_within f row :
  where_holds (map fst (entries f)) (map snd (entries f)) row = Some true ->
  within f row.
Proof.
  intros H. pose proof (where_holds_entries _ _ H) as Hall. clear H.
  unfold entries in Hall. unfold within.
  repeat split; intros v Hv;
    try (match goal with
         | |- (v <= _)%Q =>
             eapply clause_holds_ge; [| |apply Hall; rewrite Hv; cbn;
               rewrite !elem_of_app, !elem_of_cons; tauto]; vm_compute; reflexivity
         | |- (_ <= v)%Q =>
             eapply clause_holds_le; [| |apply Hall; rewrite Hv; cbn;
               rewrite !elem_of_app, !elem_of_cons; tauto]; vm_compute; reflexivity
         end).
  intros Hne.
  assert (Hc : clause_holds " AND LOWER(company_name) = LOWER(?)" (SqlText v) row = Some true).
  { apply Hall. rewrite Hv. unfold opt_text, Js.truthy_str.
    rewrite bool_decide_eq_false_2 by exact Hne. cbn. left. }
  unfold clause_holds in Hc. rewrite bool_decide_eq_true_2 in Hc by reflexivity.
  inversion Hc as [Hb]. apply bool_decide_eq_true_1 in Hb. exact Hb.
Qed.

End FilteredPhones.

(** C6: over any catalog, every phone [getFilteredPhones] returns
    satisfies each bound the filters supply (price, RAM, battery, camera
    and storage ranges, and the company, compared without regard to letter
    case, when a non-empty one is given); the result is ordered by rating
    descending then price ascending, has at most 50 phones, and holds rows
    of the catalog only. *)
Theorem getFilteredPhones_sound (table : list Phone.t) (f : Filters.t) :
  Forall (within f) (Database.getFilteredPhones table f)
  /\ StronglySorted rating_then_price (Database.getFilteredPhones table f)
  /\ List.length (Database.getFilteredPhones table f) <= 50
  /\ Forall (fun p => p ∈ table) (Database.getFilteredPhones table f).
Proof.
  destruct (getFilteredPhones_rows table f) as [-> | ->].
  - repeat split; try constructor. cbn. lia.
  - set (P := fun row => Database.where_holds _ _ row = Some true).
    assert (Hsub : forall p, p ∈ take 50 (Sort.sort Database.order_before (filter P table)) ->
                             P p /\ p ∈ table).
    { intros p Hin. apply (list_elem_of_filter P).
      rewrite <- (sort_Permutation Database.order_before (filter P table)).
      apply elem_of_take in Hin as (i & Hi & _).
      eapply list_elem_of_lookup_2, Hi. }
    repeat split.
    + apply Forall_forall. intros p Hin. apply entries_within. exact (proj1 (Hsub p Hin)).
    + apply StronglySorted_take.
      eapply StronglySorted_weaken; [intros a b; apply order_before_spec|].
      apply sort_StronglySorted; [apply order_before_total | apply order_before_trans].
    + rewrite length_take. lia.
    + apply Forall_forall. intros p Hin. exact (proj2 (Hsub p Hin)).
Qed.

(** The statement built for {maxPrice: 20000, company: "samsung"} on the
    sample catalog selects the one Samsung phone under 20,000. *)
Example getFilteredPhones_samsung_under_20k :
  Database.getFilteredPhones Fixtures.catalog
    (QueryProcessor.fallbackFilters "best samsung phone under 20k")
  = [Fixtures.galaxyM14].
Proof. vm_compute. reflexivity. Qed.

(* ================================================================== *)
(** * C7: typo correction of brand and model tokens *)
(* ================================================================== *)

(** C7 at the threshold: with the vector index unavailable and
    "blackberry" in the catalog, the fallback matcher gives the token
    "blkbery" the top match "blackberry" with score exactly 0.7;
    [findSimilar] returns that match, yet [applyCorrections] keeps the
    token, because it tests [score > 0.7]. *)
Lemma applyCorrections_keeps_token_at_threshold :
  let svc := Fixtures.services (Fixtures.chat_ok "") false []
               [Fixtures.phone 5 "blackberry" "key2" 4 30000] Fixtures.no_parse in
  exists s1 s2,
    VectorClient.findSimilar svc "blkbery" (Some TfCompany) None (7 # 10) Fixtures.start
    = (Returned [VectorSearchResult.mk "company-blackberry" (7 # 10)
                   (Some (Metadata.mk "company" "blackberry" None None))], s1)
    /\ QueryProcessor.applyCorrections svc (brandIntent ["blkbery"]) Fixtures.start
       = (Returned (brandIntent ["blkbery"]), s2).
Proof. cbv zeta. eexists _, _. split; vm_compute; reflexivity. Qed.

Section Corrections.
Context {W : Type} (svc : Services W).
Import QueryProcessor.

Lemma correctAll_loop_length typeFilter tokens : forall acc (s : St W) out s',
  for_each tokens acc
    (fun correctedTokens token =>
       similar <- VectorClient.findSimilar svc token (Some typeFilter) None (7 # 10) ;;
       match correctToken token similar with
       | Returned t => ret (correctedTokens ++ [t])
       | Threw e => throw e
       end) s = (Returned out, s') ->
  List.length out = List.length acc + List.length tokens.
Proof.
  induction tokens as [|token tokens IH]; intros acc s out s' H; cbn in H.
  - inversion H. subst. cbn. lia.
  - apply bind_returned in H as (acc' & s1 & Hbody & H).
    apply bind_returned in Hbody as (similar & s0 & _ & Hbody).
    destruct (correctToken token similar) as [t|e]; [|discriminate Hbody].
    inversion Hbody. subst. apply IH in H. rewrite length_app in H. cbn in *. lia.
Qed.

Lemma correctAll_length typeFilter tokens (s : St W) out s' :
  correctAll svc tokens typeFilter s = (Returned out, s') ->
  List.length out = List.length tokens.
Proof. intros H. apply correctAll_loop_length in H. exact H. Qed.

End Corrections.

(** No token is dropped: when [applyCorrections] returns, each entity list
    of the corrected intent is present exactly when it was present in the
    parsed intent, with the same number of tokens. *)
Theorem applyCorrections_keeps_every_token
    {W : Type} (svc : Services W) (intent corrected : ParsedIntent.t) (s s' : St W) :
  QueryProcessor.applyCorrections svc intent s = (Returned corrected, s') ->
  fmap (@List.length string) (Entities.company (ParsedIntent.entities corrected))
  = fmap (@List.length string) (Entities.company (ParsedIntent.entities intent))
  /\ fmap (@List.length string) (Entities.model (ParsedIntent.entities corrected))
     = fmap (@List.length string) (Entities.model (ParsedIntent.entities intent)).
Proof.
  unfold QueryProcessor.applyCorrections. intros H.
  apply bind_returned in H as (e1 & s1 & H1 & H).
  apply bind_returned in H as (e2 & s2 & H2 & H).
  inversion H. subst. clear H. cbn [ParsedIntent.entities].
  destruct (Entities.company (ParsedIntent.entities intent)) as [companies|] eqn:Ec.
  - apply bind_returned in H1 as (cc & s0 & Hc & H1). inversion H1. subst. clear H1.
    apply correctAll_length in Hc.
    destruct (Entities.model (ParsedIntent.entities intent)) as [models|] eqn:Em.
    + apply bind_returned in H2 as (cm & s3 & Hm & H2). inversion H2. subst.
      apply correctAll_length in Hm. cbn. rewrite Hc, Hm. split; reflexivity.
    + inversion H2. subst. cbn. rewrite Hc. split; reflexivity.
  - inversion H1. subst. clear H1.
    destruct (Entities.model (ParsedIntent.entities intent)) as [models|] eqn:Em.
    + apply bind_returned in H2 as (cm & s3 & Hm & H2). inversion H2. subst.
      apply correctAll_length in Hm. cbn. rewrite Ec, Hm. split; reflexivity.
    + inversion H2. subst. rewrite Ec, Em. split; reflexivity.
Qed.

Lemma applyCorrections_keeps_every_token_witness :
  fmap (@List.length string)
       (Entities.company (ParsedIntent.entities (brandIntent ["blkbery"])))
  = Some 1.
Proof.
  pose proof (applyCorrections_keeps_every_token
                (Fixtures.services (Fixtures.chat_ok "") false []
                   [Fixtures.phone 5 "blackberry" "key2" 4 30000] Fixtures.no_parse)
                (brandIntent ["blkbery"]) (brandIntent ["blkbery"]) Fixtures.start
                (mkSt tt [CallGetDatabase; CallCompanies] false)) as H.
  destruct H as [H _]; [vm_compute; reflexivity | exact H].
Defined.

(* ================================================================== *)
(** * C5: the keyword fallback *)
(* ================================================================== *)

Section PriceFigure.
Import PricePattern.

(** Without a comma in the text the class [[k,K]] is [[kK]]. *)
Lemma alt1_try_spec n s : PricePattern.comma ∉ s -> alt1_try n s = spec_alt1_try n s.
Proof.
  intros Hs. induction n as [|n IH]; cbn [alt1_try spec_alt1_try]; [reflexivity|].
  rewrite IH. destruct (drop (S n) s) as [|c rest] eqn:E; [reflexivity|].
  assert (Hc : c ∈ s).
  { rewrite <- (take_drop (S n) s), E. apply elem_of_app. right. left. }
  unfold in_class_k. rewrite (bool_decide_eq_false_2 (c = PricePattern.comma)); [|congruence].
  rewrite orb_false_r. reflexivity.
Qed.

(** A match of four to six digits starts with four digits. *)
Lemma digits46_four s ds :
  digits46 s = Some ds ->
  exists d1 d2 d3 d4 rest,
    s = d1 :: d2 :: d3 :: d4 :: rest
    /\ Js.is_digit d1 = true /\ Js.is_digit d2 = true
    /\ Js.is_digit d3 = true /\ Js.is_digit d4 = true.
Proof.
  unfold digits46. intros H.
  destruct s as [|d1 [|d2 [|d3 [|d4 rest]]]]; cbn in H;
    repeat match type of H with
           | context [if Js.is_digit ?c then _ else _] =>
               destruct (Js.is_digit c) eqn:?; cbn in H
           end; try discriminate H.
  eauto 10.
Qed.

(** Where no four digits stand in a row, no suffix starts with four to
    six digits. *)
Lemma four_digits_drop s : four_digits s = false -> forall k, digits46 (drop k s) = None.
Proof.
  induction s as [|c s IH]; intros H k.
  - destruct k; reflexivity.
  - cbn [four_digits] in H. apply orb_false_iff in H as [Hhead Htail].
    destruct k as [|k]; [|exact (IH Htail k)].
    cbn [drop]. destruct (digits46 (c :: s)) as [ds|] eqn:E; [|reflexivity].
    destruct (digits46_four _ _ E) as (d1 & d2 & d3 & d4 & rest & Es & H1 & H2 & H3 & H4).
    rewrite Es in Hhead. cbn in Hhead. rewrite H1, H2, H3, H4 in Hhead. discriminate Hhead.
Qed.

Lemma trim_start_drop s : exists k, Js.trim_start s = drop k s.
Proof.
  induction s as [|c s [k IH]]; [exists 0; reflexivity|].
  cbn [Js.trim_start]. destruct (Js.is_space c).
  - exists (S k). exact IH.
  - exists 0. reflexivity.
Qed.

Lemma ws_digits_drop s k : four_digits s = false -> ws_digits (drop k s) = None.
Proof.
  intros H. unfold ws_digits. destruct (trim_start_drop (drop k s)) as [j ->].
  rewrite drop_drop. apply four_digits_drop, H.
Qed.

(** The second alternative needs four digits in a row. *)
Lemma alt2_none s : four_digits s = false -> alt2 s = None.
Proof.
  intros H. unfold alt2. destruct (Js.prefix_of quote_cedilla s); [|reflexivity].
  cbn zeta. destruct (Js.prefix_of pi (drop 5 s)).
  - rewrite drop_drop, !ws_digits_drop by exact H. reflexivity.
  - apply ws_digits_drop, H.
Qed.

(** On a text without comma and without four digits in a row the pattern
    of the code finds the figure the pattern of the specification finds. *)
Lemma search_spec s :
  PricePattern.comma ∉ s -> four_digits s = false ->
  fmap priceValue (search s) = spec_priceFigure s.
Proof.
  induction s as [|c s IH]; intros Hs Hd.
  - vm_compute. reflexivity.
  - assert (Hs' : PricePattern.comma ∉ s) by (intros Hin; apply Hs; right; exact Hin).
    assert (Hd' : four_digits s = false).
    { cbn [four_digits] in Hd. apply orb_false_iff in Hd as [_ Hd]. exact Hd. }
    cbn [search]. unfold match_here. rewrite (alt1_try_spec 3 _ Hs : alt1 _ = _).
    cbn [spec_priceFigure]. unfold spec_match_here.
    destruct (spec_alt1_try 3 (c :: s)) as [ds|] eqn:E1; [reflexivity|].
    rewrite (alt2_none _ Hd), (four_digits_drop _ Hd 0 : digits46 (c :: s) = None).
    exact (IH Hs' Hd').
Qed.

End PriceFigure.

Section KeywordFallback.
Context {W : Type} (svc : Services W).
Import QueryProcessor.

Lemma fallbackBrand_spec keywords bs : brand_of keywords bs (fallbackBrand keywords bs).
Proof.
  induction bs as [|brand bs IH]; cbn [fallbackBrand].
  - constructor.
  - fold (mentions keywords brand). destruct (mentions keywords brand) eqn:E.
    + exists [], brand, bs. repeat split; [constructor | exact E].
    + unfold brand_of in *. destruct (fallbackBrand keywords bs) as [b|].
      * destruct IH as (skipped & brand' & rest & -> & Hs & Hm & ->).
        exists (brand :: skipped), brand', rest. repeat split; [|exact Hm].
        constructor; assumption.
      * constructor; assumption.
Qed.

Lemma fallbackFilters_price query :
  price_bounds_of query (fmap PricePattern.priceValue (PricePattern.search (Js.chars query)))
                  (fallbackFilters query).
Proof.
  unfold price_bounds_of, fallbackFilters.
  destruct (PricePattern.search (Js.chars query)) as [g|]; cbn [fmap option_fmap option_map].
  - unfold fallbackPriceBounds.
    destruct (Js.includes (Js.toLowerCase query) "under" || Js.includes (Js.toLowerCase query) "below");
      [split; reflexivity|].
    destruct (Js.includes (Js.toLowerCase query) "above" || Js.includes (Js.toLowerCase query) "over");
      split; reflexivity.
  - split; reflexivity.
Qed.

Lemma byRatingOrZero_before a b :
  Qle_bool (byRatingOrZero a b) 0 = true
  <-> (Phone.user_rating b <= Phone.user_rating a)%Q.
Proof.
  unfold byRatingOrZero, Js.truthy_num. rewrite Qle_bool_iff.
  destruct (Qeq_bool (Phone.user_rating a) 0) eqn:Ea;
    destruct (Qeq_bool (Phone.user_rating b) 0) eqn:Eb; cbn [negb];
    try apply Qeq_bool_iff in Ea; try apply Qeq_bool_iff in Eb; split; intros H; lra.
Qed.

Lemma byRatingOrZero_total a b :
  Qle_bool (byRatingOrZero a b) 0 = false -> Qle_bool (byRatingOrZero b a) 0 = true.
Proof.
  intros H. apply byRatingOrZero_before.
  destruct (Qlt_le_dec (Phone.user_rating a) (Phone.user_rating b)) as [Hlt|Hle].
  - apply Qlt_le_weak, Hlt.
  - apply byRatingOrZero_before in Hle. congruence.
Qed.

Lemma byRatingOrZero_trans a b c :
  Qle_bool (byRatingOrZero a b) 0 = true -> Qle_bool (byRatingOrZero b c) 0 = true ->
  Qle_bool (byRatingOrZero a c) 0 = true.
Proof. rewrite !byRatingOrZero_before. intros. lra. Qed.

Lemma getFallbackResults_sorted query :
  returns_only (fun phones => List.length phones <= 8 /\ rating_descending phones)
               (getFallbackResults svc query).
Proof.
  unfold getFallbackResults. apply returns_only_bind. intros phones.
  apply returns_only_ret. split.
  - rewrite length_take. lia.
  - apply StronglySorted_take.
    eapply StronglySorted_weaken; [intros a b; apply byRatingOrZero_before|].
    apply sort_StronglySorted; [apply byRatingOrZero_total | apply byRatingOrZero_trans].
Qed.

End KeywordFallback.

(** C5, as stated, fails on the default window: for the figure 5000 and no
    direction word [getFallbackResults] asks for the prices from 0, not from
    5000 - 10000, up to 15000. *)
Lemma keyword_fallback_window_is_clamped :
  let svc := Fixtures.services (Fixtures.chat_ok "") false [] Fixtures.catalog
                               Fixtures.no_parse in
  queries_catalog_with svc
    (Filters.mk None (Some 0%Q) (Some 15000%Q) None None None None None None None None)
    (QueryProcessor.getFallbackResults svc "phone 5k")
  /\ (exists phones s',
        QueryProcessor.getFallbackResults svc "phone 5k" Fixtures.start = (Returned phones, s')
        /\ calls s'
           = [ CallGetDatabase;
               CallExecute [ "SELECT * FROM phones WHERE 1=1"; " AND price_inr >= ?";
                             " AND price_inr <= ?";
                             " ORDER BY user_rating DESC, price_inr ASC LIMIT 50" ]
                           [SqlNum 0%Q; SqlNum 15000%Q] ])
  /\ PricePattern.spec_priceFigure (Js.chars "phone 5k") = Some 5000%Q
  /\ ~ (0 == 5000 - 10000)%Q.
Proof.
  intros svc. split; [intros s; vm_compute; reflexivity|].
  split; [eexists _, _; split; vm_compute; reflexivity|].
  split; [vm_compute; reflexivity|]. intros H. vm_compute in H. discriminate H.
Qed.

(** The class [[k,K]] of the pattern also takes a comma for a "k": the
    message below has no figure in the sense of the specification, yet the
    fallback bounds the price by 20000. *)
Lemma keyword_fallback_reads_comma_as_k :
  QueryProcessor.fallbackFilters "phones under 20, please"
  = Filters.mk None None (Some 20000%Q) None None None None None None None None
  /\ PricePattern.spec_priceFigure (Js.chars "phones under 20, please") = None.
Proof. split; vm_compute; reflexivity. Qed.

(** The second alternative of the pattern asks for the characters that
    stand where a rupee sign was meant: a figure of four to six digits
    with nothing in front is not read, and the fallback leaves the price
    open. *)
Lemma keyword_fallback_misses_plain_digits :
  QueryProcessor.fallbackFilters "phones under 15000" = Filters.empty
  /\ PricePattern.spec_priceFigure (Js.chars "phones under 15000") = Some 15000%Q.
Proof. split; vm_compute; reflexivity. Qed.

(** C5, amended: for the message "best samsung phone under 20k",
    [getFallbackResults] asks the catalog for exactly the Filters
    {maxPrice: 20000, company: "samsung"}.  In general it asks for filters
    that bound only the price and the company.  For a message without comma
    and without four digits in a row, the price figure is the leftmost match
    of [\d{1,3}[kK]] (times 1000); "under"/"below" make it the upper bound,
    otherwise "above"/"over" make it the lower bound, otherwise the bounds
    are the figure plus 10,000 and the figure minus 10,000 but not below 0.
    The company is the first brand of the fixed list that is a word of the
    lower-cased message, as it is or with a final "s", with "iphone" mapped
    to "apple".  The phones returned are at most 8 of the rows the catalog
    answers with, sorted by rating descending. *)
Theorem keyword_fallback_filters
    {W : Type} (svc : Services W) (query : string) :
  queries_catalog_with svc
    (Filters.mk (Some "samsung") None (Some 20000%Q) None None None None None None None None)
    (QueryProcessor.getFallbackResults svc "best samsung phone under 20k")
  /\ (exists filters,
        queries_catalog_with svc filters (QueryProcessor.getFallbackResults svc query)
        /\ only_price_and_company filters
        /\ (plain_figures query ->
            price_bounds_of query (PricePattern.spec_priceFigure (Js.chars query)) filters)
        /\ brand_of (Js.split_ws (Js.toLowerCase query)) QueryProcessor.brands
                    (Filters.company filters))
  /\ returns_only (fun phones => List.length phones <= 8 /\ rating_descending phones)
                  (QueryProcessor.getFallbackResults svc query).
Proof.
  split; [|split].
  - intros s. unfold QueryProcessor.getFallbackResults.
    replace (QueryProcessor.fallbackFilters "best samsung phone under 20k")
      with (Filters.mk (Some "samsung") None (Some 20000%Q)
                       None None None None None None None None)
      by (vm_compute; reflexivity).
    reflexivity.
  - exists (QueryProcessor.fallbackFilters query).
    split; [intros s; reflexivity|]. split; [|split].
    + unfold only_price_and_company, QueryProcessor.fallbackFilters.
      destruct (match PricePattern.search (Js.chars query) with
                | Some priceMatch => _
                | None => _
                end) as [minPrice maxPrice].
      reflexivity.
    + intros [Hcomma Hdigits]. rewrite <- (search_spec _ Hcomma Hdigits).
      apply fallbackFilters_price.
    + unfold QueryProcessor.fallbackFilters.
      destruct (match PricePattern.search (Js.chars query) with
                | Some priceMatch => _
                | None => _
                end) as [minPrice maxPrice].
      cbn [Filters.company]. apply fallbackBrand_spec.
  - apply getFallbackResults_sorted.
Qed.

(** The keyword fallback on the message "oneplus phones above 30k", over
    the sample services: the statement it sends and what it returns. *)
Lemma keyword_fallback_filters_witness :
  let svc := Fixtures.services (Fixtures.chat_ok "") false [] Fixtures.catalog
                               Fixtures.no_parse in
  plain_figures "oneplus phones above 30k"
  /\ exists filters,
       queries_catalog_with svc filters
         (QueryProcessor.getFallbackResults svc "oneplus phones above 30k")
       /\ Filters.minPrice filters = Some 30000%Q /\ Filters.maxPrice filters = None
       /\ Filters.company filters = Some "oneplus".
Proof.
  intros svc.
  assert (Hplain : plain_figures "oneplus phones above 30k").
  { split; [|reflexivity].
    exact (bool_decide_eq_true_1
             (PricePattern.comma ∉ Js.chars "oneplus phones above 30k") eq_refl). }
  split; [exact Hplain|].
  destruct (keyword_fallback_filters svc "oneplus phones above 30k")
    as (_ & (filters & Hq & _ & Hprice & Hbrand) & _).
  exists filters. split; [exact Hq|].
  destruct (Hprice Hplain) as [Hmin Hmax]. split; [exact Hmin|]. split; [exact Hmax|].
  destruct (Filters.company filters) as [b|].
  - destruct Hbrand as (skipped & brand & rest & Hbs & Hskipped & Hbrand & ->).
    unfold QueryProcessor.brands in Hbs.
    destruct skipped as [|x1 [|x2 [|x3 [|x4 [|x5 skipped]]]]];
      inversion Hbs; subst; try discriminate Hbrand.
    + reflexivity.
    + apply Forall_cons in Hskipped as [_ Hskipped].
      apply Forall_cons in Hskipped as [_ Hskipped].
      apply Forall_cons in Hskipped as [_ Hskipped].
      apply Forall_cons in Hskipped as [_ Hskipped].
      apply Forall_cons in Hskipped as [Hone _]. discriminate Hone.
  - apply Forall_cons in Hbrand as [_ Hbrand].
    apply Forall_cons in Hbrand as [_ Hbrand].
    apply Forall_cons in Hbrand as [_ Hbrand].
    apply Forall_cons in Hbrand as [_ Hbrand].
    apply Forall_cons in Hbrand as [Hone _]. discriminate Hone.
Defined.

(* ================================================================== *)
(** * C8: the fallback matcher *)
(* ================================================================== *)

Section EditDistance.
Import Similarity.

Lemma lev_nil_r a : lev a [] = List.length a.
Proof. destruct a; reflexivity. Qed.

Lemma lev_cons x y a b :
  lev (x :: a) (y :: b)
  = if bool_decide (x = y) then lev a b
    else S (Nat.min (Nat.min (lev a b) (lev (x :: a) b)) (lev a (y :: b))).
Proof. reflexivity. Qed.

Lemma lev_sym a : forall b, lev a b = lev b a.
Proof.
  induction a as [|x a IHa]; intros b.
  - rewrite lev_nil_r. reflexivity.
  - induction b as [|y b IHb].
    + reflexivity.
    + rewrite !lev_cons. rewrite (IHa b), (IHa (y :: b)), IHb.
      destruct (bool_decide (x = y)) eqn:E.
      * apply bool_decide_eq_true_1 in E. subst. rewrite bool_decide_eq_true_2; reflexivity.
      * apply bool_decide_eq_false_1 in E. rewrite bool_decide_eq_false_2 by congruence. lia.
Qed.

(** Removing the first character of either string changes the distance
    by at most one. *)
Lemma lev_step n : forall a b, List.length a + List.length b <= n ->
  (forall x, lev (x :: a) b <= S (lev a b))
  /\ (forall y, lev a b <= S (lev a (y :: b))).
Proof.
  induction n as [|n IH]; intros a b Hn.
  - destruct a, b; cbn in Hn; try lia. split; intros; cbn; lia.
  - split.
    + intros x. destruct b as [|y b]; [rewrite !lev_nil_r; cbn; lia|].
      rewrite lev_cons. destruct (bool_decide (x = y)) eqn:E; [|lia].
      apply bool_decide_eq_true_1 in E. subst y.
      apply (IH a b). cbn in Hn. lia.
    + intros y. destruct a as [|x a]; [cbn; lia|].
      rewrite (lev_cons x y). cbn in Hn.
      destruct (IH a b ltac:(lia)) as [Hdel Hins].
      destruct (bool_decide (x = y)); [apply Hdel|].
      pose proof (Hdel x). pose proof (Hins y). lia.
Qed.

Lemma lev_delete x a b : lev (x :: a) b <= S (lev a b).
Proof. exact (proj1 (lev_step _ a b (le_n _)) x). Qed.

Lemma lev_insert y a b : lev a (y :: b) <= S (lev a b).
Proof. rewrite (lev_sym a (y :: b)), (lev_sym a b). apply lev_delete. Qed.

Lemma lev_subst x y a b : lev (x :: a) (y :: b) <= S (lev a b).
Proof. rewrite lev_cons. destruct (bool_decide (x = y)); lia. Qed.

(** [lev] is the cost of a cheapest edit script. *)
Lemma edit_lev a : forall b, edit a b (lev a b).
Proof.
  induction a as [|x a IHa]; intros b.
  - induction b as [|y b IHb]; [constructor|]. cbn in *. apply edit_insert, IHb.
  - induction b as [|y b IHb].
    + specialize (IHa []). rewrite lev_nil_r in *. cbn. apply edit_delete, IHa.
    + rewrite lev_cons. destruct (bool_decide (x = y)) eqn:E.
      * apply bool_decide_eq_true_1 in E. subst. apply edit_keep, IHa.
      * destruct (Nat.min_spec (Nat.min (lev a b) (lev (x :: a) b)) (lev a (y :: b)))
          as [[_ ->]|[_ ->]]; [|apply edit_delete, IHa].
        destruct (Nat.min_spec (lev a b) (lev (x :: a) b)) as [[_ ->]|[_ ->]].
        -- apply edit_subst, IHa.
        -- apply edit_insert, IHb.
Qed.

Lemma lev_le_edit a b n : edit a b n -> lev a b <= n.
Proof.
  induction 1 as [|x a b n _ IH|x y a b n _ IH|x a b n _ IH|y a b n _ IH].
  - reflexivity.
  - rewrite lev_cons, bool_decide_eq_true_2 by reflexivity. exact IH.
  - pose proof (lev_subst x y a b). lia.
  - pose proof (lev_delete x a b). lia.
  - pose proof (lev_insert y a b). lia.
Qed.

(** Scripts can be extended at the end as well as at the front. *)
Lemma edit_keep_end x a b n : edit a b n -> edit (a ++ [x]) (b ++ [x]) n.
Proof. induction 1; cbn; try (constructor; assumption). apply edit_keep, edit_nil. Qed.

Lemma edit_subst_end x y a b n : edit a b n -> edit (a ++ [x]) (b ++ [y]) (S n).
Proof. induction 1; cbn; try (constructor; assumption). apply edit_subst, edit_nil. Qed.

Lemma edit_delete_end x a b n : edit a b n -> edit (a ++ [x]) b (S n).
Proof. induction 1; cbn; try (constructor; assumption). apply edit_delete, edit_nil. Qed.

Lemma edit_insert_end y a b n : edit a b n -> edit a (b ++ [y]) (S n).
Proof. induction 1; cbn; try (constructor; assumption). apply edit_insert, edit_nil. Qed.

Lemma edit_rev a b n : edit a b n -> edit (rev a) (rev b) n.
Proof.
  induction 1; cbn.
  - constructor.
  - apply edit_keep_end. assumption.
  - apply edit_subst_end. assumption.
  - apply edit_delete_end. assumption.
  - apply edit_insert_end. assumption.
Qed.

Lemma lev_rev a b : lev (rev a) (rev b) = lev a b.
Proof.
  apply Nat.le_antisymm.
  - apply lev_le_edit, edit_rev, edit_lev.
  - rewrite <- (rev_involutive a), <- (rev_involutive b) at 1.
    apply lev_le_edit, edit_rev, edit_lev.
Qed.

(** The recurrence on the last characters, which the table follows. *)
Lemma lev_snoc a b x y :
  lev (a ++ [x]) (b ++ [y])
  = if bool_decide (x = y) then lev a b
    else S (Nat.min (Nat.min (lev a b) (lev (a ++ [x]) b)) (lev a (b ++ [y]))).
Proof.
  rewrite <- (lev_rev (a ++ [x]) (b ++ [y])), !rev_unit, lev_cons.
  rewrite <- (lev_rev (a ++ [x]) b), <- (lev_rev a (b ++ [y])), !rev_unit, lev_rev.
  reflexivity.
Qed.

Lemma lev_same a : lev a a = 0.
Proof.
  induction a as [|x a IH]; [reflexivity|].
  rewrite lev_cons, bool_decide_eq_true_2 by reflexivity. exact IH.
Qed.

(** Strings without a common character are as far apart as can be. *)
Lemma lev_disjoint a : forall b,
  disjoint_chars a b -> lev a b = Nat.max (List.length a) (List.length b).
Proof.
  induction a as [|x a IHa]; intros b Hd.
  - cbn. lia.
  - induction b as [|y b IHb].
    + cbn. lia.
    + assert (Hxy : x <> y).
      { intros ->. apply (Hd y); left. }
      assert (Hab : disjoint_chars a b).
      { intros z Ha Hb. apply (Hd z); right; assumption. }
      assert (Hxab : disjoint_chars (x :: a) b).
      { intros z Ha Hb. apply (Hd z); [exact Ha | right; exact Hb]. }
      assert (Hayb : disjoint_chars a (y :: b)).
      { intros z Ha Hb. apply (Hd z); [right; exact Ha | exact Hb]. }
      rewrite lev_cons, bool_decide_eq_false_2 by exact Hxy.
      rewrite (IHa b Hab), (IHb Hxab), (IHa (y :: b) Hayb). cbn [List.length]. lia.
Qed.

End EditDistance.

Section Table.
Import Similarity.

Lemma array_get_middle (P R : list nat) k x :
  List.length P = k -> Js.array_get (P ++ x :: R) k = x.
Proof.
  intros <-. unfold Js.array_get. rewrite lookup_app_r by lia.
  rewrite Nat.sub_diag. reflexivity.
Qed.

Lemma array_get_middle_S (P R : list nat) k x y :
  List.length P = k -> Js.array_get (P ++ x :: y :: R) (S k) = y.
Proof.
  intros <-. unfold Js.array_get. rewrite lookup_app_r by lia.
  replace (S (List.length P) - List.length P) with 1 by lia. reflexivity.
Qed.

Lemma array_set_middle (P R : list nat) k x v :
  List.length P = k -> Js.array_set (P ++ x :: R) k v = P ++ v :: R.
Proof.
  intros <-. unfold Js.array_set. rewrite decide_True.
  - rewrite <- (Nat.add_0_r (List.length P)) at 1. rewrite insert_app_r. reflexivity.
  - rewrite length_app. cbn. lia.
Qed.

Lemma array_set_end (P : list nat) v : Js.array_set P (List.length P) v = P ++ [v].
Proof.
  unfold Js.array_set. rewrite decide_False by lia. rewrite Nat.sub_diag. reflexivity.
Qed.

Context (s1 s2 : string).
Let a := Js.chars s1.
Let b := Js.chars s2.
Let m := List.length a.
Let n := List.length b.
Let D := prefix_distance s1 s2.

Lemma D_0_j j : j <= n -> D 0 j = j.
Proof.
  intros H. unfold D, prefix_distance. change (List.length (take j b) = j).
  rewrite length_take. fold n. lia.
Qed.

Lemma D_i_0 i : i <= m -> D i 0 = i.
Proof.
  intros H. unfold D, prefix_distance. fold a b. change (take 0 b) with (@nil ascii).
  rewrite lev_nil_r, length_take. fold m. lia.
Qed.

Lemma D_step i j x y :
  a !! i = Some x -> b !! j = Some y ->
  D (S i) (S j)
  = if bool_decide (x = y) then D i j
    else S (Nat.min (Nat.min (D i j) (D (S i) j)) (D i (S j))).
Proof.
  intros Ha Hb. unfold D, prefix_distance. fold a b.
  rewrite (take_S_r a i x Ha), (take_S_r b j y Hb). apply lev_snoc.
Qed.

(** The first row: [costs[j] = j]. *)
Lemma inner_row0 lastValue k :
  foldl (inner_step s1 s2 0) ([], lastValue) (seq 0 k) = (seq 0 k, lastValue).
Proof.
  induction k as [|k IH]; [reflexivity|].
  rewrite seq_S, foldl_app, IH. cbn [foldl Nat.add]. unfold inner_step. cbn [Nat.eqb].
  pose proof (array_set_end (seq 0 k) k) as E. rewrite length_seq in E.
  rewrite E. reflexivity.
Qed.

(** The state of the inner loop of row [S i] after column [k]. *)
Lemma inner_row i k :
  i < m -> k <= n ->
  foldl (inner_step s1 s2 (S i)) (map (D i) (seq 0 (S n)), S i) (seq 0 (S k))
  = (map (D (S i)) (seq 0 k) ++ map (D i) (seq k (S n - k)), D (S i) k).
Proof.
  intros Hi. induction k as [|k IH]; intros Hk.
  - cbn [seq foldl inner_step]. cbn [Nat.eqb Nat.ltb Nat.leb].
    rewrite Nat.sub_0_r, D_i_0 by lia. reflexivity.
  - rewrite (seq_S (S k) 0), foldl_app, IH by lia. cbn [foldl Nat.add].
    unfold inner_step. cbn [Nat.eqb]. replace (0 <? S k) with true by reflexivity.
    replace (S k - 1) with k by lia. replace (S i - 1) with i by lia.
    replace (S n - k) with (S (S (n - S k))) by lia. cbn [seq map].
    assert (HP : List.length (map (D (S i)) (seq 0 k)) = k)
      by (rewrite length_map, length_seq; reflexivity).
    rewrite (array_get_middle _ _ _ _ HP), (array_get_middle_S _ _ _ _ _ HP),
      (array_set_middle _ _ _ _ _ HP).
    destruct (lookup_lt_is_Some_2 a i Hi) as [x Hx].
    destruct (lookup_lt_is_Some_2 b k ltac:(subst n; lia)) as [y Hy].
    unfold Js.charAt. fold a b. rewrite Hx, Hy.
    rewrite (D_step i k x y Hx Hy). f_equal.
    + change (D (S i) 0 :: map (D (S i)) (seq 1 k)) with (map (D (S i)) (seq 0 (S k))).
      rewrite (seq_S k 0), map_app, <- app_assoc.
      replace (S n - S k) with (S (n - S k)) by lia. reflexivity.
    + unfold Js.char_neq. destruct (bool_decide (x = y)) eqn:E.
      * apply bool_decide_eq_true_1 in E. subst. rewrite bool_decide_eq_true_2; reflexivity.
      * apply bool_decide_eq_false_1 in E.
        rewrite bool_decide_eq_false_2 by congruence. cbn [negb]. lia.
Qed.

(** After row [k] the array holds that row of the table. *)
Lemma outer_rows k :
  k <= m ->
  foldl (outer_step s1 s2) [] (seq 0 (S k)) = map (D k) (seq 0 (S n)).
Proof.
  induction k as [|k IH]; intros Hk.
  - change (seq 0 1) with [0]. cbn [foldl]. unfold outer_step, Js.length. fold b. fold n.
    rewrite inner_row0. cbn [Nat.ltb Nat.leb].
    apply list_eq. intros j. rewrite list_lookup_fmap.
    destruct (decide (j < S n)) as [Hj|Hj].
    + rewrite lookup_seq_lt by exact Hj. change (Some (0 + j) = Some (D 0 (0 + j))).
      rewrite D_0_j by lia. reflexivity.
    + rewrite lookup_seq_ge by lia. reflexivity.
  - rewrite (seq_S (S k) 0), foldl_app, IH by lia. cbn [foldl Nat.add].
    unfold outer_step, Js.length. fold b. fold n. rewrite (inner_row k n) by lia.
    replace (0 <? S k) with true by reflexivity.
    replace (S n - n) with 1 by lia. change (seq n 1) with [n].
    change (map (D k) [n]) with [D k n].
    rewrite array_set_middle by (rewrite length_map, length_seq; reflexivity).
    rewrite (seq_S n 0), map_app. reflexivity.
Qed.

(** [levenshteinDistance] computes the edit distance. *)
Lemma levenshteinDistance_lev : levenshteinDistance s1 s2 = lev a b.
Proof.
  unfold levenshteinDistance, Js.length. fold a b. fold m n. rewrite (outer_rows m) by lia.
  unfold Js.array_get. rewrite list_lookup_fmap, lookup_seq_lt by lia. cbn.
  unfold D, prefix_distance. fold a b. subst m n. rewrite !firstn_all. reflexivity.
Qed.

End Table.

Lemma levenshteinDistance_correct (s1 s2 : string) :
  Similarity.levenshteinDistance s1 s2 = Similarity.lev (Js.chars s1) (Js.chars s2).
Proof. exact (levenshteinDistance_lev s1 s2). Qed.

Lemma inject_nat_nonzero n : 0 < n -> ~ (inject_Z (Z.of_nat n) == 0)%Q.
Proof. intros Hn H. unfold Qeq in H. cbn in H. lia. Qed.

(** Away from two empty strings, the code computes the similarity of the
    specification. *)
Lemma stringSimilarity_formula (a b : string) :
  0 < Nat.max (Js.length a) (Js.length b) ->
  Similarity.stringSimilarity a b = Similarity.spec_similarity a b.
Proof.
  intros Hmax. unfold Similarity.stringSimilarity, Similarity.spec_similarity.
  destruct (Js.length b <? Js.length a) eqn:E.
  - apply Nat.ltb_lt in E. rewrite Nat.max_l by lia.
    replace (Js.length a =? 0) with false by (symmetry; apply Nat.eqb_neq; lia).
    rewrite levenshteinDistance_correct. reflexivity.
  - apply Nat.ltb_ge in E. rewrite Nat.max_r in * by lia.
    replace (Js.length b =? 0) with false by (symmetry; apply Nat.eqb_neq; lia).
    rewrite levenshteinDistance_correct, lev_sym. reflexivity.
Qed.

(** C8, as stated, fails: "abc" and "bca" have equal length and differ in
    every position, yet one deletion and one insertion turn one into the
    other, so they score 1/3. *)
Lemma similarity_of_rotated_strings :
  Js.length "abc" = Js.length "bca"
  /\ Similarity.differ_everywhere (Js.chars "abc") (Js.chars "bca") = true
  /\ Similarity.stringSimilarity "abc" "bca" = (1 # 3)%Q
  /\ ~ (1 # 3 == 0)%Q.
Proof.
  split; [reflexivity|]. split; [reflexivity|]. split; [vm_compute; reflexivity|].
  intros H. discriminate H.
Qed.

(** C8, amended: [levenshteinDistance] computes the edit distance, and for
    all strings a and b that are not both empty
    [stringSimilarity(a, b) = (max(|a|,|b|) - levenshtein(a,b)) / max(|a|,|b|)];
    two empty strings score 1.0.  Identical strings score exactly 1.0, and
    two strings of equal non-zero length that have no character in common
    score exactly 0.0. *)
Theorem stringSimilarity_spec (a b : string) :
  Similarity.levenshteinDistance a b = Similarity.lev (Js.chars a) (Js.chars b)
  /\ (0 < Nat.max (Js.length a) (Js.length b) ->
      Similarity.stringSimilarity a b = Similarity.spec_similarity a b)
  /\ Similarity.stringSimilarity "" "" = 1%Q
  /\ (Similarity.stringSimilarity a a == 1)%Q
  /\ (Js.length a = Js.length b -> 0 < Js.length a ->
      Similarity.disjoint_chars (Js.chars a) (Js.chars b) ->
      (Similarity.stringSimilarity a b == 0)%Q).
Proof.
  split; [apply levenshteinDistance_correct|].
  split; [apply stringSimilarity_formula|].
  split; [reflexivity|]. split.
  - destruct (Nat.eq_dec (Js.length a) 0) as [E|E].
    + unfold Similarity.stringSimilarity. rewrite Nat.ltb_irrefl, E. reflexivity.
    + rewrite stringSimilarity_formula by lia. unfold Similarity.spec_similarity.
      rewrite lev_same, Nat.max_id. field. apply inject_nat_nonzero. lia.
  - intros Hlen Hpos Hd. rewrite stringSimilarity_formula by lia.
    unfold Similarity.spec_similarity. rewrite (lev_disjoint _ _ Hd).
    fold (Js.length a) (Js.length b). rewrite <- Hlen, Nat.max_id.
    field. apply inject_nat_nonzero. exact Hpos.
Qed.

(** Two strings of equal length without a common character. *)
Lemma stringSimilarity_spec_witness :
  (Similarity.stringSimilarity "abc" "xyz" == 0)%Q.
Proof.
  refine (proj2 (proj2 (proj2 (proj2 (stringSimilarity_spec "abc" "xyz")))) _ _ _).
  - reflexivity.
  - vm_compute. lia.
  - intros x Ha Hb. cbn in Ha, Hb.
    rewrite !elem_of_cons, elem_of_nil in Ha, Hb.
    destruct Ha as [->|[->|[->|[]]]]; destruct Hb as [H|[H|[H|[]]]]; discriminate H.
Defined.

(* ================================================================== *)
(** * The edit distance as a metric *)
(* ================================================================== *)

Section Metric.
Import Similarity.

Lemma lev_zero a : forall b, lev a b = 0 -> a = b.
Proof.
  induction a as [|x a IH]; intros [|y b] H; try reflexivity; try discriminate H.
  rewrite lev_cons in H. destruct (bool_decide (x = y)) eqn:E; [|discriminate H].
  apply bool_decide_eq_true_1 in E. subst y. f_equal. apply IH, H.
Qed.

Lemma lev_le_max a : forall b, lev a b <= Nat.max (List.length a) (List.length b).
Proof.
  induction a as [|x a IH]; intros [|y b]; cbn [List.length]; try (cbn; lia).
  pose proof (lev_subst x y a b). pose proof (IH b). lia.
Qed.

Lemma lev_ge_diff a : forall b,
  List.length a - List.length b <= lev a b /\ List.length b - List.length a <= lev a b.
Proof.
  induction a as [|x a IHa]; intros b.
  - cbn. lia.
  - induction b as [|y b IHb].
    + cbn. lia.
    + rewrite lev_cons. cbn [List.length].
      pose proof (IHa b). pose proof (IHa (y :: b)). cbn [List.length] in *.
      destruct (bool_decide (x = y)); lia.
Qed.

(** Edit scripts compose. *)
Lemma edit_trans a b n : edit a b n ->
  forall c m, edit b c m -> exists k, k <= n + m /\ edit a c k.
Proof.
  induction 1 as [|x a b n Hab IH|x y a b n Hab IH|x a b n Hab IH|y a b n Hab IH].
  - intros c m H. exists m. split; [lia | exact H].
  - intros c m H. remember (x :: b) as xb eqn:Exb. revert Exb.
    induction H as [|z b' c m Hbc _|z w b' c m Hbc _|z b' c m Hbc _|w b' c m Hbc IHin];
      intros Exb; try discriminate Exb.
    + inversion Exb. subst. destruct (IH _ _ Hbc) as (k & Hk & He).
      exists k. split; [lia | apply edit_keep, He].
    + inversion Exb. subst. destruct (IH _ _ Hbc) as (k & Hk & He).
      exists (S k). split; [lia | apply edit_subst, He].
    + inversion Exb. subst. destruct (IH _ _ Hbc) as (k & Hk & He).
      exists (S k). split; [lia | apply edit_delete, He].
    + destruct (IHin Exb) as (k & Hk & He).
      exists (S k). split; [lia | apply edit_insert, He].
  - intros c m H. remember (y :: b) as yb eqn:Eyb. revert Eyb.
    induction H as [|z b' c m Hbc _|z w b' c m Hbc _|z b' c m Hbc _|w b' c m Hbc IHin];
      intros Eyb; try discriminate Eyb.
    + inversion Eyb. subst. destruct (IH _ _ Hbc) as (k & Hk & He).
      exists (S k). split; [lia | apply edit_subst, He].
    + inversion Eyb. subst. destruct (IH _ _ Hbc) as (k & Hk & He).
      exists (S k). split; [lia | apply edit_subst, He].
    + inversion Eyb. subst. destruct (IH _ _ Hbc) as (k & Hk & He).
      exists (S k). split; [lia | apply edit_delete, He].
    + destruct (IHin Eyb) as (k & Hk & He).
      exists (S k). split; [lia | apply edit_insert, He].
  - intros c m H. destruct (IH _ _ H) as (k & Hk & He).
    exists (S k). split; [lia | apply edit_delete, He].
  - intros c m H. remember (y :: b) as yb eqn:Eyb. revert Eyb.
    induction H as [|z b' c m Hbc _|z w b' c m Hbc _|z b' c m Hbc _|w b' c m Hbc IHin];
      intros Eyb; try discriminate Eyb.
    + inversion Eyb. subst. destruct (IH _ _ Hbc) as (k & Hk & He).
      exists (S k). split; [lia | apply edit_insert, He].
    + inversion Eyb. subst. destruct (IH _ _ Hbc) as (k & Hk & He).
      exists (S k). split; [lia | apply edit_insert, He].
    + inversion Eyb. subst. destruct (IH _ _ Hbc) as (k & Hk & He).
      exists k. split; [lia | exact He].
    + destruct (IHin Eyb) as (k & Hk & He).
      exists (S k). split; [lia | apply edit_insert, He].
Qed.

Lemma lev_triangle a b c : lev a c <= lev a b + lev b c.
Proof.
  destruct (edit_trans _ _ _ (edit_lev a b) _ _ (edit_lev b c)) as (k & Hk & He).
  apply lev_le_edit in He. lia.
Qed.

Lemma chars_inj s t : Js.chars s = Js.chars t -> s = t.
Proof. intros H. rewrite <- (of_chars_chars s), <- (of_chars_chars t), H. reflexivity. Qed.

End Metric.

(** X3: the edit distance [levenshteinDistance] computes is a metric on
    strings: it is zero exactly for equal strings, symmetric, and obeys the
    triangle inequality. *)
Theorem levenshteinDistance_metric (a b c : string) :
  (Similarity.levenshteinDistance a b = 0 <-> a = b)
  /\ Similarity.levenshteinDistance a b = Similarity.levenshteinDistance b a
  /\ Similarity.levenshteinDistance a c
     <= Similarity.levenshteinDistance a b + Similarity.levenshteinDistance b c.
Proof.
  rewrite !levenshteinDistance_correct. split; [|split].
  - split.
    + intros H. apply chars_inj, lev_zero, H.
    + intros ->. apply lev_same.
  - apply lev_sym.
  - apply lev_triangle.
Qed.

(** X4: the edit distance of two strings is at least the difference of
    their lengths and at most the length of the longer one. *)
Theorem levenshteinDistance_bounds (a b : string) :
  Js.length a - Js.length b <= Similarity.levenshteinDistance a b
  /\ Js.length b - Js.length a <= Similarity.levenshteinDistance a b
  /\ Similarity.levenshteinDistance a b <= Nat.max (Js.length a) (Js.length b).
Proof.
  rewrite levenshteinDistance_correct. unfold Js.length.
  destruct (lev_ge_diff (Js.chars a) (Js.chars b)) as [H1 H2].
  split; [exact H1|]. split; [exact H2|]. apply lev_le_max.
Qed.

Lemma stringSimilarity_sym (a b : string) :
  Similarity.stringSimilarity a b = Similarity.stringSimilarity b a.
Proof.
  unfold Similarity.stringSimilarity.
  destruct (Js.length b <? Js.length a) eqn:E1; destruct (Js.length a <? Js.length b) eqn:E2.
  - apply Nat.ltb_lt in E1, E2. lia.
  - reflexivity.
  - reflexivity.
  - apply Nat.ltb_ge in E1, E2. assert (E : Js.length a = Js.length b) by lia.
    rewrite E. rewrite !levenshteinDistance_correct, (lev_sym (Js.chars a)). reflexivity.
Qed.

Lemma stringSimilarity_range (a b : string) :
  (0 <= Similarity.stringSimilarity a b <= 1)%Q.
Proof.
  destruct (Nat.eq_dec (Nat.max (Js.length a) (Js.length b)) 0) as [E|E].
  - unfold Similarity.stringSimilarity.
    destruct (Js.length b <? Js.length a).
    + replace (Js.length a =? 0) with true by (symmetry; apply Nat.eqb_eq; lia). lra.
    + replace (Js.length b =? 0) with true by (symmetry; apply Nat.eqb_eq; lia). lra.
  - rewrite stringSimilarity_formula by lia. unfold Similarity.spec_similarity.
    pose proof (lev_le_max (Js.chars a) (Js.chars b)) as Hle. fold (Js.length a) (Js.length b) in Hle.
    set (n := Nat.max (Js.length a) (Js.length b)) in *.
    set (d := Similarity.lev (Js.chars a) (Js.chars b)) in *.
    assert (Hn : (0 < inject_Z (Z.of_nat n))%Q).
    { rewrite <- (Zlt_Qlt 0). lia. }
    assert (Hd : (0 <= inject_Z (Z.of_nat d) <= inject_Z (Z.of_nat n))%Q).
    { split; [rewrite <- (Zle_Qle 0); lia | rewrite <- Zle_Qle; lia]. }
    split.
    + apply Qle_shift_div_l; [exact Hn | lra].
    + apply Qle_shift_div_r; [exact Hn | lra].
Qed.

Lemma stringSimilarity_one (a b : string) :
  (Similarity.stringSimilarity a b == 1)%Q <-> a = b.
Proof.
  split.
  - intros H. destruct (Nat.eq_dec (Nat.max (Js.length a) (Js.length b)) 0) as [E|E].
    + apply chars_inj. unfold Js.length in E.
      destruct (Js.chars a), (Js.chars b); cbn in E; try lia. reflexivity.
    + rewrite stringSimilarity_formula in H by lia. unfold Similarity.spec_similarity in H.
      set (n := Nat.max (Js.length a) (Js.length b)) in *.
      set (d := Similarity.lev (Js.chars a) (Js.chars b)) in *.
      assert (Hn : ~ (inject_Z (Z.of_nat n) == 0)%Q) by (apply inject_nat_nonzero; lia).
      assert (Hd : (inject_Z (Z.of_nat d) == 0)%Q).
      { assert (H' : ((inject_Z (Z.of_nat n) - inject_Z (Z.of_nat d)) / inject_Z (Z.of_nat n)
                      * inject_Z (Z.of_nat n) == 1 * inject_Z (Z.of_nat n))%Q)
          by (rewrite H; reflexivity).
        rewrite Qmult_comm, Qmult_div_r in H' by exact Hn. lra. }
      apply chars_inj, lev_zero. unfold Qeq in Hd. cbn in Hd. fold d. lia.
  - intros ->.
    destruct (Nat.eq_dec (Js.length b) 0) as [E|E].
    + unfold Similarity.stringSimilarity. rewrite Nat.ltb_irrefl, E. reflexivity.
    + rewrite stringSimilarity_formula by lia. unfold Similarity.spec_similarity.
      rewrite lev_same, Nat.max_id. field. apply inject_nat_nonzero. lia.
Qed.

(** X5: the similarity score does not depend on the order of its two
    arguments, lies between 0 and 1, and is 1 exactly when the two strings
    are equal. *)
Theorem stringSimilarity_symmetric_bounded_exact (a b : string) :
  Similarity.stringSimilarity a b = Similarity.stringSimilarity b a
  /\ (0 <= Similarity.stringSimilarity a b <= 1)%Q
  /\ ((Similarity.stringSimilarity a b == 1)%Q <-> a = b).
Proof.
  split; [apply stringSimilarity_sym|].
  split; [apply stringSimilarity_range | apply stringSimilarity_one].
Qed.

(* ================================================================== *)
(** * The fallback matcher and the correction of brands *)
(* ================================================================== *)

Section Fuzzy.
Context {W : Type} (svc : Services W).
Import VectorClient.

Lemma byScore_before a b :
  byScore a b = true <-> (VectorSearchResult.score b <= VectorSearchResult.score a)%Q.
Proof. unfold byScore. rewrite Qle_bool_iff. split; intros H; lra. Qed.

Lemma byScore_total a b : byScore a b = false -> byScore b a = true.
Proof.
  intros H. apply byScore_before.
  destruct (Qlt_le_dec (VectorSearchResult.score a) (VectorSearchResult.score b)) as [Hlt|Hle].
  - apply Qlt_le_weak, Hlt.
  - apply byScore_before in Hle. congruence.
Qed.

Lemma byScore_trans a b c : byScore a b = true -> byScore b c = true -> byScore a c = true.
Proof. rewrite !byScore_before. intros. lra. Qed.

Lemma rank_sort results : rank results = take 5 (Sort.sort byScore results).
Proof. reflexivity. Qed.

Lemma rank_ranked results :
  Forall fuzzy_candidate results ->
  List.length (rank results) <= 5 /\ score_descending (rank results)
  /\ Forall fuzzy_candidate (rank results).
Proof.
  intros Hall. rewrite rank_sort. split; [rewrite length_take; lia|]. split.
  - apply StronglySorted_take.
    eapply StronglySorted_weaken; [intros a b; apply byScore_before|].
    apply sort_StronglySorted; [apply byScore_total | apply byScore_trans].
  - apply Forall_take. eapply Permutation_Forall; [symmetry; apply sort_Permutation|].
    exact Hall.
Qed.

Lemma elem_of_company_candidates queryLower companies r :
  r ∈ company_candidates queryLower companies <->
  exists company,
    company ∈ companies
    /\ (1 # 2 < stringSimilarity queryLower (Js.toLowerCase company))%Q
    /\ r = VectorSearchResult.mk ("company-" +:+ company)
             (stringSimilarity queryLower (Js.toLowerCase company))
             (Some (Metadata.mk "company" company None None)).
Proof.
  unfold company_candidates. rewrite list_elem_of_omap. split.
  - intros (company & Hin & H).
    destruct (Qlt_le_dec (1 # 2) (stringSimilarity queryLower (Js.toLowerCase company)))
      as [Hlt|Hle]; [|discriminate H].
    inversion H. exists company. repeat split; assumption.
  - intros (company & Hin & Hlt & ->). exists company. split; [exact Hin|].
    destruct (Qlt_le_dec (1 # 2) (stringSimilarity queryLower (Js.toLowerCase company)))
      as [Hlt'|Hle]; [reflexivity | lra].
Qed.

Lemma company_candidates_fuzzy queryLower companies :
  Forall fuzzy_candidate (company_candidates queryLower companies).
Proof.
  apply Forall_forall. intros r Hr.
  apply elem_of_company_candidates in Hr as (company & _ & Hlt & ->).
  repeat split; cbn; [exact Hlt | apply stringSimilarity_range | eexists; reflexivity].
Qed.

Lemma model_candidates_fuzzy queryLower phones :
  Forall fuzzy_candidate (model_candidates queryLower phones).
Proof.
  unfold model_candidates. apply Forall_forall. intros r Hr.
  apply list_elem_of_fmap in Hr as (phone & -> & _).
  pose proof (stringSimilarity_range queryLower (Js.toLowerCase (Phone.model_name phone))) as [_ H1].
  repeat split; cbn; [| |eexists; reflexivity].
  - apply Qlt_le_trans with (6 # 10)%Q; [reflexivity | apply Q.le_max_r].
  - apply Q.max_lub; [exact H1 | discriminate].
Qed.

Lemma fallbackSimilar_ranked query typeFilter :
  returns_only (fun results =>
                  List.length results <= 5 /\ score_descending results
                  /\ Forall fuzzy_candidate results)
               (fallbackSimilar svc query typeFilter).
Proof.
  unfold fallbackSimilar.
  eapply (returns_only_bind_post (Forall fuzzy_candidate)).
  - destruct typeFilter as [[]|]; repeat returns_only_step;
      solve [apply company_candidates_fuzzy | constructor].
  - intros results Hres. eapply (returns_only_bind_post (Forall fuzzy_candidate)).
    + destruct typeFilter as [[]|]; repeat returns_only_step; try exact Hres;
        (apply Forall_app_2; [exact Hres | apply model_candidates_fuzzy]).
    + intros results' Hres'. apply returns_only_ret. apply rank_ranked, Hres'.
Qed.

End Fuzzy.

(** X6: whatever the catalog returns, the fallback matcher
    [fallbackSimilar] returns at most five candidates, by descending score;
    each has a score above 0.5 and at most 1, and carries metadata. *)
Theorem fallbackSimilar_at_most_five_ranked
    {W : Type} (svc : Services W) (query : string) (typeFilter : option TypeFilter)
    (s s' : St W) (results : list VectorSearchResult.t) :
  VectorClient.fallbackSimilar svc query typeFilter s = (Returned results, s') ->
  List.length results <= 5 /\ score_descending results /\ Forall fuzzy_candidate results.
Proof. intros H. exact (fallbackSimilar_ranked svc query typeFilter _ _ _ H). Qed.

(** The fallback matcher on the token "blkbery" over a catalog whose only
    company is "blackberry". *)
Lemma fallbackSimilar_at_most_five_ranked_witness :
  let results := [VectorSearchResult.mk "company-blackberry" (7 # 10)
                    (Some (Metadata.mk "company" "blackberry" None None))] in
  List.length results <= 5 /\ score_descending results /\ Forall fuzzy_candidate results.
Proof.
  apply (fallbackSimilar_at_most_five_ranked
           (Fixtures.services (Fixtures.chat_ok "") false []
              [Fixtures.phone 5 "blackberry" "key2" 4 30000] Fixtures.no_parse)
           "blkbery" (Some TfCompany) Fixtures.start
           (mkSt tt [CallGetDatabase; CallCompanies] false)).
  vm_compute. reflexivity.
Defined.

(** X7: a brand token that equals a company of the catalog up to letter
    case is never replaced by a different brand: with the index
    unavailable, the correction step maps it to a company of the catalog
    that equals it up to letter case. *)
Theorem exact_brand_survives_correction
    {W : Type} (svc : Services W) (token : string) (companies : list string) (s s' : St W) :
  Catalog.getCompanies svc s = (Returned companies, s') ->
  (exists company, company ∈ companies /\ Js.toLowerCase company = Js.toLowerCase token) ->
  exists similar corrected,
    VectorClient.fallbackSimilar svc token (Some TfCompany) s = (Returned similar, s')
    /\ QueryProcessor.correctToken token similar = Returned corrected
    /\ corrected ∈ companies
    /\ Js.toLowerCase corrected = Js.toLowerCase token.
Proof.
  intros Hget (company & Hin & Hlow).
  set (cands := VectorClient.company_candidates (Js.toLowerCase token) companies).
  assert (Hrun : VectorClient.fallbackSimilar svc token (Some TfCompany) s
                 = (Returned (VectorClient.rank cands), s')).
  { unfold VectorClient.fallbackSimilar.
    rewrite (bind_run _ _ _ _ _ (bind_run _ _ _ _ _ Hget)). reflexivity. }
  assert (Hone : (VectorClient.stringSimilarity (Js.toLowerCase token) (Js.toLowerCase company)
                  == 1)%Q).
  { apply stringSimilarity_one. symmetry. exact Hlow. }
  assert (Hexact : VectorSearchResult.mk ("company-" +:+ company)
                     (VectorClient.stringSimilarity (Js.toLowerCase token) (Js.toLowerCase company))
                     (Some (Metadata.mk "company" company None None)) ∈ cands).
  { apply elem_of_company_candidates. exists company. split; [exact Hin|].
    split; [rewrite Hone; reflexivity | reflexivity]. }
  rewrite rank_sort in Hrun.
  destruct (Sort.sort byScore cands) as [|top rest] eqn:Esort.
  { pose proof (sort_Permutation byScore cands) as Hp. rewrite Esort in Hp.
    apply Permutation_length in Hp. destruct cands; [|discriminate Hp].
    apply elem_of_nil in Hexact. contradiction. }
  destruct (sort_head_first byScore byScore_total byScore_trans cands top rest Esort)
    as [Htop Hfirst].
  apply elem_of_company_candidates in Htop as (best & Hbest & _ & ->).
  specialize (Hfirst _ Hexact). apply byScore_before in Hfirst.
  cbn [VectorSearchResult.score] in Hfirst. rewrite Hone in Hfirst.
  pose proof (stringSimilarity_range (Js.toLowerCase token) (Js.toLowerCase best)) as [_ Hle].
  exists (take 5 (VectorSearchResult.mk ("company-" +:+ best)
                    (VectorClient.stringSimilarity (Js.toLowerCase token) (Js.toLowerCase best))
                    (Some (Metadata.mk "company" best None None)) :: rest)), best.
  split; [exact Hrun|]. split.
  - cbn [take QueryProcessor.correctToken VectorSearchResult.score
          VectorSearchResult.metadata Metadata.value].
    destruct (Qlt_le_dec (7 # 10) _) as [_|Hbad]; [reflexivity | lra].
  - split; [exact Hbest|]. symmetry. apply stringSimilarity_one.
    unfold VectorClient.stringSimilarity in *. lra.
Qed.

(** The token "BlackBerry" over a catalog that spells the company
    "blackberry". *)
Lemma exact_brand_survives_correction_witness :
  exists similar corrected,
    VectorClient.fallbackSimilar
      (Fixtures.services (Fixtures.chat_ok "") false []
         [Fixtures.phone 5 "blackberry" "key2" 4 30000] Fixtures.no_parse)
      "BlackBerry" (Some TfCompany) Fixtures.start
    = (Returned similar, mkSt tt [CallGetDatabase; CallCompanies] false)
    /\ QueryProcessor.correctToken "BlackBerry" similar = Returned corrected
    /\ corrected ∈ ["blackberry"]
    /\ Js.toLowerCase corrected = Js.toLowerCase "BlackBerry".
Proof.
  apply (exact_brand_survives_correction
           (Fixtures.services (Fixtures.chat_ok "") false []
              [Fixtures.phone 5 "blackberry" "key2" 4 30000] Fixtures.no_parse)
           "BlackBerry" ["blackberry"] Fixtures.start
           (mkSt tt [CallGetDatabase; CallCompanies] false)).
  - vm_compute. reflexivity.
  - exists "blackberry". split; [left | vm_compute; reflexivity].
Defined.

(* ================================================================== *)
(** * Merged filters and the filtered query, together *)
(* ================================================================== *)

Section MergeAgain.
Import QueryProcessor.

Lemma mergeBound_idem tighter constraint caller :
  (forall c, tighter c c = false) ->
  mergeBound tighter constraint (mergeBound tighter constraint caller)
  = mergeBound tighter constraint caller.
Proof.
  intros Hirr. unfold mergeBound. destruct constraint as [c|]; [|reflexivity].
  destruct (Js.truthy_num (Some c)) eqn:Ec; cbn [andb]; [|reflexivity].
  destruct (negb (Js.truthy_num caller)
            || match caller with Some m => tighter c m | None => false end) eqn:E.
  - rewrite Ec, Hirr. cbn. reflexivity.
  - rewrite E. reflexivity.
Qed.

Lemma gt_irrefl c : gt c c = false.
Proof. unfold gt. replace (Qle_bool c c) with true; [reflexivity|]. symmetry. apply Qle_bool_iff. lra. Qed.

Lemma lt_irrefl c : lt c c = false.
Proof. unfold lt. replace (Qle_bool c c) with true; [reflexivity|]. symmetry. apply Qle_bool_iff. lra. Qed.

Lemma mergeBound_gt_at_least constraint caller x :
  at_least (mergeBound gt constraint caller) x ->
  at_least constraint x /\ at_least caller x.
Proof.
  unfold at_least, mergeBound, gt, Js.truthy_num.
  destruct constraint as [c|], caller as [m|]; cbn.
  - destruct (Qeq_bool c 0) eqn:Ec; cbn.
    + apply Qeq_bool_iff in Ec. intros H. split.
      * intros v E Hv. inversion E. subst. contradiction.
      * exact H.
    + destruct (Qeq_bool m 0) eqn:Em; cbn.
      * apply Qeq_bool_iff in Em. intros H. split; [exact H|].
        intros v E Hv. inversion E. subst. contradiction.
      * apply Qeq_bool_neq in Ec, Em.
        destruct (Qle_bool c m) eqn:Ele; cbn; intros H.
        -- apply Qle_bool_iff in Ele. split.
           ++ intros v E Hv. inversion E. subst. specialize (H m eq_refl Em). lra.
           ++ exact H.
        -- assert (Hlt : (m < c)%Q).
           { destruct (Qlt_le_dec m c) as [Hl|Hl]; [exact Hl|].
             apply Qle_bool_iff in Hl. congruence. }
           split; [exact H|].
           intros v E Hv. inversion E. subst. specialize (H c eq_refl Ec). lra.
  - destruct (Qeq_bool c 0) eqn:Ec; cbn; intros H.
    + apply Qeq_bool_iff in Ec. split; [|exact H].
      intros v E Hv. inversion E. subst. contradiction.
    + split; [exact H|]. intros v E. discriminate E.
  - intros H. split; [|exact H]. intros v E. discriminate E.
  - intros H. split; exact H.
Qed.

Lemma mergeBound_lt_at_most constraint caller x :
  at_most (mergeBound lt constraint caller) x ->
  at_most constraint x /\ at_most caller x.
Proof.
  unfold at_most, mergeBound, lt, Js.truthy_num.
  destruct constraint as [c|], caller as [m|]; cbn.
  - destruct (Qeq_bool c 0) eqn:Ec; cbn.
    + apply Qeq_bool_iff in Ec. intros H. split.
      * intros v E Hv. inversion E. subst. contradiction.
      * exact H.
    + destruct (Qeq_bool m 0) eqn:Em; cbn.
      * apply Qeq_bool_iff in Em. intros H. split; [exact H|].
        intros v E Hv. inversion E. subst. contradiction.
      * apply Qeq_bool_neq in Ec, Em.
        destruct (Qle_bool m c) eqn:Ele; cbn; intros H.
        -- apply Qle_bool_iff in Ele. split.
           ++ intros v E Hv. inversion E. subst. specialize (H m eq_refl Em). lra.
           ++ exact H.
        -- assert (Hlt : (c < m)%Q).
           { destruct (Qlt_le_dec c m) as [Hl|Hl]; [exact Hl|].
             apply Qle_bool_iff in Hl. congruence. }
           split; [exact H|].
           intros v E Hv. inversion E. subst. specialize (H c eq_refl Ec). lra.
  - destruct (Qeq_bool c 0) eqn:Ec; cbn; intros H.
    + apply Qeq_bool_iff in Ec. split; [|exact H].
      intros v E Hv. inversion E. subst. contradiction.
    + split; [exact H|]. intros v E. discriminate E.
  - intros H. split; [|exact H]. intros v E. discriminate E.
  - intros H. split; exact H.
Qed.

Lemma within_at_least (bound : option Q) x :
  (forall v, bound = Some v -> (v <= x)%Q) -> at_least bound x.
Proof. intros H v E _. exact (H v E). Qed.

Lemma within_at_most (bound : option Q) x :
  (forall v, bound = Some v -> (x <= v)%Q) -> at_most bound x.
Proof. intros H v E _. exact (H v E). Qed.

End MergeAgain.

(** X8: merging is idempotent: merging the constraints of an intent into
    filters that already are the result of merging that intent changes
    nothing. *)
Theorem mergeFilters_idempotent (filters : Filters.t) (intent : ParsedIntent.t) :
  QueryProcessor.mergeFilters (QueryProcessor.mergeFilters filters intent) intent
  = QueryProcessor.mergeFilters filters intent.
Proof.
  unfold QueryProcessor.mergeFilters.
  cbn [Filters.company Filters.minPrice Filters.maxPrice Filters.minCamera Filters.maxCamera
       Filters.minBattery Filters.maxBattery Filters.minRam Filters.maxRam
       Filters.minStorage Filters.maxStorage].
  f_equal;
    try (apply mergeBound_idem; first [exact gt_irrefl | exact lt_irrefl]).
  destruct (Entities.company (ParsedIntent.entities intent)) as [[|c cs]|]; try reflexivity.
  destruct (Js.truthy_str (Filters.company filters)) eqn:E; cbn [negb].
  - rewrite E. reflexivity.
  - destruct (Js.truthy_str (Some c)); reflexivity.
Qed.

Section Completeness.
Import Database.

Lemma where_holds_all l row :
  (forall frag v, (frag, v) ∈ l -> clause_holds frag v row = Some true) ->
  where_holds (map fst l) (map snd l) row = Some true.
Proof.
  induction l as [|[frag v] l IH]; intros H; cbn; [reflexivity|].
  rewrite (H frag v) by left. rewrite IH; [reflexivity|].
  intros frag' v' Hin. apply H. right. exact Hin.
Qed.

Lemma where_holds_defined l row :
  (forall frag v, (frag, v) ∈ l -> is_Some (clause_holds frag v row)) ->
  is_Some (where_holds (map fst l) (map snd l) row).
Proof.
  induction l as [|[frag v] l IH]; intros H; cbn; [eexists; reflexivity|].
  destruct (H frag v) as [b1 ->]; [left|].
  destruct IH as [b2 ->]; [|eexists; reflexivity].
  intros frag' v' Hin. apply H. right. exact Hin.
Qed.

Lemma elem_of_opt_num x frag frag' v :
  (frag', v) ∈ opt_num x frag -> exists q, x = Some q /\ frag' = frag /\ v = SqlNum q.
Proof.
  destruct x as [q|]; cbn; intros H.
  - apply list_elem_of_singleton in H. inversion H. subst. eauto.
  - apply elem_of_nil in H. contradiction.
Qed.

Lemma elem_of_opt_text c frag frag' v :
  (frag', v) ∈ opt_text c frag -> exists t, c = Some t /\ t <> "" /\ frag' = frag /\ v = SqlText t.
Proof.
  unfold opt_text, Js.truthy_str. destruct c as [t|]; cbn; intros H.
  - destruct (bool_decide (t = "")) eqn:E; cbn in H.
    + apply elem_of_nil in H. contradiction.
    + apply bool_decide_eq_false_1 in E.
      apply list_elem_of_singleton in H. inversion H. subst. eauto.
  - apply elem_of_nil in H. contradiction.
Qed.

(** Every clause of the statement is one the engine knows, and it holds of
    a row exactly as [within] says. *)
Lemma entries_clauses f row frag v :
  (frag, v) ∈ entries f ->
  is_Some (clause_holds frag v row)
  /\ (within f row -> clause_holds frag v row = Some true).
Proof.
  unfold entries. rewrite !elem_of_app. unfold within.
  intros H.
  repeat match type of H with
         | _ \/ _ => destruct H as [H|H]
         end;
    try (apply elem_of_opt_num in H as (q & Hq & -> & ->);
         split; [eexists; reflexivity|];
         intros (H1 & H2 & H3 & H4 & H5 & H6 & H7 & H8 & H9 & H10 & H11);
         unfold clause_holds;
         match goal with
         | |- context [bool_decide ?P] =>
             replace (bool_decide P) with false by (vm_compute; reflexivity)
         end;
         match goal with
         | |- context [assoc ?k numeric_clauses] =>
             let r := eval vm_compute in (assoc k numeric_clauses) in
             change (assoc k numeric_clauses) with r
         end;
         cbv beta iota; f_equal; apply Qle_bool_iff; eauto).
  apply elem_of_opt_text in H as (t & Ht & Hne & -> & ->).
  unfold clause_holds. rewrite bool_decide_eq_true_2 by reflexivity.
  split; [eexists; reflexivity|].
  intros (H1 & H2 & H3 & H4 & H5 & H6 & H7 & H8 & H9 & H10 & H11).
  f_equal. apply bool_decide_eq_true_2. exact (H11 t Ht Hne).
Qed.

(** The statement of [getFilteredPhones] never fails on the engine: the
    result is the first 50 of the matching rows in order. *)
Lemma getFilteredPhones_eq table f :
  getFilteredPhones table f
  = take 50 (Sort.sort order_before
               (filter (fun row => where_holds (map fst (entries f)) (map snd (entries f)) row
                                   = Some true) table)).
Proof.
  unfold getFilteredPhones. rewrite filtered_statement_entries.
  unfold queryPhones, execute. rewrite rev_app_distr. cbn [rev app].
  rewrite rev_involutive.
  rewrite !bool_decide_eq_true_2 by reflexivity. cbn [andb].
  replace (forallb _ table) with true; [reflexivity|].
  symmetry. apply forallb_forall. intros row _. apply bool_decide_eq_true_2.
  apply where_holds_defined. intros frag v Hin. apply (entries_clauses f row frag v Hin).
Qed.

End Completeness.

(** X9: [getFilteredPhones] leaves out no phone it should return: a phone
    of the catalog that satisfies every bound the filters supply is in the
    result, unless the result is full, with 50 phones that all come before
    it in the order (higher rating, or equal rating and a price not
    higher). *)
Theorem getFilteredPhones_complete (table : list Phone.t) (f : Filters.t) (p : Phone.t) :
  p ∈ table -> within f p ->
  p ∈ Database.getFilteredPhones table f
  \/ (List.length (Database.getFilteredPhones table f) = 50
      /\ Forall (fun q => rating_then_price q p) (Database.getFilteredPhones table f)).
Proof.
  intros Hin Hw. rewrite getFilteredPhones_eq.
  set (P := fun row => Database.where_holds _ _ row = Some true).
  set (L := Sort.sort Database.order_before (filter P table)).
  assert (HpL : p ∈ L).
  { unfold L. rewrite (sort_Permutation Database.order_before (filter P table)).
    apply (list_elem_of_filter P). split; [|exact Hin].
    apply where_holds_all. intros frag v Hf.
    exact (proj2 (entries_clauses f p frag v Hf) Hw). }
  assert (Hs : StronglySorted (fun a b => Database.order_before a b = true) L).
  { apply sort_StronglySorted; [apply order_before_total | apply order_before_trans]. }
  rewrite <- (take_drop 50 L) in HpL, Hs.
  apply elem_of_app in HpL as [Ht|Hd]; [left; exact Ht|].
  right. split.
  - rewrite length_take. apply list_elem_of_lookup_1 in Hd as (i & Hi).
    apply lookup_lt_Some in Hi. rewrite length_drop in Hi. lia.
  - apply Forall_forall. intros q Hq. apply order_before_spec.
    exact (StronglySorted_app_1_elem_of _ _ _ _ _ Hs Hq Hd).
Qed.

(** The sample catalog without filters: every phone is returned. *)
Lemma getFilteredPhones_complete_witness :
  Fixtures.redmi13 ∈ Database.getFilteredPhones Fixtures.catalog Filters.empty
  \/ (List.length (Database.getFilteredPhones Fixtures.catalog Filters.empty) = 50
      /\ Forall (fun q => rating_then_price q Fixtures.redmi13)
                (Database.getFilteredPhones Fixtures.catalog Filters.empty)).
Proof.
  apply (getFilteredPhones_complete Fixtures.catalog Filters.empty Fixtures.redmi13).
  - apply list_elem_of_In. simpl. tauto.
  - unfold within. simpl. repeat split; intros v E; discriminate E.
Defined.

(** X10: merging and querying compose: every phone the catalog returns for
    the merged filters lies within each bound the caller gave and within
    each bound the intent gave (bounds that are absent or zero aside), and
    is of the caller's company when the caller named one. *)
Theorem merged_filters_respect_caller_and_intent
    (table : list Phone.t) (filters : Filters.t) (intent : ParsedIntent.t) (p : Phone.t) :
  p ∈ Database.getFilteredPhones table (QueryProcessor.mergeFilters filters intent) ->
  let c := ParsedIntent.constraints intent in
  in_range (Filters.minPrice filters) (Filters.maxPrice filters) (Phone.price_inr p)
  /\ in_range (Constraints.min_price c) (Constraints.max_price c) (Phone.price_inr p)
  /\ in_range (Filters.minRam filters) (Filters.maxRam filters) (Phone.ram_gb p)
  /\ in_range (Constraints.min_ram c) (Constraints.max_ram c) (Phone.ram_gb p)
  /\ in_range (Filters.minBattery filters) (Filters.maxBattery filters) (Phone.battery_mah p)
  /\ in_range (Constraints.min_battery c) (Constraints.max_battery c) (Phone.battery_mah p)
  /\ in_range (Filters.minCamera filters) (Filters.maxCamera filters) (Phone.back_camera_mp p)
  /\ in_range (Constraints.min_camera c) (Constraints.max_camera c) (Phone.back_camera_mp p)
  /\ in_range (Filters.minStorage filters) (Filters.maxStorage filters) (Phone.memory_gb p)
  /\ in_range (Constraints.min_storage c) (Constraints.max_storage c) (Phone.memory_gb p)
  /\ (forall company, Filters.company filters = Some company -> company <> "" ->
        Js.toLowerCase (Phone.company_name p) = Js.toLowerCase company).
Proof.
  intros Hin c. rewrite getFilteredPhones_eq in Hin.
  set (P := fun row => Database.where_holds _ _ row = Some true) in Hin.
  assert (HP : P p).
  { apply elem_of_take in Hin as (i & Hi & _). apply list_elem_of_lookup_2 in Hi.
    rewrite (sort_Permutation Database.order_before (filter P table)) in Hi.
    apply (list_elem_of_filter P) in Hi. exact (proj1 Hi). }
  apply entries_within in HP.
  destruct HP as (H1 & H2 & H3 & H4 & H5 & H6 & H7 & H8 & H9 & H10 & H11).
  unfold QueryProcessor.mergeFilters in *.
  cbn [Filters.company Filters.minPrice Filters.maxPrice Filters.minCamera Filters.maxCamera
       Filters.minBattery Filters.maxBattery Filters.minRam Filters.maxRam
       Filters.minStorage Filters.maxStorage] in *.
  apply within_at_least, mergeBound_gt_at_least in H1, H3, H5, H7, H9.
  apply within_at_most, mergeBound_lt_at_most in H2, H4, H6, H8, H10.
  unfold in_range. subst c.
  repeat split; try tauto.
  intros company Hc Hne. apply H11; [|exact Hne].
  assert (Ht : Js.truthy_str (Filters.company filters) = true).
  { rewrite Hc. unfold Js.truthy_str. rewrite bool_decide_eq_false_2 by exact Hne. reflexivity. }
  destruct (Entities.company (ParsedIntent.entities intent)) as [[|c0 cs]|];
    try exact Hc. rewrite Ht. exact Hc.
Qed.

(** The caller allows at most 20,000 and the intent asks for at least
    10,000: the Galaxy M14, at 12,000, is returned. *)
Lemma merged_filters_respect_caller_and_intent_witness :
  in_range None (Some 20000%Q) (Phone.price_inr Fixtures.galaxyM14)
  /\ in_range (Some 10000%Q) None (Phone.price_inr Fixtures.galaxyM14).
Proof.
  pose proof (merged_filters_respect_caller_and_intent Fixtures.catalog
                (priceFilters None (Some 20000%Q)) (priceIntent (Some 10000%Q) None)
                Fixtures.galaxyM14) as H.
  cbv zeta in H. destruct H as (H1 & H2 & _).
  - apply list_elem_of_In. vm_compute. tauto.
  - split; [exact H1 | exact H2].
Defined.

(* ================================================================== *)
(** * Replies of the chat model *)
(* ================================================================== *)

Section LowerCase.

Lemma lower_char_idem c : Js.lower_char (Js.lower_char c) = Js.lower_char c.
Proof. destruct c as [[] [] [] [] [] [] [] []]; reflexivity. Qed.

Lemma toLowerCase_idem s : Js.toLowerCase (Js.toLowerCase s) = Js.toLowerCase s.
Proof.
  unfold Js.toLowerCase. rewrite chars_of_chars, map_map. f_equal.
  apply map_ext. intros c. apply lower_char_idem.
Qed.

Lemma normalizeIntent_lowercase intent names :
  Entities.company (ParsedIntent.entities (LLMClient.normalizeIntent intent)) = Some names
  \/ Entities.model (ParsedIntent.entities (LLMClient.normalizeIntent intent)) = Some names ->
  Forall lowercase names.
Proof.
  unfold LLMClient.normalizeIntent. cbn [ParsedIntent.entities Entities.company Entities.model].
  intros [H|H];
    [destruct (Entities.company (ParsedIntent.entities intent)) as [l|]
    |destruct (Entities.model (ParsedIntent.entities intent)) as [l|]];
    try discriminate H; inversion H; subst;
    apply Forall_forall; intros n Hn; apply list_elem_of_fmap in Hn as (x & -> & _);
    apply toLowerCase_idem.
Qed.

End LowerCase.

(** X11: whatever the generation service replies, the company and model
    names of the intent [parseIntent] returns are in lower case. *)
Theorem parseIntent_names_in_lower_case
    {W : Type} (svc : Services W) (query : string) (history : list ChatHistoryMessage.t)
    (s s' : St W) (intent : ParsedIntent.t) :
  LLMClient.parseIntent svc query history s = (Returned intent, s') ->
  forall names,
    Entities.company (ParsedIntent.entities intent) = Some names
    \/ Entities.model (ParsedIntent.entities intent) = Some names ->
    Forall lowercase names.
Proof.
  unfold LLMClient.parseIntent. intros H.
  apply bind_returned in H as (response & s1 & _ & H).
  destruct (JSON_parse_intent svc _) as [parsed|]; inversion H; subst.
  - apply normalizeIntent_lowercase.
  - intros names [E|E]; discriminate E.
Qed.

Section Fences.

Lemma trim_start_blank ws l : blank ws -> Js.trim_start (ws ++ l) = Js.trim_start l.
Proof.
  induction 1 as [|c ws Hc _ IH]; [reflexivity|]. cbn. rewrite Hc. exact IH.
Qed.

Lemma trim_start_solid c l : Js.is_space c = false -> Js.trim_start (c :: l) = c :: l.
Proof. intros H. cbn. rewrite H. reflexivity. Qed.

Lemma blank_rev ws : blank ws -> blank (rev ws).
Proof.
  intros H. apply Forall_forall. intros c Hc. unfold blank in H. rewrite Forall_forall in H.
  apply H. apply list_elem_of_In. apply in_rev. apply list_elem_of_In. exact Hc.
Qed.

(** White space around a string does not survive [trim]. *)
Lemma trim_pad ws1 l ws2 :
  blank ws1 -> blank ws2 ->
  Js.trim (Js.of_chars (ws1 ++ l ++ ws2)) = Js.trim (Js.of_chars l).
Proof.
  intros H1 H2. unfold Js.trim. rewrite !chars_of_chars. f_equal. f_equal.
  rewrite trim_start_blank by exact H1.
  destruct (Js.trim_start l) as [|c l'] eqn:E.
  - (* l is blank *)
    assert (Hl : forall l0, Js.trim_start l0 = [] -> blank l0).
    { induction l0 as [|x l0 IH]; cbn; [constructor|].
      destruct (Js.is_space x) eqn:Ex; [|discriminate].
      intros Hr. constructor; [exact Ex | exact (IH Hr)]. }
    assert (Hb : blank (l ++ ws2)).
    { apply Forall_app_2; [exact (Hl l E) | exact H2]. }
    assert (Ht : forall l0, blank l0 -> Js.trim_start l0 = []).
    { intros l0 Hl0. rewrite <- (app_nil_r l0). rewrite trim_start_blank by exact Hl0.
      reflexivity. }
    rewrite (Ht _ Hb). reflexivity.
  - assert (Hsplit : exists ws, blank ws /\ l = ws ++ c :: l' /\ Js.is_space c = false).
    { clear -E. revert E. induction l as [|x l IH]; cbn; [discriminate|].
      destruct (Js.is_space x) eqn:Ex.
      - intros Hr. destruct (IH Hr) as (ws & Hws & -> & Hc).
        exists (x :: ws). split; [constructor; assumption|]. split; [reflexivity | exact Hc].
      - intros Hr. inversion Hr. subst. exists []. split; [constructor|].
        split; [reflexivity | exact Ex]. }
    destruct Hsplit as (ws & Hws & -> & Hc).
    rewrite <- app_assoc, trim_start_blank by exact Hws.
    cbn [app]. rewrite trim_start_solid by exact Hc.
    change (c :: l' ++ ws2) with ((c :: l') ++ ws2).
    rewrite rev_app_distr, trim_start_blank by (apply blank_rev, H2). reflexivity.
Qed.

Lemma trim_solid c l d :
  Js.is_space c = false -> Js.is_space d = false ->
  Js.trim (Js.of_chars (c :: l ++ [d])) = Js.of_chars (c :: l ++ [d]).
Proof.
  intros Hc Hd. unfold Js.trim. rewrite chars_of_chars, trim_start_solid by exact Hc.
  replace (rev (c :: l ++ [d])) with (d :: rev (c :: l))
    by (change (c :: l ++ [d]) with ((c :: l) ++ [d]); rewrite rev_app_distr; reflexivity).
  rewrite trim_start_solid by exact Hd.
  replace (rev (d :: rev (c :: l))) with (c :: l ++ [d]); [reflexivity|].
  change (rev (d :: rev (c :: l))) with (rev (rev (c :: l)) ++ [d]).
  rewrite rev_involutive. reflexivity.
Qed.

Lemma prefix_of_refl_app p l : Js.prefix_of p (p ++ l) = true.
Proof.
  induction p as [|x p IH]; [reflexivity|]. cbn.
  rewrite bool_decide_eq_true_2 by reflexivity. exact IH.
Qed.

End Fences.

(** A reply that names the brand "Samsung". *)
Lemma parseIntent_names_in_lower_case_witness : Forall lowercase ["samsung"].
Proof.
  apply (parseIntent_names_in_lower_case
           (Fixtures.services (Fixtures.chat_ok "{}") false [] Fixtures.catalog
              (fun _ => Some (brandIntent ["Samsung"])))
           "samsung phones" [] Fixtures.start
           (mkSt tt [CallChat (mkChatRequest (INTENT_PROMPT "samsung phones") [] false)] false)
           (brandIntent ["samsung"])).
  - vm_compute. reflexivity.
  - left. reflexivity.
Defined.

(** X12: fence removal undoes fencing: for a fence that starts with a
    character that is no white space (as "```json" and "```sql" do), a
    reply made of the fence, a line break, a body, a line break and the
    closing "```", with any white space around it, is reduced to the
    trimmed body. *)
Theorem stripFences_unwraps_fenced_reply
    (fence : string) (lead body trail : list ascii) (c : ascii) (rest : list ascii) :
  Js.chars fence = c :: rest -> Js.is_space c = false ->
  blank lead -> blank trail ->
  let newline := ["010"%char] in
  let reply :=
    Js.of_chars (lead ++ Js.chars fence ++ newline ++ body ++ newline ++ Js.chars "```" ++ trail) in
  LLMClient.stripFences fence reply = Js.trim (Js.of_chars body).
Proof.
  intros Hfence Hc Hlead Htrail newline reply.
  unfold LLMClient.stripFences.
  assert (Hclean : Js.trim reply
                   = Js.of_chars (Js.chars fence ++ newline ++ body ++ newline ++ Js.chars "```")).
  { unfold reply.
    replace (lead ++ Js.chars fence ++ newline ++ body ++ newline ++ Js.chars "```" ++ trail)
      with (lead ++ (Js.chars fence ++ newline ++ body ++ newline ++ Js.chars "```") ++ trail)
      by (rewrite <- !app_assoc; reflexivity).
    rewrite trim_pad by assumption.
    rewrite Hfence.
    replace ((c :: rest) ++ newline ++ body ++ newline ++ Js.chars "```")
      with (c :: (rest ++ newline ++ body ++ newline ++ ["`"; "`"]%char) ++ ["`"%char])
      by (rewrite <- !app_assoc; reflexivity).
    apply trim_solid; [exact Hc | reflexivity]. }
  rewrite Hclean. clear Hclean.
  set (inner := newline ++ body ++ newline).
  assert (E1 : Js.startsWith
                 (Js.of_chars (Js.chars fence ++ newline ++ body ++ newline ++ Js.chars "```"))
                 fence = true).
  { unfold Js.startsWith. rewrite chars_of_chars. apply prefix_of_refl_app. }
  assert (E2 : Js.slice_from (Js.length fence)
                 (Js.of_chars (Js.chars fence ++ newline ++ body ++ newline ++ Js.chars "```"))
               = Js.of_chars (inner ++ Js.chars "```")).
  { unfold Js.slice_from, Js.length. rewrite chars_of_chars, drop_app_length.
    unfold inner. rewrite <- !app_assoc. reflexivity. }
  rewrite E1, E2.
  assert (E3 : Js.startsWith (Js.of_chars (inner ++ Js.chars "```")) "```" = false).
  { unfold Js.startsWith. rewrite chars_of_chars. reflexivity. }
  rewrite E3.
  assert (E4 : Js.endsWith (Js.of_chars (inner ++ Js.chars "```")) "```" = true).
  { unfold Js.endsWith. rewrite chars_of_chars, rev_app_distr. apply prefix_of_refl_app. }
  assert (E5 : Js.slice_to_minus 3 (Js.of_chars (inner ++ Js.chars "```")) = Js.of_chars inner).
  { unfold Js.slice_to_minus. rewrite chars_of_chars.
    replace (List.length (inner ++ Js.chars "```") - 3) with (List.length inner)
      by (rewrite length_app; cbn; lia).
    rewrite take_app_length. reflexivity. }
  rewrite E4, E5. unfold inner. apply trim_pad; repeat constructor.
Qed.

(** The reply "```json", "{}", "```" on three lines. *)
Lemma stripFences_unwraps_fenced_reply_witness :
  LLMClient.stripFences "```json"
    (Js.of_chars ([] ++ Js.chars "```json" ++ ["010"%char] ++ Js.chars "{}" ++ ["010"%char]
                     ++ Js.chars "```" ++ []))
  = Js.trim (Js.of_chars (Js.chars "{}")).
Proof.
  exact (stripFences_unwraps_fenced_reply "```json" [] (Js.chars "{}") [] "`"%char
           (Js.chars "``json") eq_refl eq_refl (Forall_nil_2 _) (Forall_nil_2 _)).
Defined.

(* ================================================================== *)
(** * Failures the engine absorbs *)
(* ================================================================== *)

Section Totality.
Context {W : Type}.

Lemma total_invoke {A} (c : Call) (f : Ext W A) : never_throws f -> total (invoke c f).
Proof.
  intros H s. destruct (H (world s)) as (a & w' & E). unfold invoke. rewrite E.
  eexists _, _. reflexivity.
Qed.

Lemma total_get_initialized : total (W:=W) get_initialized.
Proof. intros s. eexists _, _. reflexivity. Qed.

Lemma total_set_initialized b : total (W:=W) (set_initialized b).
Proof. intros s. eexists _, _. reflexivity. Qed.

Lemma total_for_each {A B} (l : list A) (body : B -> A -> M W B) :
  (forall acc a, total (body acc a)) -> forall acc, total (for_each l acc body).
Proof.
  intros Hb. induction l as [|a l IH]; intros acc; cbn.
  - apply total_ret.
  - apply total_bind; [apply Hb | intros acc'; apply IH].
Qed.

End Totality.

Ltac total_step :=
  first
    [ apply total_ret
    | apply total_get_initialized
    | apply total_set_initialized
    | apply total_invoke; solve [auto]
    | apply total_try_catch; intros ?
    | apply total_bind; [ | intros ? ]
    | apply total_for_each; intros ? ?
    | match goal with
      | |- total (if ?b then _ else _) => destruct b
      | |- total (match ?x with _ => _ end) => destruct x
      | |- total (let '(_, _) := ?x in _) => destruct x
      end ].

Section IndexSetup.
Context {W : Type} (svc : Services W).
Import VectorClient.

Lemma waitForIndex_loop_polls n : forall (s : St W) r s',
  waitForIndex_loop svc n s = (r, s') ->
  exists new, added s s' new /\ List.length new <= n
              /\ Forall (fun c => c = CallDescribeIndex) new.
Proof.
  induction n as [|n IH]; intros s r s' H; cbn in H.
  - inversion H. subst. exists []. unfold added. rewrite app_nil_r. repeat split; [cbn; lia | constructor].
  - unfold bind in H.
    destruct (invoke CallDescribeIndex (pinecone_describeIndex svc) s) as [[ready|e] s1] eqn:E;
      apply invoke_calls in E.
    + destruct ready.
      * inversion H. subst. exists [CallDescribeIndex]. repeat split; [exact E | cbn; lia | repeat constructor].
      * apply IH in H as (new & Hnew & Hlen & Hall).
        exists (CallDescribeIndex :: new). unfold added in *. repeat split.
        -- rewrite Hnew, E, <- app_assoc. reflexivity.
        -- cbn. lia.
        -- constructor; [reflexivity | exact Hall].
    + inversion H. subst. exists [CallDescribeIndex]. repeat split; [exact E | cbn; lia | repeat constructor].
Qed.

Lemma waitForIndex_loop_timeout n :
  (forall w, exists w', pinecone_describeIndex svc w = (Returned false, w')) ->
  forall s : St W, exists s',
    waitForIndex_loop svc n s = (Threw (JsError "Timeout waiting for Pinecone index"), s')
    /\ added s s' (replicate n CallDescribeIndex).
Proof.
  intros Hnot. induction n as [|n IH]; intros s; cbn.
  - exists s. split; [reflexivity|]. unfold added. cbn. rewrite app_nil_r. reflexivity.
  - unfold bind, invoke. destruct (Hnot (world s)) as (w' & E). rewrite E.
    destruct (IH (mkSt w' (calls s ++ [CallDescribeIndex]) (initialized s))) as (s' & Hrun & Hadd).
    exists s'. split; [exact Hrun|]. unfold added in *. cbn in Hadd.
    rewrite Hadd, <- app_assoc. reflexivity.
Qed.

Lemma initIndex_total : total (initIndex svc).
Proof.
  unfold initIndex. apply total_bind; [apply total_get_initialized|].
  intros [|]; [apply total_ret|].
  destruct (negb (hasApiKey svc)); [apply total_set_initialized|].
  apply total_try_catch. intros e. apply total_set_initialized.
Qed.

End IndexSetup.

(** X13: [waitForIndex] asks for the state of the index at most 30 times
    and makes no other call; when the index never becomes ready it fails
    with the timeout error after exactly 30 polls. *)
Theorem waitForIndex_polls_at_most_thirty_times {W : Type} (svc : Services W) (s : St W) :
  (forall r s',
     VectorClient.waitForIndex svc s = (r, s') ->
     exists new, added s s' new /\ List.length new <= 30
                 /\ Forall (fun c => c = CallDescribeIndex) new)
  /\ ((forall w, exists w', pinecone_describeIndex svc w = (Returned false, w')) ->
      exists s',
        VectorClient.waitForIndex svc s
        = (Threw (JsError "Timeout waiting for Pinecone index"), s')
        /\ added s s' (replicate 30 CallDescribeIndex)).
Proof.
  split.
  - intros r s' H. exact (waitForIndex_loop_polls svc 30 s r s' H).
  - intros Hnot. exact (waitForIndex_loop_timeout svc 30 Hnot s).
Qed.

(** X14: [initIndex] never throws.  It does nothing when the client is
    already initialized; without an API key it makes no call and leaves the
    client uninitialized; and it marks the client initialized only when an
    API key is configured. *)
Theorem initIndex_never_throws {W : Type} (svc : Services W) (s : St W) :
  exists s',
    VectorClient.initIndex svc s = (Returned tt, s')
    /\ (initialized s = true -> s' = s)
    /\ (initialized s = false -> hasApiKey svc = false ->
        added s s' [] /\ initialized s' = false /\ world s' = world s)
    /\ (initialized s' = true -> initialized s = true \/ hasApiKey svc = true).
Proof.
  destruct (initIndex_total svc s) as ([] & s' & E). exists s'. split; [exact E|].
  unfold VectorClient.initIndex, bind, get_initialized in E.
  destruct (initialized s) eqn:Ei.
  - inversion E. subst. split; [reflexivity|]. split; [discriminate|]. intros _. left. reflexivity.
  - split; [discriminate|].
    destruct (hasApiKey svc) eqn:Ek; cbn [negb] in E.
    + split; [discriminate|]. intros _. right. reflexivity.
    + inversion E. subst. cbn. split.
      * intros _ _. unfold added. cbn. rewrite app_nil_r. repeat split.
      * discriminate.
Qed.

Section RetrievalTotal.
Context {W : Type} (svc : Services W).
Hypothesis database_up : never_throws (db_getDatabase svc).

Lemma queryPhones_total sql params : total (Catalog.queryPhones svc sql params).
Proof. unfold Catalog.queryPhones. repeat total_step. Qed.

Lemma getFilteredPhones_total filters : total (Catalog.getFilteredPhones svc filters).
Proof.
  unfold Catalog.getFilteredPhones. destruct (Database.filtered_statement filters).
  apply queryPhones_total.
Qed.

Lemma embed_total text : total (LLMClient.embed svc text).
Proof. unfold LLMClient.embed. repeat total_step. Qed.

Lemma fallbackProductSearch_total query filters limit :
  total (VectorClient.fallbackProductSearch svc query filters limit).
Proof.
  unfold VectorClient.fallbackProductSearch.
  apply total_bind; [apply getFilteredPhones_total | intros phones; apply total_ret].
Qed.

Lemma searchProducts_total query filters topK :
  total (VectorClient.searchProducts svc query filters topK).
Proof.
  unfold VectorClient.searchProducts.
  apply total_bind; [apply total_get_initialized|]. intros initialized.
  destruct (negb (hasApiKey svc) || negb initialized); [apply fallbackProductSearch_total|].
  apply total_bind; [apply total_try_catch; intros e; apply total_ret|].
  intros [phones|]; [apply total_ret | apply fallbackProductSearch_total].
Qed.

Lemma firstNonEmpty_total sql terms : forall results,
  total (QueryProcessor.firstNonEmpty svc sql terms results).
Proof.
  induction terms as [|term terms IH]; intros results; cbn [QueryProcessor.firstNonEmpty].
  - apply total_ret.
  - apply total_bind; [apply queryPhones_total|]. intros found.
    destruct (0 <? List.length found); [apply total_ret | apply IH].
Qed.

Lemma processSingleQuery_total intent filters originalQuery :
  total (QueryProcessor.processSingleQuery svc intent filters originalQuery).
Proof.
  unfold QueryProcessor.processSingleQuery.
  apply total_bind; [apply total_try_catch; intros e; apply total_ret|].
  intros [phones|]; [apply total_ret|].
  apply total_bind; [apply total_try_catch; intros e; apply total_ret|].
  intros [phones|]; [apply total_ret | apply getFilteredPhones_total].
Qed.

Lemma processMultiBrand_total intent : total (QueryProcessor.processMultiBrand svc intent).
Proof.
  unfold QueryProcessor.processMultiBrand. apply total_for_each. intros phones company.
  apply total_bind; [apply firstNonEmpty_total | intros results; apply total_ret].
Qed.

Lemma lookupAliases_inherited lowerModel :
  QueryProcessor.lookupAliases lowerModel = QueryProcessor.InheritedMember ->
  lowerModel ∈ QueryProcessor.prototypeMembers.
Proof.
  unfold QueryProcessor.lookupAliases.
  destruct (Database.assoc lowerModel QueryProcessor.modelAliases); [discriminate|].
  destruct (bool_decide (lowerModel ∈ QueryProcessor.prototypeMembers)) eqn:E; [|discriminate].
  intros _. exact (bool_decide_eq_true_1 _ E).
Qed.

Lemma Forall_imap_snd {A} (Q : A -> Prop) (l : list A) : forall f : nat -> A -> nat * A,
  (forall i a, (f i a).2 = a) -> Forall Q l -> Forall (fun ia => Q ia.2) (imap f l).
Proof.
  induction l as [|a l IH]; intros f Hf Hl; cbn [imap]; [constructor|].
  apply Forall_cons in Hl as [Ha Hl]. constructor.
  - rewrite Hf. exact Ha.
  - apply IH; [intros i b; apply Hf | exact Hl].
Qed.

Lemma total_for_each_Forall {A B} (Q : A -> Prop) (l : list A) (body : B -> A -> M W B) :
  (forall acc a, Q a -> total (body acc a)) ->
  Forall Q l -> forall acc, total (for_each l acc body).
Proof.
  intros Hb Hl. induction Hl as [|a l Ha Hl IH]; intros acc; cbn.
  - apply total_ret.
  - apply total_bind; [apply Hb, Ha | intros acc'; apply IH].
Qed.

Lemma processMultiModel_total intent :
  plain_model_names intent -> total (QueryProcessor.processMultiModel svc intent).
Proof.
  intros Hplain. unfold QueryProcessor.processMultiModel.
  apply (total_for_each_Forall
           (fun im : nat * string => Js.toLowerCase im.2 ∉ QueryProcessor.prototypeMembers));
    [|exact (Forall_imap_snd
               (fun model => Js.toLowerCase model ∉ QueryProcessor.prototypeMembers)
               _ pair (fun _ _ => eq_refl) Hplain)].
  intros phones [i model] Hmodel. cbn [snd] in Hmodel.
  apply total_bind.
  { destruct (QueryProcessor.lookupAliases (Js.toLowerCase model)) eqn:E;
      [apply firstNonEmpty_total | | apply firstNonEmpty_total].
    destruct (Hmodel (lookupAliases_inherited _ E)). }
  intros r1.
  apply total_bind; [destruct (_ && _); [apply queryPhones_total | apply total_ret]|]. intros r2.
  apply total_bind; [destruct (_ =? _); [apply queryPhones_total | apply total_ret]|]. intros r3.
  apply total_bind; [destruct (_ && _); [apply queryPhones_total | apply total_ret]|]. intros r4.
  apply total_bind; [destruct (_ && _); [apply queryPhones_total | apply total_ret]|]. intros r5.
  apply total_ret.
Qed.

(** A first model name that is inherited stops the loop at once. *)
Lemma processMultiModel_inherited intent model rest s :
  Entities.model (ParsedIntent.entities intent) = Some (model :: rest) ->
  Js.toLowerCase model ∈ QueryProcessor.prototypeMembers ->
  exists e, QueryProcessor.processMultiModel svc intent s = (Threw e, s).
Proof.
  intros Hm Hin. unfold QueryProcessor.processMultiModel. rewrite Hm.
  change (default [] (Some (model :: rest))) with (model :: rest).
  cbn [imap for_each].
  assert (E : QueryProcessor.lookupAliases (Js.toLowerCase model)
              = QueryProcessor.InheritedMember).
  { unfold QueryProcessor.lookupAliases.
    rewrite (bool_decide_eq_true_2 _ Hin).
    destruct (Database.assoc (Js.toLowerCase model) QueryProcessor.modelAliases) eqn:Ea;
      [|reflexivity].
    exfalso. revert Ea Hin. generalize (Js.toLowerCase model). intros k Ea Hin.
    unfold QueryProcessor.prototypeMembers in Hin.
    repeat (apply elem_of_cons in Hin as [->|Hin]; [vm_compute in Ea; discriminate Ea|]).
    apply elem_of_nil in Hin. exact Hin. }
  eexists. apply bind_threw. cbn beta iota. apply bind_threw. rewrite E. reflexivity.
Qed.

End RetrievalTotal.

(** X15: the retrieval paths absorb the failures of the services: as
    long as the database client can be obtained, [processSingleQuery] and
    [processMultiBrand] return, whatever the vector index, the embedding
    model, the chat model and the SQL engine do.  So does
    [processMultiModel], unless a model name is, in lower case, a name
    every object inherits ("constructor", "__proto__"): the alias table
    then yields a member of the prototype, which the loop over the aliases
    cannot iterate, and [processMultiModel] throws before any call. *)
Theorem retrieval_throws_only_without_database
    {W : Type} (svc : Services W) (intent : ParsedIntent.t) (filters : Filters.t)
    (originalQuery : string) :
  never_throws (db_getDatabase svc) ->
  total (QueryProcessor.processSingleQuery svc intent filters originalQuery)
  /\ total (QueryProcessor.processMultiBrand svc intent)
  /\ (plain_model_names intent -> total (QueryProcessor.processMultiModel svc intent))
  /\ (forall model rest s,
        Entities.model (ParsedIntent.entities intent) = Some (model :: rest) ->
        Js.toLowerCase model ∈ QueryProcessor.prototypeMembers ->
        exists e, QueryProcessor.processMultiModel svc intent s = (Threw e, s)).
Proof.
  intros Hdb. split; [|split; [|split]].
  - apply processSingleQuery_total, Hdb.
  - apply processMultiBrand_total, Hdb.
  - apply processMultiModel_total, Hdb.
  - intros model rest s. apply processMultiModel_inherited.
Qed.

Section SimilarTotal.
Context {W : Type} (svc : Services W).
Hypothesis database_up : never_throws (db_getDatabase svc).
Hypothesis companies_up : never_throws (db_companies svc).
Hypothesis search_up : forall term, never_throws (db_searchByModel svc term).

Lemma fallbackSimilar_total query typeFilter :
  total (VectorClient.fallbackSimilar svc query typeFilter).
Proof.
  unfold VectorClient.fallbackSimilar, Catalog.getCompanies, Catalog.searchPhonesByModel.
  apply total_bind.
  - destruct typeFilter as [[]|]; repeat total_step.
  - intros results. apply total_bind; [|intros results'; apply total_ret].
    destruct typeFilter as [[]|]; repeat total_step; apply total_invoke, search_up.
Qed.

Lemma findSimilar_total query typeFilter companyFilter threshold :
  total (VectorClient.findSimilar svc query typeFilter companyFilter threshold).
Proof.
  unfold VectorClient.findSimilar.
  apply total_bind; [apply total_get_initialized|]. intros i0.
  apply total_bind; [destruct (negb i0); [apply initIndex_total | apply total_ret]|]. intros [].
  apply total_bind; [apply total_get_initialized|]. intros i1.
  destruct (negb i1); [apply fallbackSimilar_total|].
  apply total_bind; [apply total_try_catch; intros e; apply total_ret|].
  intros [results|]; [apply total_ret | apply fallbackSimilar_total].
Qed.

End SimilarTotal.

(** Over the sample services, whose database client is always there, and
    an intent that names the model "Constructor". *)
Lemma retrieval_throws_only_without_database_witness :
  let svc := Fixtures.services Fixtures.chat_down true [] Fixtures.catalog Fixtures.no_parse in
  let intent :=
    ParsedIntent.mk TaskQuery (Entities.mk (Some ["samsung"]) (Some ["Constructor"]) None None)
      Constraints.empty None (Some CmpSingle) in
  total (QueryProcessor.processSingleQuery svc intent Filters.empty "samsung phones")
  /\ total (QueryProcessor.processMultiBrand svc intent)
  /\ exists e, QueryProcessor.processMultiModel svc intent Fixtures.start
               = (Threw e, Fixtures.start).
Proof.
  intros svc intent.
  destruct (retrieval_throws_only_without_database svc intent Filters.empty "samsung phones")
    as (Hsingle & Hbrand & _ & Hmodel).
  - intros w. exists tt, w. reflexivity.
  - split; [exact Hsingle|]. split; [exact Hbrand|].
    apply (Hmodel "Constructor" []); [reflexivity|].
    exact (bool_decide_eq_true_1
             (Js.toLowerCase "Constructor" ∈ QueryProcessor.prototypeMembers) eq_refl).
Defined.

(** X16: [findSimilar] absorbs the failures of the vector index and of the
    embedding model: it can throw only when a call to the catalog does. *)
Theorem findSimilar_throws_only_with_catalog
    {W : Type} (svc : Services W) (query : string) (typeFilter : option TypeFilter)
    (companyFilter : option string) (threshold : Q) :
  never_throws (db_getDatabase svc) ->
  never_throws (db_companies svc) ->
  (forall term, never_throws (db_searchByModel svc term)) ->
  total (VectorClient.findSimilar svc query typeFilter companyFilter threshold).
Proof. intros H1 H2 H3. apply findSimilar_total; assumption. Qed.

(** Over the sample services, whose catalog always answers. *)
Lemma findSimilar_throws_only_with_catalog_witness :
  total (VectorClient.findSimilar
           (Fixtures.services Fixtures.chat_down true [] Fixtures.catalog Fixtures.no_parse)
           "samsng" (Some TfCompany) None (7 # 10)).
Proof.
  apply (findSimilar_throws_only_with_catalog
           (Fixtures.services Fixtures.chat_down true [] Fixtures.catalog Fixtures.no_parse)
           "samsng" (Some TfCompany) None (7 # 10)).
  - intros w. exists tt, w. reflexivity.
  - intros w. eexists _, w. reflexivity.
  - intros term w. eexists _, w. reflexivity.
Defined.

(* ================================================================== *)
(** * The calls the engine makes *)
(* ================================================================== *)

Section Maintains.
Context {W : Type} (Ib : bool -> Prop) (P : Call -> Prop).

Lemma maintains_ret {A} (a : A) : maintains (W:=W) Ib P (ret a).
Proof.
  intros s r s' HI H. inversion H. subst. split; [exact HI|].
  exists []. split; [unfold added; rewrite app_nil_r; reflexivity | constructor].
Qed.

Lemma maintains_throw {A} e : maintains (W:=W) (A:=A) Ib P (throw e).
Proof.
  intros s r s' HI H. inversion H. subst. split; [exact HI|].
  exists []. split; [unfold added; rewrite app_nil_r; reflexivity | constructor].
Qed.

Lemma maintains_bind {A B} (m : M W A) (k : A -> M W B) :
  maintains Ib P m -> (forall a, maintains Ib P (k a)) -> maintains Ib P (bind m k).
Proof.
  intros Hm Hk s r s' HI H. unfold bind in H.
  destruct (m s) as [[a|e] s1] eqn:E.
  - destruct (Hm _ _ _ HI E) as (HI1 & n1 & E1 & F1).
    destruct (Hk a _ _ _ HI1 H) as (HI2 & n2 & E2 & F2).
    split; [exact HI2|]. exists (n1 ++ n2). unfold added in *. split.
    + rewrite E2, E1, app_assoc. reflexivity.
    + apply Forall_app_2; assumption.
  - inversion H. subst. exact (Hm _ _ _ HI E).
Qed.

(** After a computation whose results all satisfy [Q]. *)
Lemma maintains_bind_post {A B} (Q : A -> Prop) (m : M W A) (k : A -> M W B) :
  maintains Ib P m -> returns_only Q m -> (forall a, Q a -> maintains Ib P (k a)) ->
  maintains Ib P (bind m k).
Proof.
  intros Hm HQ Hk s r s' HI H. unfold bind in H.
  destruct (m s) as [[a|e] s1] eqn:E.
  - destruct (Hm _ _ _ HI E) as (HI1 & n1 & E1 & F1).
    destruct (Hk a (HQ _ _ _ E) _ _ _ HI1 H) as (HI2 & n2 & E2 & F2).
    split; [exact HI2|]. exists (n1 ++ n2). unfold added in *. split.
    + rewrite E2, E1, app_assoc. reflexivity.
    + apply Forall_app_2; assumption.
  - inversion H. subst. exact (Hm _ _ _ HI E).
Qed.

(** Reading the flag: what is read satisfies the invariant. *)
Lemma maintains_bind_get {B} (k : bool -> M W B) :
  (forall b, Ib b -> maintains Ib P (k b)) -> maintains Ib P (bind get_initialized k).
Proof.
  intros Hk s r s' HI H. unfold bind, get_initialized in H.
  exact (Hk _ HI _ _ _ HI H).
Qed.

Lemma maintains_set b : Ib b -> maintains (W:=W) Ib P (set_initialized b).
Proof.
  intros Hb s r s' HI H. inversion H. subst. cbn. split; [exact Hb|].
  exists []. split; [unfold added; cbn; rewrite app_nil_r; reflexivity | constructor].
Qed.

Lemma maintains_invoke {A} (c : Call) (f : Ext W A) : P c -> maintains Ib P (invoke c f).
Proof.
  intros Hc s r s' HI H. split.
  - unfold invoke in H. destruct (f (world s)). inversion H. subst. exact HI.
  - exists [c]. split; [exact (invoke_calls _ _ _ _ _ H) | repeat constructor; exact Hc].
Qed.

Lemma maintains_try_catch {A} (m : M W A) h :
  maintains Ib P m -> (forall e, maintains Ib P (h e)) -> maintains Ib P (try_catch m h).
Proof.
  intros Hm Hh s r s' HI H. unfold try_catch in H.
  destruct (m s) as [[a|e] s1] eqn:E.
  - inversion H. subst. exact (Hm _ _ _ HI E).
  - destruct (Hm _ _ _ HI E) as (HI1 & n1 & E1 & F1).
    destruct (Hh e _ _ _ HI1 H) as (HI2 & n2 & E2 & F2).
    split; [exact HI2|]. exists (n1 ++ n2). unfold added in *. split.
    + rewrite E2, E1, app_assoc. reflexivity.
    + apply Forall_app_2; assumption.
Qed.

Lemma maintains_for_each {A B} (l : list A) (body : B -> A -> M W B) :
  (forall acc a, maintains Ib P (body acc a)) ->
  forall acc, maintains Ib P (for_each l acc body).
Proof.
  intros Hb. induction l as [|a l IH]; intros acc; cbn [for_each].
  - apply maintains_ret.
  - apply maintains_bind; [apply Hb | intros acc'; apply IH].
Qed.

End Maintains.

Ltac maintains_step :=
  first
    [ apply maintains_ret
    | apply maintains_throw
    | apply maintains_bind_get; intros ? ?
    | apply maintains_try_catch; [ | intros ? ]
    | apply maintains_bind; [ | intros ? ]
    | apply maintains_for_each; intros ? ?
    | match goal with
      | |- maintains _ _ (if ?b then _ else _) => destruct b eqn:?
      | |- maintains _ _ (match ?x with _ => _ end) => destruct x eqn:?
      end ].

Section EngineCalls.
Context {W : Type} (svc : Services W) (Ib : bool -> Prop) (index_ok : Prop).
Hypothesis Ib_false : Ib false.
Hypothesis Ib_true : hasApiKey svc = true -> Ib true.
Hypothesis index_with_key : hasApiKey svc = true -> index_ok.
Hypothesis index_when_initialized : Ib true -> index_ok.

Let P := engine_call index_ok.

Lemma engine_call_plain c :
  match c with CallChat _ | CallExecute _ _ => False | _ => is_index_call c = false end ->
  engine_call index_ok c.
Proof. destruct c; cbn; try contradiction; intros; discriminate. Qed.

Lemma notify_ok onStatus status : maintains Ib P (QueryProcessor.notify (W:=W) onStatus status).
Proof.
  destruct onStatus as [f|]; cbn; [|apply maintains_ret].
  apply maintains_invoke. intros H. discriminate H.
Qed.

Lemma contextHistory_length history : List.length (LLMClient.contextHistory history) <= 4.
Proof. unfold LLMClient.contextHistory. rewrite length_map, length_drop. lia. Qed.

Lemma generateContent_ok prompt history useSystemPrompt :
  bounded_request (mkChatRequest prompt history useSystemPrompt) ->
  maintains Ib P (LLMClient.generateContent svc prompt history useSystemPrompt).
Proof.
  intros Hb. unfold LLMClient.generateContent.
  apply maintains_bind; [apply maintains_invoke; exact Hb | intros c; apply maintains_ret].
Qed.

Lemma parseIntent_ok query history : maintains Ib P (LLMClient.parseIntent svc query history).
Proof.
  unfold LLMClient.parseIntent. apply maintains_bind.
  - apply generateContent_ok. split; [apply contextHistory_length | exact I].
  - intros response. repeat maintains_step.
Qed.

Lemma generateSQL_ok intent filters : maintains Ib P (LLMClient.generateSQL svc intent filters).
Proof.
  unfold LLMClient.generateSQL. apply maintains_bind.
  - apply generateContent_ok. split; [cbn; lia | exact I].
  - intros response. repeat maintains_step.
Qed.

Lemma summarize_ok query phones history : maintains Ib P (LLMClient.summarize svc query phones history).
Proof.
  unfold LLMClient.summarize.
  destruct (List.length (LLMClient.getUniquePhones phones 4) =? 0) eqn:E; [apply maintains_ret|].
  apply Nat.eqb_neq in E.
  apply maintains_bind; [|intros response; apply maintains_ret].
  apply generateContent_ok. split; [apply contextHistory_length|]. cbn.
  destruct (getUniquePhones_spec phones 4) as [Hnd Hlen]; [lia|].
  split; [lia | apply NoDup_uniqueKey_brandModel, Hnd].
Qed.

Lemma answerGeneral_ok query history : maintains Ib P (LLMClient.answerGeneral svc query history).
Proof.
  unfold LLMClient.answerGeneral.
  apply maintains_bind; [|intros response; apply maintains_ret].
  apply generateContent_ok. split; [apply contextHistory_length | exact I].
Qed.

Lemma embed_ok text : index_ok -> maintains Ib P (LLMClient.embed svc text).
Proof.
  intros Hi. unfold LLMClient.embed. repeat maintains_step.
  apply maintains_invoke. intros _. exact Hi.
Qed.

Lemma upper_S_not_space c : Js.upper_char c = "S"%char -> Js.is_space c = false.
Proof. destruct c as [[] [] [] [] [] [] [] []]; vm_compute; congruence. Qed.

(** A text that begins with SELECT has no white space in front. *)
Lemma select_statement_head head rest :
  Js.startsWith (Js.toUpperCase head) "SELECT" = true -> select_statement (head :: rest).
Proof.
  intros H. unfold select_statement, statement_text. cbn [foldr].
  destruct head as [|c h]; [discriminate H|].
  assert (Hc : Js.is_space c = false).
  { apply upper_S_not_space. unfold Js.startsWith, Js.toUpperCase in H.
    cbn [Js.chars map Js.of_chars Js.prefix_of] in H.
    apply andb_true_iff in H as [H _]. apply bool_decide_eq_true_1 in H. congruence. }
  change (Js.chars (String c h +:+ foldr String.append "" rest))
    with (c :: Js.chars (h +:+ foldr String.append "" rest)).
  cbn [Js.trim_start]. rewrite Hc.
  change (c :: Js.chars (h +:+ foldr String.append "" rest))
    with (Js.chars (String c h +:+ foldr String.append "" rest)).
  rewrite of_chars_chars, toUpperCase_append. apply startsWith_append. exact H.
Qed.

(** The statements of the comparison paths are SELECT statements, though
    their text begins with a line break. *)
Lemma comparison_statement_text :
  statement_text QueryProcessor.sql_brand_top3
  = String "010" "          SELECT * FROM phones " +:+
    String "010" "          WHERE LOWER(company_name) LIKE LOWER(?)" +:+
    String "010" "          ORDER BY user_rating DESC, price_inr ASC" +:+
    String "010" "          LIMIT 3" +:+
    String "010" "        "
  /\ Js.startsWith (Js.toUpperCase (statement_text QueryProcessor.sql_brand_top3)) "SELECT"
     = false.
Proof. split; vm_compute; reflexivity. Qed.

Lemma comparison_statements_select :
  select_statement QueryProcessor.sql_brand_top3
  /\ select_statement QueryProcessor.sql_model_top1
  /\ select_statement QueryProcessor.sql_company_model_top1.
Proof. repeat split; vm_compute; reflexivity. Qed.

Lemma queryPhones_ok sql params :
  select_statement sql -> maintains Ib P (Catalog.queryPhones svc sql params).
Proof.
  intros Hs. unfold Catalog.queryPhones.
  apply maintains_bind; [apply maintains_invoke; intros H; discriminate H|]. intros [].
  apply maintains_try_catch; [apply maintains_invoke; exact Hs | intros e; apply maintains_ret].
Qed.

Lemma filtered_statement_select filters :
  select_statement (Database.filtered_statement filters).1.
Proof.
  rewrite filtered_statement_entries. cbn [fst]. apply select_statement_head. reflexivity.
Qed.

Lemma getFilteredPhones_ok filters : maintains Ib P (Catalog.getFilteredPhones svc filters).
Proof.
  unfold Catalog.getFilteredPhones.
  pose proof (filtered_statement_select filters) as H.
  destruct (Database.filtered_statement filters) as [sql params].
  apply queryPhones_ok. exact H.
Qed.

Lemma getPhoneById_ok id : maintains Ib P (Catalog.getPhoneById svc id).
Proof.
  unfold Catalog.getPhoneById.
  apply maintains_bind; [|intros []]; apply maintains_invoke; intros H; discriminate H.
Qed.

Lemma getCompanies_ok : maintains Ib P (Catalog.getCompanies svc).
Proof.
  unfold Catalog.getCompanies.
  apply maintains_bind; [|intros []]; apply maintains_invoke; intros H; discriminate H.
Qed.

Lemma searchPhonesByModel_ok term : maintains Ib P (Catalog.searchPhonesByModel svc term).
Proof.
  unfold Catalog.searchPhonesByModel.
  apply maintains_bind; [|intros []]; apply maintains_invoke; intros H; discriminate H.
Qed.

Lemma waitForIndex_loop_ok n : index_ok -> maintains Ib P (VectorClient.waitForIndex_loop svc n).
Proof.
  intros Hi. induction n as [|n IH]; cbn [VectorClient.waitForIndex_loop].
  - apply maintains_throw.
  - apply maintains_bind; [apply maintains_invoke; intros _; exact Hi|].
    intros [|]; [apply maintains_ret | exact IH].
Qed.

Lemma initIndex_ok : maintains Ib P (VectorClient.initIndex svc).
Proof.
  unfold VectorClient.initIndex. apply maintains_bind_get. intros initialized HI.
  destruct initialized; [apply maintains_ret|].
  destruct (hasApiKey svc) eqn:Ek; cbn [negb]; [|apply maintains_set, Ib_false].
  pose proof (index_with_key eq_refl) as Hi.
  apply maintains_try_catch; [|intros e; apply maintains_set, Ib_false].
  apply maintains_bind; [apply maintains_invoke; intros _; exact Hi|]. intros indexes.
  apply maintains_bind; [|intros _; apply maintains_set, Ib_true; reflexivity].
  destruct (negb _); [|apply maintains_ret].
  apply maintains_bind; [apply maintains_invoke; intros _; exact Hi|]. intros [].
  apply waitForIndex_loop_ok, Hi.
Qed.

Lemma fallbackSimilar_ok query typeFilter : maintains Ib P (VectorClient.fallbackSimilar svc query typeFilter).
Proof.
  unfold VectorClient.fallbackSimilar.
  apply maintains_bind.
  - destruct typeFilter as [[]|];
      repeat (first [ apply getCompanies_ok | maintains_step ]).
  - intros results. apply maintains_bind; [|intros r; apply maintains_ret].
    destruct typeFilter as [[]|];
      repeat (first [ apply searchPhonesByModel_ok | maintains_step ]).
Qed.

Lemma findSimilar_ok query typeFilter companyFilter threshold :
  maintains Ib P (VectorClient.findSimilar svc query typeFilter companyFilter threshold).
Proof.
  unfold VectorClient.findSimilar. apply maintains_bind_get. intros i0 H0.
  apply maintains_bind; [destruct (negb i0); [apply initIndex_ok | apply maintains_ret]|].
  intros []. apply maintains_bind_get. intros i1 H1.
  destruct i1; cbn [negb]; [|apply fallbackSimilar_ok].
  pose proof (index_when_initialized H1) as Hi.
  apply maintains_bind.
  - apply maintains_try_catch; [|intros e; apply maintains_ret].
    apply maintains_bind; [apply embed_ok, Hi|]. intros embedding.
    apply maintains_bind; [apply maintains_invoke; intros _; exact Hi|].
    intros results. apply maintains_ret.
  - intros [results|]; [apply maintains_ret | apply fallbackSimilar_ok].
Qed.

Lemma fallbackProductSearch_ok query filters limit :
  maintains Ib P (VectorClient.fallbackProductSearch svc query filters limit).
Proof.
  unfold VectorClient.fallbackProductSearch.
  apply maintains_bind; [apply getFilteredPhones_ok | intros phones; apply maintains_ret].
Qed.

Lemma searchProducts_ok query filters topK :
  maintains Ib P (VectorClient.searchProducts svc query filters topK).
Proof.
  unfold VectorClient.searchProducts. apply maintains_bind_get. intros i0 H0.
  destruct (hasApiKey svc) eqn:Ek; cbn [negb orb]; [|apply fallbackProductSearch_ok].
  pose proof (index_with_key eq_refl) as Hi.
  destruct i0; cbn [negb]; [|apply fallbackProductSearch_ok].
  apply maintains_bind.
  - apply maintains_try_catch; [|intros e; apply maintains_ret].
    apply maintains_bind; [apply embed_ok, Hi|]. intros embedding.
    destruct (List.length embedding =? 0); [apply maintains_ret|].
    apply maintains_bind; [apply maintains_invoke; intros _; exact Hi|]. intros results.
    apply maintains_bind; [|intros phones; apply maintains_ret].
    apply maintains_for_each. intros phones m.
    repeat (first [ apply getPhoneById_ok | maintains_step ]).
  - intros [phones|]; [apply maintains_ret | apply fallbackProductSearch_ok].
Qed.

Lemma getFallbackResults_ok query : maintains Ib P (QueryProcessor.getFallbackResults svc query).
Proof.
  unfold QueryProcessor.getFallbackResults.
  apply maintains_bind; [apply getFilteredPhones_ok | intros phones; apply maintains_ret].
Qed.

Lemma correctAll_ok tokens typeFilter : maintains Ib P (QueryProcessor.correctAll svc tokens typeFilter).
Proof.
  unfold QueryProcessor.correctAll. apply maintains_for_each. intros acc token.
  apply maintains_bind; [apply findSimilar_ok|]. intros similar.
  destruct (QueryProcessor.correctToken token similar); [apply maintains_ret | apply maintains_throw].
Qed.

Lemma applyCorrections_ok intent : maintains Ib P (QueryProcessor.applyCorrections svc intent).
Proof.
  unfold QueryProcessor.applyCorrections.
  repeat (first [ apply correctAll_ok | maintains_step ]).
Qed.

Lemma firstNonEmpty_ok sql terms :
  select_statement sql ->
  forall results, maintains Ib P (QueryProcessor.firstNonEmpty svc sql terms results).
Proof.
  intros Hs. induction terms as [|term terms IH]; intros results;
    cbn [QueryProcessor.firstNonEmpty].
  - apply maintains_ret.
  - apply maintains_bind; [apply queryPhones_ok, Hs|]. intros found.
    destruct (0 <? List.length found); [apply maintains_ret | apply IH].
Qed.

Lemma processMultiBrand_ok intent : maintains Ib P (QueryProcessor.processMultiBrand svc intent).
Proof.
  unfold QueryProcessor.processMultiBrand. apply maintains_for_each. intros phones company.
  apply maintains_bind; [|intros results; apply maintains_ret].
  apply firstNonEmpty_ok. apply comparison_statements_select.
Qed.

Lemma processMultiModel_ok intent : maintains Ib P (QueryProcessor.processMultiModel svc intent).
Proof.
  unfold QueryProcessor.processMultiModel. apply maintains_for_each. intros phones [i model].
  destruct comparison_statements_select as (_ & H1 & H2).
  apply maintains_bind;
    [destruct (QueryProcessor.lookupAliases _);
       [apply firstNonEmpty_ok, H1 | apply maintains_throw | apply firstNonEmpty_ok, H1]|].
  intros r1.
  apply maintains_bind;
    [destruct (_ && _); [apply queryPhones_ok, H2 | apply maintains_ret]|]. intros r2.
  apply maintains_bind;
    [destruct (_ =? _); [apply queryPhones_ok, H1 | apply maintains_ret]|]. intros r3.
  apply maintains_bind;
    [destruct (_ && _); [apply queryPhones_ok, H1 | apply maintains_ret]|]. intros r4.
  apply maintains_bind;
    [destruct (_ && _); [apply queryPhones_ok, H1 | apply maintains_ret]|]. intros r5.
  apply maintains_ret.
Qed.

Lemma generateSQL_select intent filters :
  returns_only (fun sql => Js.startsWith (Js.toUpperCase sql) "SELECT" = true)
               (LLMClient.generateSQL svc intent filters).
Proof.
  unfold LLMClient.generateSQL. apply returns_only_bind. intros response.
  destruct (Js.startsWith (Js.toUpperCase (LLMClient.stripFences "```sql" response)) "SELECT")
    eqn:E; cbn [negb]; [|apply returns_only_throw].
  apply returns_only_ret. destruct (negb _); [|exact E].
  rewrite toUpperCase_append. apply startsWith_append. exact E.
Qed.

Lemma processSingleQuery_ok intent filters originalQuery :
  maintains Ib P (QueryProcessor.processSingleQuery svc intent filters originalQuery).
Proof.
  unfold QueryProcessor.processSingleQuery.
  apply maintains_bind.
  - apply maintains_try_catch; [|intros e; apply maintains_ret].
    apply maintains_bind; [apply searchProducts_ok|]. intros phones.
    destruct (0 <? _); apply maintains_ret.
  - intros [phones|]; [apply maintains_ret|].
    apply maintains_bind.
    + apply maintains_try_catch; [|intros e; apply maintains_ret].
      eapply maintains_bind_post; [apply generateSQL_ok | apply generateSQL_select|].
      intros sql Hsql. apply maintains_bind.
      * apply queryPhones_ok. apply select_statement_head. exact Hsql.
      * intros phones. destruct (0 <? _); apply maintains_ret.
    + intros [phones|]; [apply maintains_ret | apply getFilteredPhones_ok].
Qed.

Lemma process_try_ok userQuery filters history onStatus :
  maintains Ib P (QueryProcessor.process_try svc userQuery filters history onStatus).
Proof.
  unfold QueryProcessor.process_try.
  repeat (first [ apply notify_ok | apply summarize_ok | apply parseIntent_ok
                | apply answerGeneral_ok | apply applyCorrections_ok
                | apply processMultiModel_ok | apply processMultiBrand_ok
                | apply processSingleQuery_ok | maintains_step ]).
Qed.

Lemma process_ok userQuery filters history onStatus :
  maintains Ib P (QueryProcessor.process svc userQuery filters history onStatus).
Proof.
  unfold QueryProcessor.process. apply maintains_try_catch; [apply process_try_ok|].
  intros e. unfold QueryProcessor.process_catch, QueryProcessor.process_fallback.
  repeat (first [ apply notify_ok | apply getFallbackResults_ok | maintains_step ]).
Qed.

End EngineCalls.

(** X17: whatever the services reply, every statement [process] sends to
    the database is a SELECT statement: the white space in front aside (the
    statements of the comparison paths begin with a line break and
    indentation), its text begins with SELECT, in any letter case.  A
    generated statement that does not is never executed. *)
Theorem process_sends_only_select_statements
    {W : Type} (svc : Services W) (userQuery : string) (filters : Filters.t)
    (history : list ChatHistoryMessage.t) (onStatus : option (string -> Ext W unit))
    (s s' : St W) (r : outcome ChatResponse.t) :
  QueryProcessor.process svc userQuery filters history onStatus s = (r, s') ->
  exists new,
    added s s' new
    /\ forall sql params, CallExecute sql params ∈ new -> select_statement sql.
Proof.
  intros H.
  destruct (process_ok svc (fun _ => True) True I (fun _ => I) (fun _ => I) (fun _ => I)
              userQuery filters history onStatus s r s' I H) as (_ & new & Hadd & Hall).
  exists new. split; [exact Hadd|]. intros sql params Hin.
  rewrite Forall_forall in Hall. exact (Hall _ Hin).
Qed.

(** A query answered from the catalog. *)
Lemma process_sends_only_select_statements_witness :
  let run :=
    QueryProcessor.process
      (Fixtures.services (Fixtures.chat_ok "Here you are.") false [] Fixtures.catalog
                         Fixtures.no_parse)
      "phones under 20k" Filters.empty [] None Fixtures.start in
  exists new,
    added Fixtures.start run.2 new
    /\ forall sql params, CallExecute sql params ∈ new -> select_statement sql.
Proof.
  intros run.
  apply (process_sends_only_select_statements
           (Fixtures.services (Fixtures.chat_ok "Here you are.") false [] Fixtures.catalog
                              Fixtures.no_parse)
           "phones under 20k" Filters.empty [] None Fixtures.start run.2 run.1).
  vm_compute. reflexivity.
Defined.

(** X18: every request [process] sends to the chat model carries at most
    four turns of history, and a summary prompt lists between one and four
    phones, no brand and model twice. *)
Theorem process_chat_requests_are_bounded
    {W : Type} (svc : Services W) (userQuery : string) (filters : Filters.t)
    (history : list ChatHistoryMessage.t) (onStatus : option (string -> Ext W unit))
    (s s' : St W) (r : outcome ChatResponse.t) :
  QueryProcessor.process svc userQuery filters history onStatus s = (r, s') ->
  exists new,
    added s s' new
    /\ forall req, CallChat req ∈ new -> bounded_request req.
Proof.
  intros H.
  destruct (process_ok svc (fun _ => True) True I (fun _ => I) (fun _ => I) (fun _ => I)
              userQuery filters history onStatus s r s' I H) as (_ & new & Hadd & Hall).
  exists new. split; [exact Hadd|]. intros req Hin.
  rewrite Forall_forall in Hall. exact (Hall _ Hin).
Qed.

(** A query answered from the catalog, after six turns of conversation. *)
Lemma process_chat_requests_are_bounded_witness :
  let history :=
    [Fixtures.user_turn "a"; Fixtures.user_turn "b"; Fixtures.user_turn "c";
     Fixtures.user_turn "d"; Fixtures.user_turn "e"; Fixtures.user_turn "f"] in
  let run :=
    QueryProcessor.process
      (Fixtures.services (Fixtures.chat_ok "Here you are.") false [] Fixtures.catalog
                         Fixtures.no_parse)
      "phones under 20k" Filters.empty history None Fixtures.start in
  exists new,
    added Fixtures.start run.2 new
    /\ forall req, CallChat req ∈ new -> bounded_request req.
Proof.
  intros history run.
  apply (process_chat_requests_are_bounded
           (Fixtures.services (Fixtures.chat_ok "Here you are.") false [] Fixtures.catalog
                              Fixtures.no_parse)
           "phones under 20k" Filters.empty history None Fixtures.start run.2 run.1).
  vm_compute. reflexivity.
Defined.

(** X19: without an API key for the vector index, and the client not
    marked initialized, [process] makes no call to the index or to the
    embedding model, and leaves the client uninitialized. *)
Theorem process_without_key_leaves_index_alone
    {W : Type} (svc : Services W) (userQuery : string) (filters : Filters.t)
    (history : list ChatHistoryMessage.t) (onStatus : option (string -> Ext W unit))
    (s s' : St W) (r : outcome ChatResponse.t) :
  hasApiKey svc = false -> initialized s = false ->
  QueryProcessor.process svc userQuery filters history onStatus s = (r, s') ->
  initialized s' = false
  /\ exists new, added s s' new /\ forall c, c ∈ new -> is_index_call c = false.
Proof.
  intros Hkey Hflag H.
  assert (Hpre : initialized s = true -> hasApiKey svc = true)
    by (rewrite Hflag; discriminate).
  destruct (process_ok svc (fun b => b = true -> hasApiKey svc = true) (hasApiKey svc = true)
              ltac:(discriminate) (fun Hk _ => Hk) (fun Hk => Hk) (fun Hk => Hk eq_refl)
              userQuery filters history onStatus s r s' Hpre H)
    as (Hinv & new & Hadd & Hall).
  split.
    + destruct (initialized s'); [|reflexivity]. rewrite Hinv in Hkey by reflexivity.
      discriminate Hkey.
    + exists new. split; [exact Hadd|]. intros c Hin.
      rewrite Forall_forall in Hall. specialize (Hall _ Hin).
      destruct (is_index_call c) eqn:E; [|reflexivity].
      destruct c; cbn in E; try discriminate E; cbn in Hall;
        rewrite Hall in Hkey by reflexivity; discriminate Hkey.
Qed.

(** A query with a brand to correct, on services without a key. *)
Lemma process_without_key_leaves_index_alone_witness :
  let run :=
    QueryProcessor.process
      (Fixtures.services (Fixtures.chat_ok "Here you are.") false [] Fixtures.catalog
                         (fun _ => Some (brandIntent ["samsng"])))
      "samsng phones" Filters.empty [] None Fixtures.start in
  initialized run.2 = false
  /\ exists new, added Fixtures.start run.2 new /\ forall c, c ∈ new -> is_index_call c = false.
Proof.
  intros run.
  apply (process_without_key_leaves_index_alone
           (Fixtures.services (Fixtures.chat_ok "Here you are.") false [] Fixtures.catalog
                              (fun _ => Some (brandIntent ["samsng"])))
           "samsng phones" Filters.empty [] None Fixtures.start run.2 run.1).
  - reflexivity.
  - reflexivity.
  - vm_compute. reflexivity.
Defined.

(* ================================================================== *)
(** * Shapes of the response, refusals and brand comparisons *)
(* ================================================================== *)

Section Shapes.
Context {W : Type} (svc : Services W).
Import QueryProcessor.

Lemma prefix_of_refl p : Js.prefix_of p p = true.
Proof.
  induction p as [|x p IH]; [reflexivity|]. cbn.
  rewrite bool_decide_eq_true_2 by reflexivity. exact IH.
Qed.

Lemma generateFallbackMessage_opens warningMessage phones :
  Js.startsWith (generateFallbackMessage svc warningMessage phones) warningMessage = true.
Proof.
  unfold generateFallbackMessage. repeat apply startsWith_append.
  unfold Js.startsWith. apply prefix_of_refl.
Qed.

Lemma process_try_plain q f h onStatus :
  returns_only (fun r => ChatResponse.warning r = None /\ ChatResponse.error r = None)
               (process_try svc q f h onStatus).
Proof.
  unfold process_try, respond. repeat returns_only_step; split; reflexivity.
Qed.

Lemma process_fallback_degraded q d onStatus :
  returns_only (fun o => forall r, o = Some r -> degraded_response r)
               (process_fallback svc q d onStatus).
Proof.
  unfold process_fallback. apply returns_only_try_catch;
    [|intros e; apply returns_only_ret; intros r E; discriminate E].
  apply returns_only_bind. intros [].
  eapply returns_only_bind_post; [apply getFallbackResults_sorted|].
  intros fallbackPhones [Hlen Hsorted].
  destruct (0 <? List.length fallbackPhones) eqn:E; apply returns_only_ret;
    [|intros r Er; discriminate Er].
  apply Nat.ltb_lt in E. intros r Er. inversion Er. subst. clear Er.
  exists (userMessage d), (take 5 fallbackPhones). cbn.
  repeat split; try reflexivity.
  - rewrite length_take. lia.
  - rewrite length_take. lia.
  - apply StronglySorted_take, Hsorted.
  - apply generateFallbackMessage_opens.
Qed.

Lemma process_catch_shapes q onStatus e :
  returns_only (fun r => degraded_response r
                         \/ (ChatResponse.warning r = None /\ ChatResponse.phones r = None
                             /\ is_Some (ChatResponse.error r)))
               (process_catch svc q onStatus e).
Proof.
  unfold process_catch.
  eapply returns_only_bind_post; [apply process_fallback_degraded|].
  intros [r|] Hr; apply returns_only_ret.
  - left. apply Hr. reflexivity.
  - right. cbn. repeat split. eexists. reflexivity.
Qed.

End Shapes.

(** X20: a response of [process] has one of three shapes: no warning and
    no error; or a warning, no error, between one and five phones by
    descending rating, and a message that opens with the warning; or an
    error, with no warning and no phones. *)
Theorem process_response_shapes
    {W : Type} (svc : Services W) (userQuery : string) (filters : Filters.t)
    (history : list ChatHistoryMessage.t) (onStatus : option (string -> Ext W unit))
    (s s' : St W) (r : ChatResponse.t) :
  QueryProcessor.process svc userQuery filters history onStatus s = (Returned r, s') ->
  (ChatResponse.warning r = None /\ ChatResponse.error r = None)
  \/ degraded_response r
  \/ (ChatResponse.warning r = None /\ ChatResponse.phones r = None
      /\ is_Some (ChatResponse.error r)).
Proof.
  intros H. unfold QueryProcessor.process, try_catch in H.
  destruct (QueryProcessor.process_try svc userQuery filters history onStatus s)
    as [[r0|e] s1] eqn:E.
  - inversion H. subst. left. exact (process_try_plain svc _ _ _ _ _ _ _ E).
  - right. exact (process_catch_shapes svc _ _ _ _ _ _ H).
Qed.

(** The chat model is rate limited and the catalog is empty. *)
Lemma process_response_shapes_witness :
  let r := ChatResponse.mk
             (QueryProcessor.userMessage (QueryProcessor.classifyError "429 rate limit"))
             None (Some "Rate limit exceeded") None in
  (ChatResponse.warning r = None /\ ChatResponse.error r = None)
  \/ degraded_response r
  \/ (ChatResponse.warning r = None /\ ChatResponse.phones r = None
      /\ is_Some (ChatResponse.error r)).
Proof.
  apply (process_response_shapes
           (Fixtures.services Fixtures.chat_down false [] [] Fixtures.no_parse)
           "best samsung phone under 20k" Filters.empty [] None Fixtures.start
           (QueryProcessor.process
              (Fixtures.services Fixtures.chat_down false [] [] Fixtures.no_parse)
              "best samsung phone under 20k" Filters.empty [] None Fixtures.start).2).
  vm_compute. reflexivity.
Defined.

(** X21: when the classifier rejects a message and no turn of the history
    carries a phone, [process] answers with the fixed refusal, without
    phones, and performs no retrieval. *)
Theorem rejected_query_is_refused_without_retrieval
    {W : Type} (svc : Services W) (userQuery : string) (filters : Filters.t)
    (history : list ChatHistoryMessage.t) (onStatus : option (string -> Ext W unit))
    (s s1 s2 : St W) (intent : ParsedIntent.t) :
  QueryProcessor.getPhonesFromHistory history = [] ->
  QueryProcessor.notify onStatus "Understanding your query..." s = (Returned tt, s1) ->
  LLMClient.parseIntent svc userQuery history s1 = (Returned intent, s2) ->
  ParsedIntent.task intent = TaskReject ->
  QueryProcessor.process svc userQuery filters history onStatus s
  = (Returned (ChatResponse.mk QueryProcessor.rejectMessage None None None), s2)
  /\ no_retrieval_between s s2.
Proof.
  intros Hnone Hnotify Hparse Htask. split.
  - unfold QueryProcessor.process, try_catch, QueryProcessor.process_try.
    rewrite Hnone. cbn [List.length Nat.ltb Nat.leb andb].
    rewrite Bool.andb_false_r.
    rewrite (bind_run _ _ _ _ _ Hnotify), (bind_run _ _ _ _ _ Hparse), Htask. reflexivity.
  - eapply no_retrieval_between_trans; [exact (notify_no_retrieval _ _ _ _ _ Hnotify)|].
    unfold LLMClient.parseIntent, LLMClient.generateContent, bind in Hparse.
    set (req := mkChatRequest _ _ _) in Hparse.
    destruct (invoke (CallChat req) (chat_create svc req) s1) as [[content|e] s3] eqn:E;
      [|discriminate Hparse].
    apply invoke_calls in E. unfold ret in Hparse.
    assert (s3 = s2) by (destruct (JSON_parse_intent svc _); inversion Hparse; reflexivity).
    subst s3. exists [CallChat req]. split; [exact E | reflexivity].
Qed.

(** A message the classifier rejects, with no history. *)
Lemma rejected_query_is_refused_without_retrieval_witness :
  let svc := Fixtures.services (Fixtures.chat_ok "{}") false [] Fixtures.catalog
               (fun _ => Some rejectIntent) in
  let s2 := mkSt tt [CallChat (mkChatRequest (INTENT_PROMPT "write me a poem") [] false)]
                 false in
  QueryProcessor.process svc "write me a poem" Filters.empty [] None Fixtures.start
  = (Returned (ChatResponse.mk QueryProcessor.rejectMessage None None None), s2)
  /\ no_retrieval_between Fixtures.start s2.
Proof.
  apply (rejected_query_is_refused_without_retrieval
           (Fixtures.services (Fixtures.chat_ok "{}") false [] Fixtures.catalog
              (fun _ => Some rejectIntent))
           "write me a poem" Filters.empty [] None Fixtures.start Fixtures.start
           (mkSt tt [CallChat (mkChatRequest (INTENT_PROMPT "write me a poem") [] false)] false)
           rejectIntent).
  - reflexivity.
  - reflexivity.
  - vm_compute. reflexivity.
  - reflexivity.
Defined.

Section MultiBrand.
Context {W : Type} (svc : Services W).
Import QueryProcessor.

Lemma returns_only_for_each {A B} (Inv : B -> Prop) (l : list A) (body : B -> A -> M W B) :
  (forall acc a, Inv acc -> returns_only Inv (body acc a)) ->
  forall acc, Inv acc -> returns_only Inv (for_each l acc body).
Proof.
  intros Hb. induction l as [|a l IH]; intros acc Hacc; cbn [for_each].
  - apply returns_only_ret, Hacc.
  - eapply returns_only_bind_post; [apply Hb, Hacc|]. intros acc' Hacc'. apply IH, Hacc'.
Qed.

(** Pushing the phones whose id is not there yet keeps the ids distinct. *)
Lemma push_unique_NoDup results : forall phones,
  NoDup (map Phone.phone_id phones) ->
  NoDup (map Phone.phone_id
           (foldl (fun phones phone =>
                     if existsb (fun p => (Phone.phone_id p =? Phone.phone_id phone)%Z) phones
                     then phones else phones ++ [phone])
                  phones results)).
Proof.
  induction results as [|phone results IH]; intros phones Hnd; cbn [foldl]; [exact Hnd|].
  apply IH. destruct (existsb _ phones) eqn:E; [exact Hnd|].
  rewrite map_app. cbn [map]. apply NoDup_app. split; [exact Hnd|]. split.
  - intros id Hid Hid'. apply list_elem_of_singleton in Hid'. subst id.
    apply list_elem_of_fmap in Hid as (p & Hp & Hin).
    assert (Ht : existsb (fun p => (Phone.phone_id p =? Phone.phone_id phone)%Z) phones = true).
    { apply existsb_exists. exists p. split; [apply list_elem_of_In, Hin|].
      apply Z.eqb_eq. symmetry. exact Hp. }
    congruence.
  - apply NoDup_singleton.
Qed.

Lemma processMultiBrand_distinct intent :
  returns_only (fun phones => NoDup (map Phone.phone_id phones))
               (processMultiBrand svc intent).
Proof.
  unfold processMultiBrand. apply returns_only_for_each; [|constructor].
  intros phones company Hnd. apply returns_only_bind. intros results.
  apply returns_only_ret. apply push_unique_NoDup, Hnd.
Qed.

End MultiBrand.

(** X22: whatever the database returns, the phones [processMultiBrand]
    collects have pairwise distinct ids. *)
Theorem processMultiBrand_never_repeats_a_phone
    {W : Type} (svc : Services W) (intent : ParsedIntent.t) (s s' : St W)
    (phones : list Phone.t) :
  QueryProcessor.processMultiBrand svc intent s = (Returned phones, s') ->
  NoDup (map Phone.phone_id phones).
Proof. intros H. exact (processMultiBrand_distinct svc intent _ _ _ H). Qed.

(** Two brands, and a database that answers both with the same two
    phones. *)
Lemma processMultiBrand_never_repeats_a_phone_witness :
  NoDup (map Phone.phone_id [Fixtures.iphone15; Fixtures.galaxyS24]).
Proof.
  apply (processMultiBrand_never_repeats_a_phone
           (services_answering [Fixtures.iphone15; Fixtures.galaxyS24])
           (brandIntent ["apple"; "samsung"]) Fixtures.start
           (QueryProcessor.processMultiBrand
              (services_answering [Fixtures.iphone15; Fixtures.galaxyS24])
              (brandIntent ["apple"; "samsung"]) Fixtures.start).2).
  vm_compute. reflexivity.
Defined.

(* ================================================================== *)
(** * Best-phone questions and follow-ups *)
(* ================================================================== *)

Section Substrings.

Lemma prefix_of_spec p : forall s, Js.prefix_of p s = true <-> exists b, s = p ++ b.
Proof.
  induction p as [|x p IH]; intros s; cbn.
  - split; [intros _; exists s; reflexivity | reflexivity].
  - destruct s as [|y s].
    + split; [discriminate | intros (b & Hb); discriminate Hb].
    + rewrite andb_true_iff, bool_decide_eq_true, IH. split.
      * intros (-> & b & ->). exists b. reflexivity.
      * intros (b & Hb). inversion Hb. subst. split; [reflexivity | exists b; reflexivity].
Qed.

Lemma includes_chars_spec p : forall s,
  Js.includes_chars s p = true <-> exists a b, s = a ++ p ++ b.
Proof.
  induction s as [|y s IH].
  - cbn. rewrite orb_false_r, prefix_of_spec. split.
    + intros (b & Hb). exists [], b. exact Hb.
    + intros (a & b & Hab). destruct a; [exists b; exact Hab | discriminate Hab].
  - cbn [Js.includes_chars]. rewrite orb_true_iff, prefix_of_spec, IH. split.
    + intros [(b & Hb) | (a & b & ->)].
      * exists [], b. exact Hb.
      * exists (y :: a), b. reflexivity.
    + intros (a & b & Hab). destruct a as [|x a].
      * left. exists b. exact Hab.
      * right. inversion Hab. subst. exists a, b. reflexivity.
Qed.

(** A substring of a substring is a substring. *)
Lemma includes_trans s p r :
  Js.includes s p = true -> Js.includes p r = true -> Js.includes s r = true.
Proof.
  unfold Js.includes. rewrite !includes_chars_spec.
  intros (a & b & ->) (a' & b' & ->). exists (a ++ a'), (b' ++ b).
  rewrite <- !app_assoc. reflexivity.
Qed.

Lemma followUp_covers lowerQuery phrase r :
  List.find (fun r => Js.includes phrase r) QueryProcessor.followUpPhrases = Some r ->
  Js.includes lowerQuery phrase = true ->
  existsb (fun r => Js.includes lowerQuery r) QueryProcessor.followUpPhrases = true.
Proof.
  intros Hfind Hin. apply find_some in Hfind as [Hr Hpr].
  apply existsb_exists. exists r. split; [exact Hr|].
  exact (includes_trans _ _ _ Hin Hpr).
Qed.

End Substrings.

(** X23: a message that asks for the best phone is also a follow-up
    message, so that the "best phone" branch of [process] can be reached,
    unless it asks with "which phone is best", "which phone is the best" or
    "pick one". *)
Theorem best_phone_question_is_a_follow_up_unless (query : string) :
  QueryProcessor.isBestPhoneQuery query = true ->
  QueryProcessor.isFollowUpQuery query = true
  \/ Exists (fun phrase => Js.includes (Js.toLowerCase query) phrase = true) bestOnlyPhrases.
Proof.
  unfold QueryProcessor.isBestPhoneQuery, QueryProcessor.isFollowUpQuery.
  intros H. apply existsb_exists in H as (phrase & Hin & Hinc).
  unfold QueryProcessor.bestPhrases in Hin. cbn [In] in Hin.
  repeat match type of Hin with
         | _ \/ _ => destruct Hin as [Hin|Hin]
         end; try contradiction; subst phrase.
  all: try (left; refine (followUp_covers _ _ _ _ Hinc); lazy; reflexivity).
  all: right; unfold bestOnlyPhrases.
  all: first [ apply Exists_cons_hd; exact Hinc
             | apply Exists_cons_tl, Exists_cons_hd; exact Hinc
             | apply Exists_cons_tl, Exists_cons_tl, Exists_cons_hd; exact Hinc ].
Qed.

Lemma best_phone_question_is_a_follow_up_unless_witness :
  QueryProcessor.isFollowUpQuery "which one is best?" = true
  \/ Exists (fun phrase => Js.includes (Js.toLowerCase "which one is best?") phrase = true)
            bestOnlyPhrases.
Proof.
  apply (best_phone_question_is_a_follow_up_unless "which one is best?").
  vm_compute. reflexivity.
Defined.

(** The exception is real: "pick one" asks for the best phone and is no
    follow-up. *)
Example pick_one_is_no_follow_up :
  QueryProcessor.isBestPhoneQuery "pick one for me" = true
  /\ QueryProcessor.isFollowUpQuery "pick one for me" = false.
Proof. split; vm_compute; reflexivity. Qed.

(* ================================================================== *)
(** * Lines of the CSV file *)
(* ================================================================== *)

Section CsvFacts.
Import Csv.

Lemma append_nil_r s : s +:+ "" = s.
Proof.
  induction s as [|c s IH]; [reflexivity|].
  change (String c (s +:+ "") = String c s). f_equal. exact IH.
Qed.

Lemma append_assoc a b c : (a +:+ b) +:+ c = a +:+ (b +:+ c).
Proof.
  induction a as [|x a IH]; [reflexivity|].
  change (String x ((a +:+ b) +:+ c) = String x (a +:+ (b +:+ c))). f_equal. exact IH.
Qed.

Lemma join_snoc sep l x :
  Js.join sep (l ++ [x])
  = match l with [] => x | _ => Js.join sep l +:+ sep +:+ x end.
Proof.
  induction l as [|y l IH]; [reflexivity|].
  destruct l as [|z l]; [reflexivity|].
  change (Js.join sep ((y :: z :: l) ++ [x]))
    with (y +:+ sep +:+ Js.join sep ((z :: l) ++ [x])).
  rewrite IH.
  change (Js.join sep (y :: z :: l)) with (y +:+ sep +:+ Js.join sep (z :: l)).
  rewrite !append_assoc. reflexivity.
Qed.

(** Outside quotes a character that is no quote extends the text the
    fields spell, and only a comma adds a field. *)
Lemma step_plain st c :
  inQuotes st = false -> c <> quote ->
  inQuotes (step st c) = false
  /\ Js.join "," (csv_fields (step st c)) = Js.join "," (csv_fields st) +:+ String c ""
  /\ List.length (csv_fields (step st c))
     = List.length (csv_fields st) + (if bool_decide (c = comma) then 1 else 0).
Proof.
  intros Hq Hc. unfold step, csv_fields.
  rewrite bool_decide_eq_false_2 by exact Hc. rewrite Hq. cbn [negb andb].
  destruct (bool_decide (c = comma)) eqn:E; cbn [andb result current inQuotes].
  - apply bool_decide_eq_true_1 in E. subst c. split; [reflexivity|]. split.
    + rewrite (join_snoc "," (result st ++ [current st]) "").
      destruct (result st ++ [current st]) eqn:El.
      * destruct (result st); discriminate El.
      * rewrite append_nil_r. reflexivity.
    + rewrite !length_app. cbn. lia.
  - split; [reflexivity|]. split.
    + rewrite !join_snoc. destruct (result st); [reflexivity|].
      rewrite !append_assoc. reflexivity.
    + rewrite !length_app. cbn. lia.
Qed.

Lemma foldl_plain l : forall st,
  inQuotes st = false -> quote ∉ l ->
  Js.join "," (csv_fields (foldl step st l))
  = Js.join "," (csv_fields st) +:+ Js.of_chars l
  /\ List.length (csv_fields (foldl step st l))
     = List.length (csv_fields st) + List.length (filter (fun c => c = comma) l).
Proof.
  induction l as [|c l IH]; intros st Hq Hl; cbn [foldl].
  - cbn. rewrite append_nil_r. split; [reflexivity | lia].
  - apply not_elem_of_cons in Hl as [Hc Hl].
    destruct (step_plain st c Hq (not_eq_sym Hc)) as (Hq' & Hj & Hn).
    destruct (IH (step st c) Hq' Hl) as [IHj IHn]. split.
    + rewrite IHj, Hj, append_assoc. reflexivity.
    + rewrite IHn, Hn, filter_cons. destruct (decide (c = comma)) as [->|Hne].
      * rewrite bool_decide_eq_true_2 by reflexivity. cbn. lia.
      * rewrite bool_decide_eq_false_2 by exact Hne. lia.
Qed.

Lemma step_quote_free st c : quote_free st -> quote_free (step st c).
Proof.
  unfold quote_free, csv_fields, step. intros H.
  apply Forall_app in H as [Hr Hc'].
  apply Forall_cons in Hc' as [Hcur _].
  destruct (bool_decide (c = quote)) eqn:Eq; cbn [result current].
  - apply Forall_app_2; [exact Hr | repeat constructor; exact Hcur].
  - apply bool_decide_eq_false_1 in Eq.
    destruct (bool_decide (c = comma) && negb (inQuotes st)); cbn [result current].
    + apply Forall_app_2; [apply Forall_app_2; [exact Hr | repeat constructor; exact Hcur]|].
      repeat constructor. cbn. apply not_elem_of_nil.
    + apply Forall_app_2; [exact Hr|]. repeat constructor.
      rewrite chars_append. cbn. rewrite elem_of_app, list_elem_of_singleton.
      intros [H|H]; [exact (Hcur H) | exact (Eq (eq_sym H))].
Qed.

Lemma foldl_quote_free l : forall st, quote_free st -> quote_free (foldl step st l).
Proof.
  induction l as [|c l IH]; intros st H; cbn [foldl]; [exact H|].
  apply IH, step_quote_free, H.
Qed.

(** Inside quotes every character that is no quote is kept in the field. *)
Lemma foldl_quoted l : forall st,
  inQuotes st = true -> quote ∉ l ->
  foldl step st l = mkState (result st) (current st +:+ Js.of_chars l) true.
Proof.
  induction l as [|c l IH]; intros st Hq Hl; cbn [foldl].
  - cbn. rewrite append_nil_r. destruct st. cbn in *. subst. reflexivity.
  - apply not_elem_of_cons in Hl as [Hc Hl].
    assert (Hs : step st c = mkState (result st) (current st +:+ String c "") true).
    { unfold step. rewrite bool_decide_eq_false_2 by exact (not_eq_sym Hc).
      rewrite Hq. cbn [negb]. rewrite andb_false_r. reflexivity. }
    rewrite Hs, IH by (try reflexivity; exact Hl). cbn [result current].
    rewrite append_assoc. reflexivity.
Qed.

End CsvFacts.

(** X24: on a line without quotes [parseCSVLine] splits at the commas and
    loses nothing: joining the fields with commas gives the line back, and
    there is one field more than there are commas. *)
Theorem parseCSVLine_without_quotes (line : string) :
  Csv.quote ∉ Js.chars line ->
  Js.join "," (Csv.parseCSVLine line) = line
  /\ List.length (Csv.parseCSVLine line)
     = 1 + List.length (filter (fun c => c = Csv.comma) (Js.chars line)).
Proof.
  intros H. unfold Csv.parseCSVLine.
  destruct (foldl_plain (Js.chars line) (Csv.mkState [] "" false) eq_refl H) as [Hj Hn].
  unfold csv_fields in Hj, Hn. cbn [Csv.result Csv.current app] in Hj, Hn.
  split.
  - rewrite Hj. cbn [Js.join]. apply of_chars_chars.
  - rewrite Hn. reflexivity.
Qed.

(** A line of three fields. *)
Lemma parseCSVLine_without_quotes_witness :
  Js.join "," (Csv.parseCSVLine "samsung,galaxy s24,65000") = "samsung,galaxy s24,65000"
  /\ List.length (Csv.parseCSVLine "samsung,galaxy s24,65000")
     = 1 + List.length (filter (fun c => c = Csv.comma) (Js.chars "samsung,galaxy s24,65000")).
Proof.
  apply (parseCSVLine_without_quotes "samsung,galaxy s24,65000").
  exact (bool_decide_eq_true_1 (Csv.quote ∉ Js.chars "samsung,galaxy s24,65000") eq_refl).
Defined.

(** X25: the fields [parseCSVLine] returns never contain a quote, and a
    line that is one quoted text without inner quotes is one field, its
    commas included. *)
Theorem parseCSVLine_quotes (line field : string) :
  Forall (fun f => Csv.quote ∉ Js.chars f) (Csv.parseCSVLine line)
  /\ (Csv.quote ∉ Js.chars field ->
      Csv.parseCSVLine (String Csv.quote field +:+ String Csv.quote "") = [field]).
Proof.
  split.
  - apply (foldl_quote_free (Js.chars line) (Csv.mkState [] "" false)).
    repeat constructor. cbn. apply not_elem_of_nil.
  - intros H. unfold Csv.parseCSVLine.
    change (Js.chars (String Csv.quote field +:+ String Csv.quote ""))
      with (Csv.quote :: Js.chars (field +:+ String Csv.quote "")).
    rewrite chars_append. cbn [foldl].
    change (Csv.step (Csv.mkState [] "" false) Csv.quote) with (Csv.mkState [] "" true).
    rewrite foldl_app.
    rewrite (foldl_quoted (Js.chars field) (Csv.mkState [] "" true) eq_refl H).
    cbn. rewrite of_chars_chars. reflexivity.
Qed.

(** A quoted processor name with a comma in it stays one field. *)
Example parseCSVLine_quoted_comma :
  Csv.parseCSVLine ("apple," +:+ String Csv.quote "A17 Pro, 3nm" +:+ String Csv.quote ",2023")
  = ["apple"; "A17 Pro, 3nm"; "2023"].
Proof. vm_compute. reflexivity. Qed.

(* ================================================================== *)
(** * Retries *)
(* ================================================================== *)

Section RetryFacts.
Import APIErrorHandler.
Context {W A : Type} (fn : Ext W A) (maxRetries : Q)
        (onRetry : option (nat -> ClassifiedError -> Ext W unit))
        (sleep : Q -> W -> W) (describe : string).

Lemma times_called_app l1 l2 : times_called (l1 ++ l2) = times_called l1 + times_called l2.
Proof. unfold times_called. rewrite List.filter_app, length_app. reflexivity. Qed.

Lemma times_slept_app l1 l2 : times_slept (l1 ++ l2) = times_slept l1 + times_slept l2.
Proof. unfold times_slept. rewrite List.filter_app, length_app. reflexivity. Qed.

Lemma retry_loop_bounded remaining : forall attempt lastError w log r w' log',
  retry_loop fn maxRetries onRetry sleep describe remaining attempt lastError w log
  = (r, w', log') ->
  times_called log' <= times_called log + remaining
  /\ times_slept log' - times_slept log <= times_called log' - times_called log
  /\ times_called log <= times_called log'.
Proof.
  induction remaining as [|remaining IH]; intros attempt lastError w log r w' log' H;
    cbn [retry_loop] in H.
  - inversion H. subst. lia.
  - destruct (fn w) as [[a|error] w1].
    + inversion H. subst. rewrite times_called_app, times_slept_app. cbn. lia.
    + destruct (negb (retryable (classifyError error)) || _).
      * inversion H. subst. rewrite times_called_app, times_slept_app. cbn. lia.
      * destruct onRetry as [callback|].
        -- destruct (callback attempt (classifyError error) w1) as [[[]|e] w2].
           ++ apply IH in H. rewrite ?times_called_app, ?times_slept_app in H. cbn in H. lia.
           ++ inversion H. subst. rewrite ?times_called_app, ?times_slept_app. cbn. lia.
        -- apply IH in H. rewrite ?times_called_app, ?times_slept_app in H. cbn in H. lia.
Qed.

End RetryFacts.

(** X26: for a finite [maxRetries], [handleWithRetry] calls [fn] at most
    floor(maxRetries) times and never waits more often than it has called;
    a run that makes no call at all fails with "Max retries exceeded" and
    leaves the world untouched. *)
Theorem handleWithRetry_calls_are_bounded
    {W A : Type} (fn : Ext W A) (maxRetries : Q)
    (onRetry : option (nat -> APIErrorHandler.ClassifiedError -> Ext W unit))
    (sleep : Q -> W -> W) (describe : string) (w w' : W) (r : outcome A)
    (log : list APIErrorHandler.Event) :
  APIErrorHandler.handleWithRetry fn maxRetries onRetry sleep describe w = (r, w', log) ->
  times_called log <= Z.to_nat (Qfloor maxRetries)
  /\ times_slept log <= times_called log
  /\ (times_called log = 0 -> r = Threw (JsError "Max retries exceeded") /\ w' = w).
Proof.
  intros H. unfold APIErrorHandler.handleWithRetry in H.
  pose proof (retry_loop_bounded fn maxRetries onRetry sleep describe _ _ _ _ _ _ _ _ H)
    as (H1 & H2 & _).
  cbn in H1, H2. split; [exact H1|]. split; [lia|].
  intros H0. destruct (Z.to_nat (Qfloor maxRetries)) as [|n]; cbn [APIErrorHandler.retry_loop] in H.
  - inversion H. subst. split; reflexivity.
  - exfalso. destruct (fn w) as [[a|error] w1].
    + inversion H. subst. cbn in H0. discriminate H0.
    + destruct (negb _ || _).
      * inversion H. subst. cbn in H0. discriminate H0.
      * destruct onRetry as [callback|].
        -- destruct (callback 1 (APIErrorHandler.classifyError error) w1) as [[[]|e] w2].
           ++ apply (retry_loop_bounded fn maxRetries (Some callback) sleep describe) in H
                as (_ & _ & H3).
              rewrite H0 in H3. rewrite ?times_called_app in H3. cbn in H3. lia.
           ++ inversion H. subst. rewrite ?times_called_app in H0. cbn in H0. lia.
        -- apply (retry_loop_bounded fn maxRetries None sleep describe) in H as (_ & _ & H3).
           rewrite H0 in H3. rewrite ?times_called_app in H3. cbn in H3. lia.
Qed.

(** A service that is rate limited on every call, tried three times. *)
Lemma handleWithRetry_calls_are_bounded_witness :
  let run :=
    APIErrorHandler.handleWithRetry (W:=unit) (A:=string)
      (fun w => (Threw (JsError "429 Too Many Requests"), w)) 3 None (fun _ w => w) "" tt in
  times_called run.2 <= Z.to_nat (Qfloor 3)
  /\ times_slept run.2 <= times_called run.2
  /\ (times_called run.2 = 0 -> run.1.1 = Threw (JsError "Max retries exceeded") /\ run.1.2 = tt).
Proof.
  intros run.
  apply (handleWithRetry_calls_are_bounded (W:=unit) (A:=string)
           (fun w => (Threw (JsError "429 Too Many Requests"), w)) 3 None (fun _ w => w) ""
           tt run.1.2 run.1.1 run.2).
  vm_compute. reflexivity.
Defined.

(** X27: an error that is not worth retrying (an authentication error, or
    one of no known kind) ends [handleWithRetry] at once: [fn] is called
    once, nothing is waited for, and the error is rethrown, wrapped in an
    [Error] if it is none. *)
Theorem handleWithRetry_gives_up_on_errors_not_worth_retrying
    {W A : Type} (fn : Ext W A) (maxRetries : Q)
    (onRetry : option (nat -> APIErrorHandler.ClassifiedError -> Ext W unit))
    (sleep : Q -> W -> W) (describe : string) (w w1 : W) (error : exn) :
  (1 <= maxRetries)%Q ->
  fn w = (Threw error, w1) ->
  APIErrorHandler.retryable (APIErrorHandler.classifyError error) = false ->
  APIErrorHandler.handleWithRetry fn maxRetries onRetry sleep describe w
  = (Threw match error with JsError _ => error | JsThrown => JsError describe end,
     w1, [APIErrorHandler.Called]).
Proof.
  intros Hmax Hfn Hno. unfold APIErrorHandler.handleWithRetry.
  assert (Hfuel : exists n, Z.to_nat (Qfloor maxRetries) = S n).
  { assert (1 <= Qfloor maxRetries)%Z.
    { change 1%Z with (Qfloor 1). apply Qfloor_resp_le, Hmax. }
    exists (Z.to_nat (Qfloor maxRetries) - 1). lia. }
  destruct Hfuel as [n ->]. cbn [APIErrorHandler.retry_loop]. rewrite Hfn, Hno. reflexivity.
Qed.

(** An authentication failure, with three attempts allowed. *)
Lemma handleWithRetry_gives_up_on_errors_not_worth_retrying_witness :
  APIErrorHandler.handleWithRetry (W:=unit) (A:=string)
    (fun w => (Threw (JsError "401 Unauthorized"), w)) 3 None (fun _ w => w) "" tt
  = (Threw (JsError "401 Unauthorized"), tt, [APIErrorHandler.Called]).
Proof.
  apply (handleWithRetry_gives_up_on_errors_not_worth_retrying (W:=unit) (A:=string)
           (fun w => (Threw (JsError "401 Unauthorized"), w)) 3 None (fun _ w => w) ""
           tt tt (JsError "401 Unauthorized")).
  - vm_compute. discriminate.
  - reflexivity.
  - vm_compute. reflexivity.
Defined.

(** The waits double: a service that is rate limited three times in a row
    is waited for 2 and then 4 seconds. *)
Example handleWithRetry_backs_off :
  (APIErrorHandler.handleWithRetry (W:=unit) (A:=string)
     (fun w => (Threw (JsError "429 Too Many Requests"), w)) 3 None (fun _ w => w) "" tt).2
  = [APIErrorHandler.Called; APIErrorHandler.Slept 2000; APIErrorHandler.Called;
     APIErrorHandler.Slept 4000; APIErrorHandler.Called].
Proof. vm_compute. reflexivity. Qed.

(* ================================================================== *)
(** * The compare tray of the page *)
(* ================================================================== *)

Section Tray.
Import ComparePage.

Lemma existsb_id_false phone prev :
  existsb (fun p => (Phone.phone_id p =? Phone.phone_id phone)%Z) prev = false ->
  Phone.phone_id phone ∉ map Phone.phone_id prev.
Proof.
  intros E Hin. apply list_elem_of_fmap in Hin as (p & Hp & Hin).
  assert (Ht : existsb (fun p => (Phone.phone_id p =? Phone.phone_id phone)%Z) prev = true).
  { apply existsb_exists. exists p. split; [apply list_elem_of_In, Hin|].
    apply Z.eqb_eq. symmetry. exact Hp. }
  congruence.
Qed.

Lemma handleAddToCompare_ok now phone prev :
  tray_ok prev -> tray_ok (handleAddToCompare now phone prev).1.
Proof.
  intros [Hlen Hnd]. unfold handleAddToCompare.
  destruct (existsb _ prev) eqn:E; cbn [fst]; [split; assumption|].
  apply existsb_id_false in E.
  destruct (4 <=? List.length prev) eqn:E4; cbn [fst].
  - destruct prev as [|oldest rest]; [cbn in E4; discriminate|].
    cbn [drop]. rewrite drop_0. cbn in Hlen, Hnd, E. split.
    + rewrite length_app. cbn. lia.
    + apply NoDup_cons in Hnd as [_ Hnd]. rewrite map_app. cbn [map].
      apply NoDup_app. split; [exact Hnd|]. split; [|apply NoDup_singleton].
      intros id Hid Hid'. apply list_elem_of_singleton in Hid'. subst id.
      apply E. right. exact Hid.
  - apply Nat.leb_gt in E4. split.
    + rewrite length_app. cbn. lia.
    + rewrite map_app. cbn [map]. apply NoDup_app. split; [exact Hnd|].
      split; [|apply NoDup_singleton].
      intros id Hid Hid'. apply list_elem_of_singleton in Hid'. subst id. exact (E Hid).
Qed.

Lemma handleRemoveFromCompare_ok phoneId prev :
  tray_ok prev -> tray_ok (handleRemoveFromCompare phoneId prev).
Proof.
  intros [Hlen Hnd]. unfold handleRemoveFromCompare. split.
  - etransitivity; [|exact Hlen]. clear. induction prev as [|p prev IH]; cbn; [lia|].
    destruct (negb _); cbn; lia.
  - clear Hlen. induction prev as [|p prev IH]; cbn; [constructor|].
    cbn in Hnd. apply NoDup_cons in Hnd as [Hp Hnd].
    destruct (negb _); [|exact (IH Hnd)].
    cbn. apply NoDup_cons. split; [|exact (IH Hnd)].
    intros Hin. apply Hp. apply list_elem_of_fmap in Hin as (q & Hq & Hin).
    apply list_elem_of_fmap. exists q. split; [exact Hq|].
    apply list_elem_of_In. apply list_elem_of_In, filter_In in Hin. exact (proj1 Hin).
Qed.

Lemma act_ok actions : forall tray, tray_ok tray -> tray_ok (foldl act tray actions).
Proof.
  induction actions as [|a actions IH]; intros tray H; cbn [foldl]; [exact H|].
  apply IH. destruct a; cbn [act].
  - apply handleAddToCompare_ok, H.
  - apply handleRemoveFromCompare_ok, H.
Qed.

End Tray.

(** X28: whatever the user adds and removes, the compare tray never holds
    more than four phones nor the same phone twice; a phone that has just
    been added is in the tray, and a phone that has just been removed is
    not. *)
Theorem compare_tray_invariant (actions : list ComparePage.Action)
    (now : Z) (phone : Phone.t) (phoneId : Z) :
  let tray := foldl ComparePage.act [] actions in
  tray_ok tray
  /\ Phone.phone_id phone ∈ map Phone.phone_id (ComparePage.handleAddToCompare now phone tray).1
  /\ phoneId ∉ map Phone.phone_id (ComparePage.handleRemoveFromCompare phoneId tray).
Proof.
  intros tray. split; [|split].
  - apply act_ok. split; [cbn; lia | constructor].
  - unfold ComparePage.handleAddToCompare.
    destruct (existsb _ tray) eqn:E; cbn [fst].
    + apply existsb_exists in E as (p & Hin & Hp). apply Z.eqb_eq in Hp.
      apply list_elem_of_fmap. exists p. split; [symmetry; exact Hp | apply list_elem_of_In, Hin].
    + destruct (4 <=? List.length tray); cbn [fst]; rewrite map_app, elem_of_app; right; left.
  - intros Hin. apply list_elem_of_fmap in Hin as (p & Hp & Hin).
    unfold ComparePage.handleRemoveFromCompare in Hin.
    apply list_elem_of_In, filter_In in Hin as [_ Hne].
    apply negb_true_iff, Z.eqb_neq in Hne. congruence.
Qed.

(* ================================================================== *)
(** * The chat endpoint *)
(* ================================================================== *)

Section RouteFacts.
Context {W : Type} (svc : Services W).
Import ChatRoute.

Lemma POST_total request_json configured : total (POST svc request_json configured).
Proof. unfold POST. apply total_try_catch. intros e. apply total_ret. Qed.

End RouteFacts.

(** X29: the chat endpoint always answers.  A body whose query is no
    string, or is empty, blank or longer than 500 characters once trimmed,
    gets status 400 before any service is called; an acceptable query is
    trimmed and handed to [process], whose response is returned with
    status 200; status 500 is left for a processor that cannot be built. *)
Theorem chat_route_validates_before_processing
    {W : Type} (svc : Services W) (body : ChatRoute.Body) (configured : bool) (s : St W)
    (error : exn) :
  (exists resp s',
     ChatRoute.POST svc (Returned body) configured s = (Returned resp, s')
     /\ match acceptable_query (ChatRoute.query body) with
        | None => ChatRoute.status resp = 400 /\ s' = s
        | Some trimmedQuery =>
            if configured then
              exists response,
                QueryProcessor.process svc trimmedQuery
                  (default Filters.empty (ChatRoute.filters body))
                  (default [] (ChatRoute.history body)) None s
                = (Returned response, s')
                /\ resp = ChatRoute.mkResponse (ChatRoute.ChatPayload response) 200
            else ChatRoute.status resp = 500 /\ s' = s
        end)
  /\ (exists resp,
        ChatRoute.POST svc (Threw error) configured s = (Returned resp, s)
        /\ ChatRoute.status resp = 500).
Proof.
  split; [|eexists; split; reflexivity].
  unfold ChatRoute.POST, try_catch, bind, acceptable_query.
  destruct (ChatRoute.query body) as [|q]; cbn [ret];
    try (eexists _, _; split; [reflexivity | split; reflexivity]).
  destruct (bool_decide (q = "")) eqn:Eq.
  - apply bool_decide_eq_true_1 in Eq. subst q. eexists _, _. split; [reflexivity|].
    cbn. split; reflexivity.
  - destruct (Js.length (Js.trim q) =? 0) eqn:E0.
    + apply Nat.eqb_eq in E0. rewrite E0. cbn. eexists _, _. split; [reflexivity|].
      split; reflexivity.
    + apply Nat.eqb_neq in E0.
      replace (0 <? Js.length (Js.trim q)) with true by (symmetry; apply Nat.ltb_lt; lia).
      cbn [andb].
      destruct (500 <? Js.length (Js.trim q)) eqn:E5.
      * apply Nat.ltb_lt in E5.
        replace (Js.length (Js.trim q) <=? 500) with false by (symmetry; apply Nat.leb_gt; lia).
        eexists _, _. split; [reflexivity|]. split; reflexivity.
      * apply Nat.ltb_ge in E5.
        replace (Js.length (Js.trim q) <=? 500) with true by (symmetry; apply Nat.leb_le; lia).
        destruct configured; cbn [ChatRoute.getQueryProcessor ret throw].
        -- destruct (process_total svc (Js.trim q)
                       (default Filters.empty (ChatRoute.filters body))
                       (default [] (ChatRoute.history body)) None s) as (r & s' & E).
           rewrite E. eexists _, _. split; [reflexivity|]. exists r. split; reflexivity.
        -- eexists _, _. split; [reflexivity|]. split; reflexivity.
Qed.

(* ================================================================== *)
(** * Pages of the catalog listing *)
(* ================================================================== *)

Section Pages.
Import PhonesRoute.



End Pages.

Section PagesTotal.
Import PhonesRoute.


End PagesTotal.



(** The second page of two, cheapest first. *)
Example phones_route_second_page :
  PhonesRoute.GET
    (PhonesRoute.mkParams (Some "price") (Some "asc") (Some "2") (Some "2") None)
    (Returned Fixtures.catalog)
  = PhonesRoute.Listed
      (PhonesRoute.mkListing [Fixtures.galaxyS24; Fixtures.iphone15] 4 (Some 2%Z) (Some 2%Z)
                             (Some 2%Z)).
Proof. vm_compute. reflexivity. Qed.

Example parseInt_examples :
  PhonesRoute.parseInt "20" = Some 20%Z
  /\ PhonesRoute.parseInt "  -7px" = Some (-7)%Z
  /\ PhonesRoute.parseInt "0x1F" = Some 31%Z
  /\ PhonesRoute.parseInt "ten" = None.
Proof. repeat split; vm_compute; reflexivity. Qed.
